(** * Johnny: a microcoded Von-Neumann machine simulator

    A shallow embedding of the simulator's core: the project store
    (RAM, microcode, instruction names), the registers and flags, the
    micro-instruction set, micro and macro stepping, the RAM row editor,
    the macro recorder and the manual inputs.

    Sources.  The scripts exist in several builds.  The development follows
    the build organised around the [JohnnyProject] class:
    classes/johnny-project.js, microstep.js, ram-table.js, record.js,
    utils/writing.js, utils/formatter.js, the handlers of buttons.js that
    call [project], and the macro-step loop.  The older build keeps [ram]
    and [microCode] in global arrays; its RAM editor is embedded as well,
    in [Module Legacy], and its stepping functions in [Module Older],
    because they differ where a property below depends on it.

    Conventions of the embedding.
    - JavaScript numbers that the machine handles are integers; they are
      modelled by [Z].  A value that may be [undefined] (a read past the end
      of an array, a non-numeric input field) has type [option Z], with
      [None] standing for "not a finite number".  Every register write
      truncates its argument, and every write to the RAM or the microcode
      other than a snapshot import is given an integer.  A snapshot may
      carry a number that is not an integer: [#fromJSON] checks the type
      and the range of a value only, so it would store 2.5.  Such
      snapshots, and the states reached from them, are outside this
      development: a RAM word and a microcode id are integers throughout.
    - A JavaScript string is modelled by a Rocq string with one character
      for each UTF-16 code unit, so that [String.length] is [.length];
      code units above U+00FF have no counterpart here.
    - Global variables of the scripts are the fields of [Sim]; the private
      fields of the [JohnnyProject] class are the fields of [JohnnyProject].
    - A function that can [throw] runs in the monad [M]: it returns either
      a value or the thrown error, together with the state reached at that
      point (JavaScript keeps every mutation made before the throw).
    - DOM updates, animations, console logging and the localStorage
      persistence of [saveProject] have no influence on the machine state
      and are left out; [alert] calls are kept as a log. *)

From Stdlib Require Import ZArith Lia Bool.
From stdpp Require Import base option list strings gmap pretty.

Local Open Scope Z_scope.

(** ** JavaScript values, as produced by [JSON.parse]

    [JNum] holds an integer: numbers that are not integers are outside the
    development (see the conventions above). *)

#[warnings="-register-all"] Inductive JsVal : Type :=
| JUndefined
| JNull
| JBool (b : bool)
| JNum (n : Z)
| JStr (s : string)
| JArr (elems : list JsVal)
| JObj (props : list (string * JsVal)).

(** ** Errors and the state-and-exception monad *)

Inductive Err : Type :=
| RamAddressOutOfBounds (address : Z)
| RamValueNotNumber
| RamValueOutOfBounds (value : Z)
| MicroCodeAddressOutOfBounds (address : Z)
| MicroCodeValueNotNumber
| MicroCodeValueOutOfBounds (value : Z)
| OpcodeOutOfBounds (opCode : Z)
| InvalidInstructionName (name : string)
| InvalidRamValues
| InvalidRamData
| InvalidMicroCodeValues
| InvalidMicroCodeData
| InvalidInstructionNames
| JsTypeError
| JsRangeError
| JsSyntaxError
| RecordStartOutOfBounds
| RecordStartNotMultipleOf10
| RecordNameEmpty
| RecordNameTooLong.

Inductive Res (A : Type) : Type :=
| Ok (a : A)
| Throw (e : Err).

Arguments Ok {A} a.
Arguments Throw {A} e.

Definition M (St A : Type) : Type := St -> Res A * St.

Definition ret {St A : Type} (a : A) : M St A := fun s => (Ok a, s).

Definition bind {St A B : Type} (m : M St A) (k : A -> M St B) : M St B :=
  fun s =>
    match m s with
    | (Ok a, s') => k a s'
    | (Throw e, s') => (Throw e, s')
    end.

Definition throw {St A : Type} (e : Err) : M St A := fun s => (Throw e, s).

Definition gets {St A : Type} (f : St -> A) : M St A := fun s => (Ok (f s), s).

Definition modify {St : Type} (f : St -> St) : M St unit := fun s => (Ok tt, f s).

(** [try { m } catch (e) { h e }] *)
Definition try_catch {St A : Type} (m : M St A) (h : Err -> M St A) : M St A :=
  fun s =>
    match m s with
    | (Ok a, s') => (Ok a, s')
    | (Throw e, s') => h e s'
    end.

Definition when {St : Type} (b : bool) (m : M St unit) : M St unit :=
  if b then m else ret tt.

Notation "x <- c1 ;; c2" := (bind c1 (fun x => c2))
  (at level 100, c1 at next level, right associativity).
Notation "c1 ;; c2" := (bind c1 (fun _ => c2))
  (at level 100, right associativity).

(** [for (i = start, n times, i += step) body(i)] *)
Fixpoint for_loop {St : Type} (n : nat) (i step : Z) (body : Z -> M St unit)
  : M St unit :=
  match n with
  | O => ret tt
  | S n' => body i ;; for_loop n' (i + step) step body
  end.

(** ** The project store (class JohnnyProject) *)

Definition RAM_SIZE : Z := 1000.
Definition MICROCODE_SIZE : Z := 200.
Definition MAX_RAM_VALUE : Z := MICROCODE_SIZE * 100 - 1.

Record JohnnyProject : Type := mkProject {
  ram : list Z;
  microCode : list Z;
  instructionNames : gmap string JsVal
}.

Definition set_ram (r : list Z) (p : JohnnyProject) : JohnnyProject :=
  {| ram := r; microCode := microCode p; instructionNames := instructionNames p |}.

Definition set_microCode (mc : list Z) (p : JohnnyProject) : JohnnyProject :=
  {| ram := ram p; microCode := mc; instructionNames := instructionNames p |}.

Definition set_instructionNames (ns : gmap string JsVal) (p : JohnnyProject)
  : JohnnyProject :=
  {| ram := ram p; microCode := microCode p; instructionNames := ns |}.

(** The property key under which a number indexes an object: [obj[2]] is
    [obj["2"]]. *)
Definition key_of (n : Z) : string := pretty n.

Definition default_microCode_prefix : list Z :=
  [8; 2; 3; 5; 0; 0; 0; 0; 0; 0;
   4; 2; 18; 9; 7; 0; 0; 0; 0; 0;
   4; 2; 13; 9; 7; 0; 0; 0; 0; 0;
   4; 2; 14; 9; 7; 0; 0; 0; 0; 0;
   4; 15; 1; 9; 7; 0; 0; 0; 0; 0;
   11; 7; 0; 0; 0; 0; 0; 0; 0; 0;
   4; 2; 18; 10; 9; 7; 0; 0; 0; 0;
   4; 2; 18; 16; 15; 1; 9; 7; 0; 0;
   4; 2; 18; 17; 15; 1; 9; 7; 0; 0;
   4; 12; 15; 1; 9; 7; 0; 0; 0; 0;
   19; 0; 0; 0; 0; 0; 0; 0; 0; 0]%Z.

(** [while (a.length < size) a.push(0)] *)
Definition pad_zeros {A : Type} (zero : A) (size : Z) (a : list A) : list A :=
  a ++ replicate (Z.to_nat size - length a)%nat zero.

Definition initRam_value : list Z := replicate (Z.to_nat RAM_SIZE) 0.

Definition initMicroCode_value : list Z :=
  pad_zeros 0 MICROCODE_SIZE default_microCode_prefix.

Definition initInstructionNames_value : gmap string JsVal :=
  list_to_map
    [("0", JStr "FETCH"); ("1", JStr "TAKE"); ("2", JStr "ADD");
     ("3", JStr "SUB"); ("4", JStr "SAVE"); ("5", JStr "JMP");
     ("6", JStr "TST"); ("7", JStr "INC"); ("8", JStr "DEC");
     ("9", JStr "NULL"); ("10", JStr "HLT")]%string.

Definition initRam : M JohnnyProject unit := modify (set_ram initRam_value).

Definition initMicroCode : M JohnnyProject unit :=
  modify (set_microCode initMicroCode_value) ;;
  modify (set_instructionNames initInstructionNames_value).

(** The project as the constructor leaves it when localStorage holds no
    saved project. *)
Definition init_project : JohnnyProject :=
  {| ram := initRam_value;
     microCode := initMicroCode_value;
     instructionNames := initInstructionNames_value |}.

Definition getRam (address : Z) : M JohnnyProject (option Z) :=
  if (address <? 0) || (address >=? RAM_SIZE)
  then throw (RamAddressOutOfBounds address)
  else gets (fun p => ram p !! Z.to_nat address).

(** The [save] flag of the source only decides whether the project is
    written to localStorage afterwards. *)
Definition setRam (address : Z) (value : option Z) : M JohnnyProject unit :=
  if (address <? 0) || (address >=? RAM_SIZE)
  then throw (RamAddressOutOfBounds address)
  else match value with
       | None => throw RamValueNotNumber
       | Some v =>
           if (v <? 0) || (v >? MAX_RAM_VALUE)
           then throw (RamValueOutOfBounds v)
           else modify (fun p => set_ram (<[Z.to_nat address := v]> (ram p)) p)
       end.

Definition resetRam : M JohnnyProject unit := initRam.

Definition getMicroCode (address : Z) : M JohnnyProject (option Z) :=
  if (address <? 0) || (address >=? MICROCODE_SIZE)
  then throw (MicroCodeAddressOutOfBounds address)
  else gets (fun p => microCode p !! Z.to_nat address).

Definition setMicroCode (address : Z) (value : option Z) : M JohnnyProject unit :=
  if (address <? 0) || (address >=? MICROCODE_SIZE)
  then throw (MicroCodeAddressOutOfBounds address)
  else match value with
       | None => throw MicroCodeValueNotNumber
       | Some v =>
           if (v <? 0) || (v >? 19) || (v =? 6)
           then throw (MicroCodeValueOutOfBounds v)
           else modify (fun p =>
                          set_microCode (<[Z.to_nat address := v]> (microCode p)) p)
       end.

Definition resetMicroCode : M JohnnyProject unit := initMicroCode.

(** [getLastUsedRamAddress]: scans [i = n-1 .. 0]; a slot past the end of
    the array reads [undefined], which is [!== 0]. *)
Fixpoint last_used_from (n : nat) (r : list Z) : Z :=
  match n with
  | O => -1
  | S i =>
      match r !! i with
      | Some 0 => last_used_from i r
      | _ => Z.of_nat i
      end
  end.

Definition getLastUsedRamAddress (p : JohnnyProject) : Z :=
  last_used_from (Z.to_nat RAM_SIZE) (ram p).

(** [name.trim()] strips white space and line terminators from both
    ends.  Among the code units up to U+00FF these are U+0009 to U+000D,
    U+0020 and the no-break space U+00A0. *)
Definition is_white_space (c : Ascii.ascii) : bool :=
  let code := Ascii.N_of_ascii c in
  ((9 <=? code) && (code <=? 13) || (code =? 32) || (code =? 160))%N.

Fixpoint trim_start (s : string) : string :=
  match s with
  | EmptyString => EmptyString
  | String c s' => if is_white_space c then trim_start s' else s
  end.

Definition trim (s : string) : string :=
  String.rev (trim_start (String.rev (trim_start s))).

Definition getInstructionName (opCode : Z) (p : JohnnyProject) : JsVal :=
  match instructionNames p !! key_of opCode with
  | Some (JStr s) => if String.eqb s "" then JNull else JStr s
  | Some (JNum n) => if n =? 0 then JNull else JNum n
  | Some (JBool false) | Some JUndefined | Some JNull | None => JNull
  | Some v => v
  end.

Definition setInstructionName (opCode : Z) (name : string) : M JohnnyProject unit :=
  if (opCode <? 0) || (opCode >=? MICROCODE_SIZE / 10)
  then throw (OpcodeOutOfBounds opCode)
  else if String.eqb (trim name) "" || (Z.of_nat (String.length name) >? 5)
  then throw (InvalidInstructionName name)
  else modify (fun p =>
         set_instructionNames (<[key_of opCode := JStr name]> (instructionNames p)) p).

(** *** Snapshot import *)

(** The own properties of a parsed JSON object; a later binding of a key
    replaces an earlier one. *)
Definition object_props (props : list (string * JsVal)) : gmap string JsVal :=
  list_to_map (reverse props).

(** The index properties of an array. *)
Definition array_props (elems : list JsVal) : gmap string JsVal :=
  list_to_map (imap (fun i v => (key_of (Z.of_nat i), v)) elems).

(** [json.key]: reading a property of [null] or [undefined] throws. *)
Definition get_prop {St : Type} (json : JsVal) (key : string) : M St JsVal :=
  match json with
  | JUndefined | JNull => throw JsTypeError
  | JObj props => ret (default JUndefined (object_props props !! key))
  | _ => ret JUndefined
  end.

Definition number_of (val : JsVal) : option Z :=
  match val with
  | JNum n => Some n
  | _ => None
  end.

(** [typeof val === "number" && val >= 0 && val <= MAX_RAM_VALUE] *)
Definition is_ram_value (val : JsVal) : bool :=
  match val with
  | JNum n => (n >=? 0) && (n <=? MAX_RAM_VALUE)
  | _ => false
  end.

(** [typeof val === "number" && val >= 0 && val <= 19 && val !== 6] *)
Definition is_microCode_value (val : JsVal) : bool :=
  match val with
  | JNum n => (n >=? 0) && (n <=? 19) && negb (n =? 6)
  | _ => false
  end.

Definition fromJSON (json : JsVal) : M JohnnyProject unit :=
  (* Validate and set RAM *)
  json_ram <- get_prop json "ram" ;;
  match json_ram with
  | JArr elems =>
      let paddedRam := pad_zeros (JNum 0) RAM_SIZE elems in
      if (Z.of_nat (length paddedRam) =? RAM_SIZE) && forallb is_ram_value paddedRam
      then modify (set_ram (omap number_of paddedRam))
      else throw InvalidRamValues
  | _ => throw InvalidRamData
  end ;;
  (* Validate and set microcode *)
  json_microCode <- get_prop json "microCode" ;;
  match json_microCode with
  | JArr elems =>
      let paddedMicroCode := pad_zeros (JNum 0) MICROCODE_SIZE elems in
      if (Z.of_nat (length paddedMicroCode) =? MICROCODE_SIZE)
         && forallb is_microCode_value paddedMicroCode
      then modify (set_microCode (omap number_of paddedMicroCode))
      else throw InvalidMicroCodeValues
  | _ => throw InvalidMicroCodeData
  end ;;
  (* Validate and set instruction names *)
  json_names <- get_prop json "instructionNames" ;;
  match json_names with
  | JObj props => modify (set_instructionNames (object_props props))
  | JArr elems => modify (set_instructionNames (array_props elems))
  | _ => throw InvalidInstructionNames
  end.

(** [import(jsonString)].  The argument is the outcome of
    [JSON.parse(jsonString)], [None] when parsing throws.  The source
    returns nothing; the result here tells what it logs: [None] for
    "Project imported", [Some e] for [console.error(..., e)]. *)
Definition import (parsed : option JsVal) : M JohnnyProject (option Err) :=
  try_catch
    (match parsed with
     | None => throw JsSyntaxError
     | Some projectData => fromJSON projectData
     end ;;
     ret None)
    (fun error => ret (Some error)).

(** ** The simulator state (global variables of main.js) *)

Inductive Alert : Type :=
| FetchErrorAlert (pc : Z)
| MicrocodeZeroAlert (mc : Z)
| UnknownMicroInstructionAlert (id : option Z) (mc : Z)
| ProgramStoppedAlert
| RamFullAlert
| RecordingErrorAlert
| InputErrorAlert
| ImportErrorAlert.

Record Sim : Type := mkSim {
  project : JohnnyProject;
  addressBus : Z;
  dataBus : Z;
  accumulator : Z;
  programCounter : Z;
  instructionRegister : Z;
  microCodeCounter : Z;
  selectedRamAddress : Z;
  lastAccessedRamAddress : option Z;
  isHlt : bool;
  isMacroRunning : bool;
  isRecording : bool;
  recordMicroCodeAddress : option Z;
  fixRamAfterShift : bool;          (* settings.get("fixRamAfterShift") *)
  alerts : list Alert               (* alert(...) calls, latest first *)
}.

Definition set_project (x : JohnnyProject) (s : Sim) : Sim :=
  mkSim x (addressBus s) (dataBus s) (accumulator s) (programCounter s)
    (instructionRegister s) (microCodeCounter s) (selectedRamAddress s)
    (lastAccessedRamAddress s) (isHlt s) (isMacroRunning s) (isRecording s)
    (recordMicroCodeAddress s) (fixRamAfterShift s) (alerts s).

Definition set_addressBus (x : Z) (s : Sim) : Sim :=
  mkSim (project s) x (dataBus s) (accumulator s) (programCounter s)
    (instructionRegister s) (microCodeCounter s) (selectedRamAddress s)
    (lastAccessedRamAddress s) (isHlt s) (isMacroRunning s) (isRecording s)
    (recordMicroCodeAddress s) (fixRamAfterShift s) (alerts s).

Definition set_dataBus (x : Z) (s : Sim) : Sim :=
  mkSim (project s) (addressBus s) x (accumulator s) (programCounter s)
    (instructionRegister s) (microCodeCounter s) (selectedRamAddress s)
    (lastAccessedRamAddress s) (isHlt s) (isMacroRunning s) (isRecording s)
    (recordMicroCodeAddress s) (fixRamAfterShift s) (alerts s).

Definition set_accumulator (x : Z) (s : Sim) : Sim :=
  mkSim (project s) (addressBus s) (dataBus s) x (programCounter s)
    (instructionRegister s) (microCodeCounter s) (selectedRamAddress s)
    (lastAccessedRamAddress s) (isHlt s) (isMacroRunning s) (isRecording s)
    (recordMicroCodeAddress s) (fixRamAfterShift s) (alerts s).

Definition set_programCounter (x : Z) (s : Sim) : Sim :=
  mkSim (project s) (addressBus s) (dataBus s) (accumulator s) x
    (instructionRegister s) (microCodeCounter s) (selectedRamAddress s)
    (lastAccessedRamAddress s) (isHlt s) (isMacroRunning s) (isRecording s)
    (recordMicroCodeAddress s) (fixRamAfterShift s) (alerts s).

Definition set_instructionRegister (x : Z) (s : Sim) : Sim :=
  mkSim (project s) (addressBus s) (dataBus s) (accumulator s) (programCounter s)
    x (microCodeCounter s) (selectedRamAddress s)
    (lastAccessedRamAddress s) (isHlt s) (isMacroRunning s) (isRecording s)
    (recordMicroCodeAddress s) (fixRamAfterShift s) (alerts s).

Definition set_microCodeCounter (x : Z) (s : Sim) : Sim :=
  mkSim (project s) (addressBus s) (dataBus s) (accumulator s) (programCounter s)
    (instructionRegister s) x (selectedRamAddress s)
    (lastAccessedRamAddress s) (isHlt s) (isMacroRunning s) (isRecording s)
    (recordMicroCodeAddress s) (fixRamAfterShift s) (alerts s).

Definition set_selectedRamAddress (x : Z) (s : Sim) : Sim :=
  mkSim (project s) (addressBus s) (dataBus s) (accumulator s) (programCounter s)
    (instructionRegister s) (microCodeCounter s) x
    (lastAccessedRamAddress s) (isHlt s) (isMacroRunning s) (isRecording s)
    (recordMicroCodeAddress s) (fixRamAfterShift s) (alerts s).

Definition set_lastAccessedRamAddress (x : option Z) (s : Sim) : Sim :=
  mkSim (project s) (addressBus s) (dataBus s) (accumulator s) (programCounter s)
    (instructionRegister s) (microCodeCounter s) (selectedRamAddress s)
    x (isHlt s) (isMacroRunning s) (isRecording s)
    (recordMicroCodeAddress s) (fixRamAfterShift s) (alerts s).

Definition set_isHlt (x : bool) (s : Sim) : Sim :=
  mkSim (project s) (addressBus s) (dataBus s) (accumulator s) (programCounter s)
    (instructionRegister s) (microCodeCounter s) (selectedRamAddress s)
    (lastAccessedRamAddress s) x (isMacroRunning s) (isRecording s)
    (recordMicroCodeAddress s) (fixRamAfterShift s) (alerts s).

Definition set_isMacroRunning (x : bool) (s : Sim) : Sim :=
  mkSim (project s) (addressBus s) (dataBus s) (accumulator s) (programCounter s)
    (instructionRegister s) (microCodeCounter s) (selectedRamAddress s)
    (lastAccessedRamAddress s) (isHlt s) x (isRecording s)
    (recordMicroCodeAddress s) (fixRamAfterShift s) (alerts s).

Definition set_isRecording (x : bool) (s : Sim) : Sim :=
  mkSim (project s) (addressBus s) (dataBus s) (accumulator s) (programCounter s)
    (instructionRegister s) (microCodeCounter s) (selectedRamAddress s)
    (lastAccessedRamAddress s) (isHlt s) (isMacroRunning s) x
    (recordMicroCodeAddress s) (fixRamAfterShift s) (alerts s).

Definition set_recordMicroCodeAddress (x : option Z) (s : Sim) : Sim :=
  mkSim (project s) (addressBus s) (dataBus s) (accumulator s) (programCounter s)
    (instructionRegister s) (microCodeCounter s) (selectedRamAddress s)
    (lastAccessedRamAddress s) (isHlt s) (isMacroRunning s) (isRecording s)
    x (fixRamAfterShift s) (alerts s).

Definition set_fixRamAfterShift (x : bool) (s : Sim) : Sim :=
  mkSim (project s) (addressBus s) (dataBus s) (accumulator s) (programCounter s)
    (instructionRegister s) (microCodeCounter s) (selectedRamAddress s)
    (lastAccessedRamAddress s) (isHlt s) (isMacroRunning s) (isRecording s)
    (recordMicroCodeAddress s) x (alerts s).

Definition set_alerts (x : list Alert) (s : Sim) : Sim :=
  mkSim (project s) (addressBus s) (dataBus s) (accumulator s) (programCounter s)
    (instructionRegister s) (microCodeCounter s) (selectedRamAddress s)
    (lastAccessedRamAddress s) (isHlt s) (isMacroRunning s) (isRecording s)
    (recordMicroCodeAddress s) (fixRamAfterShift s) x.

(** The simulator right after [initialize()] on an empty localStorage. *)
Definition init_sim : Sim :=
  mkSim init_project 0 0 0 0 0 0 0 None false false false None true [].

(** Run a method of the project object on [project]. *)
Definition on_project {A : Type} (m : M JohnnyProject A) : M Sim A :=
  fun s => (fst (m (project s)), set_project (snd (m (project s))) s).

Definition alert (a : Alert) : M Sim unit :=
  modify (fun s => set_alerts (a :: alerts s) s).

(** ** Writing registers and RAM (utils/writing.js) *)

Definition clamp (value min max : Z) : Z := Z.min (Z.max value min) max.

(** [normalizeInt]: a value that is not a finite number makes
    [toNumberStrict] throw, which is caught and answered by 0. *)
Definition normalizeInt (value : option Z) (min max : Z) : Z :=
  match value with
  | Some num => clamp num min max
  | None => 0
  end.

Definition writeToRam (address : Z) (value : option Z) : M Sim unit :=
  let address := normalizeInt (Some address) 0 (RAM_SIZE - 1) in
  let value := normalizeInt value 0 MAX_RAM_VALUE in
  on_project (setRam address (Some value)).

Definition writeToAddressBus (value : option Z) : M Sim unit :=
  modify (set_addressBus (normalizeInt value 0 (RAM_SIZE - 1))).

Definition writeToDataBus (value : option Z) : M Sim unit :=
  modify (set_dataBus (normalizeInt value 0 MAX_RAM_VALUE)).

Definition writeToAccumulator (value : option Z) : M Sim unit :=
  modify (set_accumulator (normalizeInt value 0 MAX_RAM_VALUE)).

Definition writeToProgramCounter (value : option Z) : M Sim unit :=
  modify (set_programCounter (normalizeInt value 0 (RAM_SIZE - 1))).

Definition writeToInstructionRegister (value : option Z) : M Sim unit :=
  modify (set_instructionRegister (normalizeInt value 0 MAX_RAM_VALUE)).

Definition writeToMicroCodeCounter (value : option Z) : M Sim unit :=
  modify (set_microCodeCounter (normalizeInt value 0 (MICROCODE_SIZE - 1))).

(** [Math.trunc(data / 1000)] and [data % 1000] (utils/formatter.js) *)
Definition getDataHigh (data : Z) : Z := Z.quot data 1000.
Definition getDataLow (data : Z) : Z := Z.rem data 1000.

(** ** Macro recording (record.js) *)

Definition recordMicroStep (microStepId : option Z) : M Sim unit :=
  recording <- gets isRecording ;;
  address <- gets recordMicroCodeAddress ;;
  match recording, address with
  | true, Some a =>
      on_project (setMicroCode a microStepId) ;;
      modify (set_recordMicroCodeAddress (Some (a + 1)))
  | _, _ => ret tt
  end.

(** [startRecording()].  The two arguments are the contents of the input
    fields: the number [toNumberStrict] makes of the start address ([None]
    when it is not a finite number) and the text of the name field. *)
Definition startRecording (recordStartAddressInput : option Z)
    (recordInstructionNameInput : string) : M Sim bool :=
  try_catch
    (match recordStartAddressInput with
     | None => throw JsTypeError
     | Some a =>
         modify (set_recordMicroCodeAddress (Some a)) ;;
         if (a <? 0) || (a >? MICROCODE_SIZE - 10)
         then throw RecordStartOutOfBounds
         else if negb (Z.rem a 10 =? 0)
         then throw RecordStartNotMultipleOf10
         else
           let instructionName := trim recordInstructionNameInput in
           if Z.of_nat (String.length instructionName) =? 0
           then throw RecordNameEmpty
           else if Z.of_nat (String.length instructionName) >? 5
           then throw RecordNameTooLong
           else
             let opcode := Z.quot a 10 in
             on_project (setInstructionName opcode instructionName) ;;
             ret true
     end)
    (fun _ =>
       alert RecordingErrorAlert ;;
       modify (set_isRecording false) ;;
       modify (set_recordMicroCodeAddress None) ;;
       ret false).

(** [toggleRecording()] (buttons.js) *)
Definition toggleRecording (recordStartAddressInput : option Z)
    (recordInstructionNameInput : string) : M Sim unit :=
  modify (fun s => set_isRecording (negb (isRecording s)) s) ;;
  recording <- gets isRecording ;;
  if recording
  then _ <- startRecording recordStartAddressInput recordInstructionNameInput ;;
       ret tt
  else modify (set_recordMicroCodeAddress None).

(** ** Micro-instructions and stepping (microstep.js, macrostep) *)

Definition stopMacroProgram : M Sim unit := modify (set_isMacroRunning false).

Definition dbToRamStep : M Sim unit :=
  ab <- gets addressBus ;;
  db <- gets dataBus ;;
  writeToRam ab (Some db) ;;
  modify (fun s => set_lastAccessedRamAddress (Some (addressBus s)) s).

Definition ramToDbStep : M Sim unit :=
  ab <- gets addressBus ;;
  word <- on_project (getRam ab) ;;
  writeToDataBus word ;;
  modify (fun s => set_lastAccessedRamAddress (Some (addressBus s)) s).

Definition dbToInsStep : M Sim unit :=
  db <- gets dataBus ;;
  writeToInstructionRegister (Some db).

Definition insToAbStep : M Sim unit :=
  ir <- gets instructionRegister ;;
  writeToAddressBus (Some (getDataLow ir)).

Definition insToMcStep : M Sim unit :=
  ir <- gets instructionRegister ;;
  let microcodeAddress := getDataHigh ir in
  writeToMicroCodeCounter (Some (microcodeAddress * 10)) ;;
  modify (fun s => set_selectedRamAddress (programCounter s) s).

Definition nullMcStep : M Sim unit := writeToMicroCodeCounter (Some 0).

Definition pcToAbStep : M Sim unit :=
  pc <- gets programCounter ;;
  writeToAddressBus (Some pc).

Definition incPcStep : M Sim unit :=
  pc <- gets programCounter ;;
  writeToProgramCounter (Some (pc + 1)).

Definition incPcIfAccZeroStep : M Sim unit :=
  acc <- gets accumulator ;;
  if acc =? 0 then incPcStep else ret tt.

Definition insToPcStep : M Sim unit :=
  ir <- gets instructionRegister ;;
  writeToProgramCounter (Some (getDataLow ir)).

Definition nullAccStep : M Sim unit := writeToAccumulator (Some 0).

Definition addAccStep : M Sim unit :=
  acc <- gets accumulator ;;
  db <- gets dataBus ;;
  writeToAccumulator (Some (acc + db)).

Definition subAccStep : M Sim unit :=
  acc <- gets accumulator ;;
  db <- gets dataBus ;;
  writeToAccumulator (Some (acc - db)).

Definition accToDbStep : M Sim unit :=
  acc <- gets accumulator ;;
  writeToDataBus (Some acc).

Definition incAccStep : M Sim unit :=
  acc <- gets accumulator ;;
  writeToAccumulator (Some (acc + 1)).

Definition decAccStep : M Sim unit :=
  acc <- gets accumulator ;;
  writeToAccumulator (Some (acc - 1)).

Definition dbToAccStep : M Sim unit :=
  db <- gets dataBus ;;
  writeToAccumulator (Some db).

(** The alert of [stopStep] is deferred by a zero timeout; it is logged
    at once here. *)
Definition stopStep : M Sim unit :=
  modify (set_isHlt true) ;;
  alert ProgramStoppedAlert.

Record MicroInstruction : Type := mkMicroInstruction {
  exec : M Sim unit;
  increment : bool
}.

(** The dispatch table; [None] is the [undefined] of a missing key. *)
Definition MICRO_INSTRUCTIONS (id : option Z) : option MicroInstruction :=
  match id with
  | Some 1 => Some (mkMicroInstruction dbToRamStep true)
  | Some 2 => Some (mkMicroInstruction ramToDbStep true)
  | Some 3 => Some (mkMicroInstruction dbToInsStep true)
  | Some 4 => Some (mkMicroInstruction insToAbStep true)
  | Some 5 => Some (mkMicroInstruction insToMcStep false)
  | Some 7 => Some (mkMicroInstruction nullMcStep false)
  | Some 8 => Some (mkMicroInstruction pcToAbStep true)
  | Some 9 => Some (mkMicroInstruction incPcStep true)
  | Some 10 => Some (mkMicroInstruction incPcIfAccZeroStep true)
  | Some 11 => Some (mkMicroInstruction insToPcStep true)
  | Some 12 => Some (mkMicroInstruction nullAccStep true)
  | Some 13 => Some (mkMicroInstruction addAccStep true)
  | Some 14 => Some (mkMicroInstruction subAccStep true)
  | Some 15 => Some (mkMicroInstruction accToDbStep true)
  | Some 16 => Some (mkMicroInstruction incAccStep true)
  | Some 17 => Some (mkMicroInstruction decAccStep true)
  | Some 18 => Some (mkMicroInstruction dbToAccStep true)
  | Some 19 => Some (mkMicroInstruction stopStep false)
  | Some 0 => Some (mkMicroInstruction (ret tt) false)
  | _ => None
  end.

Definition executeMicroInstruction (id : option Z) (isManual : bool) : M Sim unit :=
  match MICRO_INSTRUCTIONS id with
  | None =>
      (* Handle invalid micro-instruction ID *)
      modify (set_isHlt true) ;;
      stopMacroProgram ;;
      mc <- gets microCodeCounter ;;
      alert (UnknownMicroInstructionAlert id mc)
  | Some microStep =>
      exec microStep ;;
      recording <- gets isRecording ;;
      when (recording && isManual) (recordMicroStep id) ;;
      when (increment microStep && negb isManual)
        (mc <- gets microCodeCounter ;; writeToMicroCodeCounter (Some (mc + 1)))
  end.

Definition is_id (n : Z) (id : option Z) : bool :=
  match id with
  | Some m => m =? n
  | None => false
  end.

Definition microStep : M Sim unit :=
  halted <- gets isHlt ;;
  if halted then ret tt
  else
    mc <- gets microCodeCounter ;;
    id <- on_project (getMicroCode mc) ;;
    ir <- gets instructionRegister ;;
    if is_id 5 id && (getDataHigh ir =? 0)
    then
      pc <- gets programCounter ;;
      alert (FetchErrorAlert pc) ;;
      modify (set_isHlt true) ;;
      stopMacroProgram
    else if is_id 0 id
    then
      alert (MicrocodeZeroAlert mc) ;;
      modify (set_isHlt true) ;;
      stopMacroProgram
    else executeMicroInstruction id false.

Definition manualMicroStep (id : Z) : M Sim unit :=
  executeMicroInstruction (Some id) true.

(** [singleMacroStep]: [do { microStep(false) } while (microCodeCounter != 0
    && !isHlt)].  The loop has no bound of its own; [fuel] counts the
    iterations allowed, and [None] means that the loop is still running
    when they are used up. *)
Fixpoint singleMacroStep (fuel : nat) (s : Sim) : option (Res unit * Sim) :=
  match fuel with
  | O => None
  | S fuel' =>
      match microStep s with
      | (Throw e, s') => Some (Throw e, s')
      | (Ok _, s') =>
          if negb (microCodeCounter s' =? 0) && negb (isHlt s')
          then singleMacroStep fuel' s'
          else Some (Ok tt, s')
      end
  end.

(** One tick of the timer loop started by [runMacroProgram]. *)
Definition runMacroProgram_step (fuel : nat) (s : Sim) : option (Res unit * Sim) :=
  if negb (isMacroRunning s) then Some (Ok tt, s)
  else if isHlt s then Some (Ok tt, set_isMacroRunning false s)
  else singleMacroStep fuel s.

Definition runMacroProgram (fuel : nat) (s : Sim) : option (Res unit * Sim) :=
  if isHlt s then Some (Ok tt, s)
  else if isMacroRunning s then Some (Ok tt, s)
  else runMacroProgram_step fuel (set_isMacroRunning true s).

Definition resetSimulator : M Sim unit :=
  stopMacroProgram ;;
  modify (set_isHlt false) ;;
  writeToAddressBus (Some 0) ;;
  writeToDataBus (Some 0) ;;
  writeToInstructionRegister (Some 0) ;;
  writeToMicroCodeCounter (Some 0) ;;
  writeToAccumulator (Some 0) ;;
  writeToProgramCounter (Some 0) ;;
  modify (set_selectedRamAddress 0) ;;
  modify (set_lastAccessedRamAddress None).

(** ** Editing RAM rows (ram-table.js) *)

(** A slot that reads [undefined] gives [NaN] for both fields, so neither
    comparison of the source holds and the address is skipped. *)
Definition fixOperandAfterRamShift (startAddress delta : Z) : M Sim unit :=
  enabled <- gets fixRamAfterShift ;;
  if negb enabled then ret tt
  else
    for_loop (Z.to_nat RAM_SIZE) 0 1 (fun address =>
      data <- on_project (getRam address) ;;
      match data with
      | None => ret tt
      | Some data =>
          let opcode := getDataHigh data in
          let operand := getDataLow data in
          if (opcode =? 0) || (opcode =? 10) then ret tt
          else if operand >=? startAddress
          then on_project (setRam address (Some (opcode * 1000 + (operand + delta))))
          else ret tt
      end).

Definition insertRamRowAbove : M Sim unit :=
  lastUsedAddress <- gets (fun s => getLastUsedRamAddress (project s)) ;;
  if lastUsedAddress =? -1 then ret tt
  else if lastUsedAddress >=? RAM_SIZE - 1 then alert RamFullAlert
  else
    selected <- gets selectedRamAddress ;;
    (* for (let i = lastUsedAddress + 1; i > selectedRamAddress; i--) *)
    for_loop (Z.to_nat (lastUsedAddress + 1 - selected)) (lastUsedAddress + 1) (-1)
      (fun i =>
         word <- on_project (getRam (i - 1)) ;;
         on_project (setRam i word)) ;;
    on_project (setRam selected (Some 0)) ;;
    fixOperandAfterRamShift selected 1.

Definition deleteRamRow : M Sim unit :=
  lastUsedAddress <- gets (fun s => getLastUsedRamAddress (project s)) ;;
  if lastUsedAddress =? -1 then ret tt
  else
    selected <- gets selectedRamAddress ;;
    (* for (let i = selectedRamAddress; i < lastUsedAddress; i++) *)
    for_loop (Z.to_nat (lastUsedAddress - selected)) selected 1
      (fun i =>
         word <- on_project (getRam (i + 1)) ;;
         on_project (setRam i word)) ;;
    on_project (setRam lastUsedAddress (Some 0)) ;;
    fixOperandAfterRamShift selected (-1).

(** ** The older copy of the RAM editor, on a plain global array

    The repository also ships an earlier build of the scripts in which
    [ram] is a global array written directly, without the project class. *)
Module Legacy.

Record Sim : Type := mkSim {
  ram : list Z;
  selectedRamAddress : Z;
  fixRamAfterShift : bool
}.

Definition RAM_SIZE : Z := 1000.
Definition MICROCODE_SIZE : Z := 200.
Definition RAM_MAX_VALUE : Z := MICROCODE_SIZE * 100 - 1.

Definition getDataHigh (data : Z) : Z := Z.quot data RAM_SIZE.
Definition getDataLow (data : Z) : Z := Z.rem data RAM_SIZE.

(** [while (lastUsedAddress >= 0 && ram[lastUsedAddress] === 0)
    lastUsedAddress--], from [ram.length - 1]. *)
Fixpoint last_used_from (n : nat) (r : list Z) : Z :=
  match n with
  | O => -1
  | S i =>
      match r !! i with
      | Some 0 => last_used_from i r
      | _ => Z.of_nat i
      end
  end.

Definition getLastUsedRamAddress (r : list Z) : Z :=
  last_used_from (length r) r.

(** [ram[i] = ram[j]].  Every use below has both indices inside the
    array, where an array write is an in-place update. *)
Definition copy_word (i j : Z) (r : list Z) : list Z :=
  match r !! Z.to_nat j with
  | Some w => <[Z.to_nat i := w]> r
  | None => r
  end.

(** [for (i; n times; i += step) ram[i] = ram[i + step]]: with [step = -1]
    rows move down ([ram[i] = ram[i - 1]]), with [step = 1] they move up. *)
Fixpoint shift_loop (n : nat) (i step : Z) (r : list Z) : list Z :=
  match n with
  | O => r
  | S n' => shift_loop n' (i + step) step (copy_word i (i + step) r)
  end.

Definition fix_word (address : nat) (startAddress delta : Z) (r : list Z)
  : list Z :=
  match r !! address with
  | None => r
  | Some data =>
      let opcode := getDataHigh data in
      let operand := getDataLow data in
      if (opcode =? 0) || (opcode =? 10) then r
      else if operand >=? startAddress
      then <[address := opcode * 1000 + (operand + delta)]> r
      else r
  end.

Fixpoint fix_loop (n address : nat) (startAddress delta : Z) (r : list Z)
  : list Z :=
  match n with
  | O => r
  | S n' => fix_loop n' (S address) startAddress delta
              (fix_word address startAddress delta r)
  end.

Definition fixOperandAfterRamShift (enabled : bool) (startAddress delta : Z)
    (r : list Z) : list Z :=
  if negb enabled then r
  else fix_loop (length r) 0 startAddress delta r.

Definition set_ram (r : list Z) (s : Sim) : Sim :=
  mkSim r (selectedRamAddress s) (fixRamAfterShift s).

(** The "RAM is full" alert is the only other effect and is not kept. *)
Definition insertRamRowAbove (s : Sim) : Sim :=
  let lastUsedAddress := getLastUsedRamAddress (ram s) in
  if lastUsedAddress =? -1 then s
  else if lastUsedAddress >=? Z.of_nat (length (ram s)) - 1 then s
  else
    let selected := selectedRamAddress s in
    let r1 := shift_loop (Z.to_nat (lastUsedAddress + 1 - selected))
                (lastUsedAddress + 1) (-1) (ram s) in
    let r2 := <[Z.to_nat selected := 0]> r1 in
    set_ram (fixOperandAfterRamShift (fixRamAfterShift s) selected 1 r2) s.

Definition deleteRamRow (s : Sim) : Sim :=
  let lastUsedAddress := getLastUsedRamAddress (ram s) in
  if lastUsedAddress =? -1 then s
  else
    let selected := selectedRamAddress s in
    let r1 := shift_loop (Z.to_nat (lastUsedAddress - selected))
                selected 1 (ram s) in
    let r2 := <[Z.to_nat lastUsedAddress := 0]> r1 in
    set_ram (fixOperandAfterRamShift (fixRamAfterShift s) selected (-1) r2) s.

(** Writing a word by hand ([writeToRam] of buttons.js, older copy): the
    address and the value are clamped first.  [normalizeInt] is given on a
    finite number. *)
Definition clamp (value min max : Z) : Z := Z.min (Z.max value min) max.

Definition normalizeInt (value min max : Z) : Z := clamp value min max.

Definition writeToRam (address value : Z) (r : list Z) : list Z :=
  <[Z.to_nat (normalizeInt address 0 (RAM_SIZE - 1))
    := normalizeInt value 0 RAM_MAX_VALUE]> r.

End Legacy.

(** ** The older copy of the stepping functions (unnamed/part_005)

    The older build reads the global arrays [ram] and [microCode], which
    the fields of [project] stand for here.  Its step functions are those
    of microstep.js except the two that touch the RAM; its [microStep] has
    neither the FETCH check nor the check of entry 0, and its
    [executeMicroInstruction] does not record.  Its [normalizeInt] agrees
    with the newer one on a finite number and lets the [TypeError] of
    [toNumberStrict] through on anything else. *)
Module Older.

(** [array[index]]: [undefined] outside the array. *)
Definition read (array : list Z) (index : Z) : option Z :=
  if index <? 0 then None else array !! Z.to_nat index.

(** [writeToRam(addressBus, dataBus)] assigns [ram[address] = value] after
    clamping both; the clamped address lies inside the array of
    [RAM_SIZE] words, where an array write is an in-place update. *)
Definition dbToRamStep : M Sim unit :=
  ab <- gets addressBus ;;
  db <- gets dataBus ;;
  modify (fun s =>
    set_project (set_ram (Legacy.writeToRam ab db (ram (project s))) (project s)) s) ;;
  modify (fun s => set_lastAccessedRamAddress (Some (addressBus s)) s).

(** [writeToDataBus(ram[addressBus])] *)
Definition ramToDbStep : M Sim unit :=
  ab <- gets addressBus ;;
  r <- gets (fun s => ram (project s)) ;;
  match read r ab with
  | Some word => writeToDataBus (Some word)
  | None => throw JsTypeError
  end ;;
  modify (fun s => set_lastAccessedRamAddress (Some (addressBus s)) s).

Definition MICRO_INSTRUCTIONS (id : option Z) : option MicroInstruction :=
  match id with
  | Some 1 => Some (mkMicroInstruction dbToRamStep true)
  | Some 2 => Some (mkMicroInstruction ramToDbStep true)
  | Some 3 => Some (mkMicroInstruction dbToInsStep true)
  | Some 4 => Some (mkMicroInstruction insToAbStep true)
  | Some 5 => Some (mkMicroInstruction insToMcStep false)
  | Some 7 => Some (mkMicroInstruction nullMcStep false)
  | Some 8 => Some (mkMicroInstruction pcToAbStep true)
  | Some 9 => Some (mkMicroInstruction incPcStep true)
  | Some 10 => Some (mkMicroInstruction incPcIfAccZeroStep true)
  | Some 11 => Some (mkMicroInstruction insToPcStep true)
  | Some 12 => Some (mkMicroInstruction nullAccStep true)
  | Some 13 => Some (mkMicroInstruction addAccStep true)
  | Some 14 => Some (mkMicroInstruction subAccStep true)
  | Some 15 => Some (mkMicroInstruction accToDbStep true)
  | Some 16 => Some (mkMicroInstruction incAccStep true)
  | Some 17 => Some (mkMicroInstruction decAccStep true)
  | Some 18 => Some (mkMicroInstruction dbToAccStep true)
  | Some 19 => Some (mkMicroInstruction stopStep false)
  | Some 0 => Some (mkMicroInstruction (ret tt) false)
  | _ => None
  end.

Definition executeMicroInstruction (id : option Z) (isManual : bool) : M Sim unit :=
  match MICRO_INSTRUCTIONS id with
  | None =>
      (* Handle invalid micro-instruction ID *)
      modify (set_isHlt true) ;;
      stopMacroProgram ;;
      mc <- gets microCodeCounter ;;
      alert (UnknownMicroInstructionAlert id mc)
  | Some microStep =>
      exec microStep ;;
      when (increment microStep && negb isManual)
        (mc <- gets microCodeCounter ;; writeToMicroCodeCounter (Some (mc + 1)))
  end.

(** [const id = Number(microCode[microCodeCounter])], then the dispatch. *)
Definition microStep : M Sim unit :=
  halted <- gets isHlt ;;
  if halted then ret tt
  else
    mc <- gets microCodeCounter ;;
    code <- gets (fun s => microCode (project s)) ;;
    executeMicroInstruction (read code mc) false.

Definition manualMicroStep (id : Z) : M Sim unit :=
  executeMicroInstruction (Some id) true.

(** The same loop as in the newer build, over the older [microStep]. *)
Fixpoint singleMacroStep (fuel : nat) (s : Sim) : option (Res unit * Sim) :=
  match fuel with
  | O => None
  | S fuel' =>
      match microStep s with
      | (Throw e, s') => Some (Throw e, s')
      | (Ok _, s') =>
          if negb (microCodeCounter s' =? 0) && negb (isHlt s')
          then singleMacroStep fuel' s'
          else Some (Ok tt, s')
      end
  end.

End Older.

(** *** The legacy line format of RAM files (class JohnnyProject)

    [importLegacyRam(fileContent)].  The argument stands for the lines
    left after comments and blank lines are dropped, each given by what
    [Number(line)] makes of it: [None] when that is not an integer. *)
Fixpoint importLegacyRam_loop (i : Z) (lines : list (option Z))
  : M JohnnyProject unit :=
  match lines with
  | [] => ret tt
  | line :: rest =>
      if i <? RAM_SIZE
      then
        match line with
        | Some value =>
            if (value <? 0) || (value >? MAX_RAM_VALUE)
            then setRam i (Some 0)
            else setRam i (Some value)
        | None => setRam i (Some 0)
        end ;;
        importLegacyRam_loop (i + 1) rest
      else ret tt
  end.

Definition importLegacyRam (lines : list (option Z)) : M JohnnyProject unit :=
  try_catch (initRam ;; importLegacyRam_loop 0 lines) (fun _ => ret tt).

(** ** Manual inputs and file handlers (buttons.js)

    An input field is given by the number [toNumberStrict] makes of its
    text, [None] when that is not a finite number. *)

Definition manualAddressBus (input : option Z) : M Sim unit :=
  try_catch
    (match input with
     | None => throw JsTypeError
     | Some inputAddress =>
         if (inputAddress <? 0) || (inputAddress >=? RAM_SIZE)
         then throw JsRangeError
         else writeToAddressBus (Some inputAddress)
     end)
    (fun _ => alert InputErrorAlert).

Definition manualDataBus (input : option Z) : M Sim unit :=
  try_catch
    (match input with
     | None => throw JsTypeError
     | Some inputData =>
         if (inputData <? 0) || (inputData >? MAX_RAM_VALUE)
         then throw JsRangeError
         else writeToDataBus (Some inputData)
     end)
    (fun _ => alert InputErrorAlert).

Definition manualRamInput (input : option Z) : M Sim unit :=
  try_catch
    (match input with
     | None => throw JsTypeError
     | Some inputData =>
         if (inputData <? 0) || (inputData >? MAX_RAM_VALUE)
         then throw JsRangeError
         else
           selected <- gets selectedRamAddress ;;
           writeToRam selected (Some inputData) ;;
           modify (fun s =>
             set_selectedRamAddress (Z.rem (selectedRamAddress s + 1) RAM_SIZE) s)
     end)
    (fun _ => alert InputErrorAlert).

Definition uploadRamAsFile (lines : list (option Z)) : M Sim unit :=
  try_catch
    (on_project (importLegacyRam lines) ;; resetSimulator)
    (fun _ => alert ImportErrorAlert).

Definition uploadProjectFromFile (parsed : option JsVal) : M Sim unit :=
  try_catch
    (_ <- on_project (import parsed) ;; resetSimulator)
    (fun _ => alert ImportErrorAlert).

Definition resetRamToEmpty : M Sim unit := on_project resetRam.

Definition resetMicrocodeToDefault : M Sim unit := on_project resetMicroCode.

(** ** What a user can do to the simulator

    The handlers above, one constructor each.  [OpSelectRamRow] is the
    click on a RAM row, [OpSetting] the fix-up check box of the settings
    dialog.  Editing the microcode by other means (the edit dialog, the
    legacy microcode file) is covered by [OpReplaceMicroCode], which puts
    any microcode and any name table in place. *)
Inductive Op : Type :=
| OpMicroStep
| OpMacroStep (fuel : nat)
| OpManualMicroStep (id : Z)
| OpSelectRamRow (address : Z)
| OpManualRamInput (input : option Z)
| OpManualAddressBus (input : option Z)
| OpManualDataBus (input : option Z)
| OpInsertRamRowAbove
| OpDeleteRamRow
| OpToggleRecording (startAddress : option Z) (name : string)
| OpResetSimulator
| OpResetRam
| OpResetMicroCode
| OpUploadProject (parsed : option JsVal)
| OpUploadRam (lines : list (option Z))
| OpSetting (fixRamAfterShift : bool)
| OpReplaceMicroCode (mc : list Z) (names : gmap string JsVal).

(** The state a handler leaves, whether it returns or throws; [None] when
    a macro step is still running after [fuel] iterations. *)
Definition run_op (op : Op) (s : Sim) : option Sim :=
  match op with
  | OpMicroStep => Some (snd (microStep s))
  | OpMacroStep fuel => option_map snd (singleMacroStep fuel s)
  | OpManualMicroStep id => Some (snd (manualMicroStep id s))
  | OpSelectRamRow address =>
      if (address <? 0) || (address >=? RAM_SIZE) then None
      else Some (set_selectedRamAddress address s)
  | OpManualRamInput input => Some (snd (manualRamInput input s))
  | OpManualAddressBus input => Some (snd (manualAddressBus input s))
  | OpManualDataBus input => Some (snd (manualDataBus input s))
  | OpInsertRamRowAbove => Some (snd (insertRamRowAbove s))
  | OpDeleteRamRow => Some (snd (deleteRamRow s))
  | OpToggleRecording a name => Some (snd (toggleRecording a name s))
  | OpResetSimulator => Some (snd (resetSimulator s))
  | OpResetRam => Some (snd (resetRamToEmpty s))
  | OpResetMicroCode => Some (snd (resetMicrocodeToDefault s))
  | OpUploadProject parsed => Some (snd (uploadProjectFromFile parsed s))
  | OpUploadRam lines => Some (snd (uploadRamAsFile lines s))
  | OpSetting b => Some (set_fixRamAfterShift b s)
  | OpReplaceMicroCode mc names =>
      Some (set_project
              (set_instructionNames names (set_microCode mc (project s))) s)
  end.

Inductive reachable : Sim -> Prop :=
| reachable_init : reachable init_sim
| reachable_step (s s' : Sim) (op : Op) :
    reachable s -> run_op op s = Some s' -> reachable s'.

(** The declared ranges. *)
Definition word_ok (w : Z) : Prop := 0 <= w <= MAX_RAM_VALUE.

Definition ram_ok (p : JohnnyProject) : Prop := Forall word_ok (ram p).

Definition in_bounds (s : Sim) : Prop :=
  ram_ok (project s)
  /\ 0 <= addressBus s < RAM_SIZE
  /\ 0 <= programCounter s < RAM_SIZE
  /\ word_ok (dataBus s)
  /\ word_ok (accumulator s)
  /\ word_ok (instructionRegister s)
  /\ 0 <= microCodeCounter s < MICROCODE_SIZE.

(** A computation keeps [I] when the state it leaves, returning or
    throwing, satisfies [I] whenever the state it starts from does. *)
Definition preserves {St A : Type} (I : St -> Prop) (m : M St A) : Prop :=
  forall s, I s -> I (snd (m s)).

(** ** Sample inputs used by the statements below *)

(** A snapshot whose RAM is fine and whose microcode holds the reserved
    value 6. *)
Definition snapshot_bad_microCode : JsVal :=
  JObj [("ram", JArr [JNum 1]);
        ("microCode", JArr [JNum 6]);
        ("instructionNames", JObj [])]%string.

(** The simulator about to dispatch the last step of FETCH (slot 3 holds
    id 5) with an all-zero instruction register, during a continuous run. *)
Definition sim_at_fetch_dispatch : Sim :=
  mkSim init_project 0 0 0 0 0 3 0 (Some 0%Z) false true false None true [].

(** The simulator standing on slot 4 of the default microcode, which holds
    the placeholder 0, during a continuous run. *)
Definition sim_at_zero_slot : Sim :=
  mkSim init_project 0 0 0 0 0 4 0 None false true false None true [].

(** The simulator after the first three steps of FETCH have loaded the
    word 1005 (TAKE 5) into the instruction register. *)
Definition sim_take_fetched : Sim :=
  mkSim (set_ram (<[0%nat := 1005]> initRam_value) init_project)
    0 1005 0 0 1005 3 0 (Some 0%Z) false false false None true [].

(** A reset simulator whose first RAM word has opcode 11, an opcode
    without microcode, and the state in which the fetch of that word
    ends: the counter on slot 110, which holds the placeholder 0. *)
Definition sim_opcode_11 : Sim :=
  set_project (set_ram (<[0%nat := 11000]> initRam_value) init_project) init_sim.

Definition sim_opcode_11_fetched : Sim :=
  mkSim (set_ram (<[0%nat := 11000]> initRam_value) init_project)
    0 11000 0 0 11000 110 0 (Some 0%Z) false false false None true [].



(** [k] iterations of the loop of [singleMacroStep], each of which leaves
    the loop condition true. *)
Fixpoint loop_iterations (k : nat) (s : Sim) : option Sim :=
  match k with
  | O => Some s
  | S k' =>
      match microStep s with
      | (Ok _, s1) =>
          if negb (microCodeCounter s1 =? 0) && negb (isHlt s1)
          then loop_iterations k' s1
          else None
      | (Throw _, _) => None
      end
  end.





(** RAM holding three words, the middle row selected, fix-up off. *)
Definition sim_three_words : Sim :=
  set_fixRamAfterShift false
    (set_selectedRamAddress 1
       (set_project
          (set_ram (<[2%nat := 7]> (<[1%nat := 2006]> (<[0%nat := 1005]> initRam_value)))
             init_project)
          init_sim)).


(** RAM holding the largest word 19999 at address 0, row 1 selected,
    fix-up on: in the older copy and in the current one. *)
Definition legacy_sim_max_word : Legacy.Sim :=
  Legacy.mkSim (<[0%nat := 19999]> initRam_value) 1 true.

Definition sim_max_word : Sim :=
  set_selectedRamAddress 1
    (set_project (set_ram (<[0%nat := 19999]> initRam_value) init_project) init_sim).

Arguments normalizeInt : simpl never.
Arguments clamp : simpl never.
Arguments getDataHigh : simpl never.
Arguments getDataLow : simpl never.
Arguments key_of : simpl never.
Arguments trim : simpl never.
Arguments initRam_value : simpl never.
Arguments initMicroCode_value : simpl never.
Arguments initInstructionNames_value : simpl never.

(** ** Saving a project (class JohnnyProject) *)

(** [#trimTrailingZeros(array)].  The scan for the last index whose entry
    is not 0 is the one of [getLastUsedRamAddress], started at
    [array.length - 1]; [array.slice(0, k)] keeps the first [k] entries. *)
Definition trimTrailingZeros (array : list Z) : list Z :=
  let lastNonZeroIndex := last_used_from (length array) array in
  take (Z.to_nat (lastNonZeroIndex + 1)) array.

(** [#toJSON()]: the snapshot object.  The name table is listed property
    by property. *)
Definition toJSON (p : JohnnyProject) : JsVal :=
  JObj [("ram", JArr (JNum <$> trimTrailingZeros (ram p)));
        ("microCode", JArr (JNum <$> trimTrailingZeros (microCode p)));
        ("instructionNames", JObj (map_to_list (instructionNames p)))]%string.

(** The class invariant: the sizes and the value ranges that the setters
    and the import check. *)
Definition microCode_value_ok (v : Z) : Prop := 0 <= v <= 19 /\ v <> 6.

Definition project_ok (p : JohnnyProject) : Prop :=
  length (ram p) = Z.to_nat RAM_SIZE
  /\ Forall word_ok (ram p)
  /\ length (microCode p) = Z.to_nat MICROCODE_SIZE
  /\ Forall microCode_value_ok (microCode p).

(** [exportLegacyRam()]: one line per RAM word, holding its decimal form.
    The text is given by its lines, as [importLegacyRam] reads them: the
    decimal form of an integer word is never empty and [Number] reads it
    back as that integer. *)
Definition exportLegacyRam (p : JohnnyProject) : list (option Z) :=
  Some <$> ram p.

(** [importLegacyMicroCode(fileContent)].  The argument stands for the
    lines left after comments and blank lines are dropped: the text of
    each line and what [Number(line)] makes of it, [None] when that is not
    an integer. *)
Definition importLegacyMicroCode (lines : list (string * option Z))
  : M JohnnyProject unit :=
  try_catch
    (if Z.of_nat (length lines) <? MICROCODE_SIZE then ret tt
     else
       initMicroCode ;;
       (* Import microcode values *)
       for_loop (Z.to_nat MICROCODE_SIZE) 0 1 (fun i =>
         match lines !! Z.to_nat i with
         | Some (_, Some value) =>
             if (value <? 0) || (value >? 19) || (value =? 6)
             then setMicroCode i (Some 0)
             else setMicroCode i (Some value)
         | _ => setMicroCode i (Some 0)
         end) ;;
       (* Import instruction names (macro instructions) *)
       for_loop (length lines - Z.to_nat MICROCODE_SIZE) MICROCODE_SIZE 1 (fun i =>
         match lines !! Z.to_nat i with
         | Some (line, _) =>
             if String.eqb line "" then ret tt
             else modify (fun p =>
                    set_instructionNames
                      (<[key_of (i - MICROCODE_SIZE) := JStr line]>
                         (instructionNames p)) p)
         | None => ret tt
         end))
    (fun _ => ret tt).

(** The word and the micro-instruction id that the legacy imports keep of
    a line: its number when that is valid, 0 otherwise. *)
Definition legacy_ram_value (line : option Z) : Z :=
  match line with
  | Some value => if (value <? 0) || (value >? MAX_RAM_VALUE) then 0 else value
  | None => 0
  end.

Definition legacy_microCode_value (line : option Z) : Z :=
  match line with
  | Some value => if (value <? 0) || (value >? 19) || (value =? 6) then 0 else value
  | None => 0
  end.

(** The public methods of the class that change the project. *)
Inductive Call : Type :=
| CallSetRam (address : Z) (value : option Z)
| CallResetRam
| CallSetMicroCode (address : Z) (value : option Z)
| CallResetMicroCode
| CallSetInstructionName (opCode : Z) (name : string)
| CallImport (parsed : option JsVal)
| CallImportLegacyRam (lines : list (option Z))
| CallImportLegacyMicroCode (lines : list (string * option Z)).

(** The project a call leaves, whether it returns or throws. *)
Definition run_call (p : JohnnyProject) (c : Call) : JohnnyProject :=
  match c with
  | CallSetRam address value => snd (setRam address value p)
  | CallResetRam => snd (resetRam p)
  | CallSetMicroCode address value => snd (setMicroCode address value p)
  | CallResetMicroCode => snd (resetMicroCode p)
  | CallSetInstructionName opCode name => snd (setInstructionName opCode name p)
  | CallImport parsed => snd (import parsed p)
  | CallImportLegacyRam lines => snd (importLegacyRam lines p)
  | CallImportLegacyMicroCode lines => snd (importLegacyMicroCode lines p)
  end.


(** A project with three words in RAM, and a snapshot of it. *)
Definition project_three_words : JohnnyProject := project sim_three_words.

(** ** States used to describe macro instructions *)

(** A machine about to fetch: not halted, at micro counter 0, running the
    default microcode on a RAM of [RAM_SIZE] words, within bounds. *)
Definition ready (s : Sim) : Prop :=
  isHlt s = false
  /\ microCodeCounter s = 0
  /\ microCode (project s) = initMicroCode_value
  /\ length (ram (project s)) = Z.to_nat RAM_SIZE
  /\ in_bounds s.

(** The state after a macro step that leaves the RAM as it is: the bus,
    register and marker values it ends with, the counter back at 0. *)
Definition after_instruction (s : Sim) (ab db acc pc ir : Z)
    (lastAccessed : option Z) : Sim :=
  mkSim (project s) ab db acc pc ir 0 (programCounter s) lastAccessed
    false (isMacroRunning s) (isRecording s) (recordMicroCodeAddress s)
    (fixRamAfterShift s) (alerts s).

(** The instruction word of an opcode and an operand. *)
Definition instruction_word (opcode operand : Z) : Z := opcode * 1000 + operand.

(** A reset machine with accumulator 19995 whose RAM holds the word [w]
    at address 0 and the number 7 at address 5. *)
Definition sim_at_word (w : Z) : Sim :=
  set_accumulator 19995
    (set_project
       (set_ram (<[5%nat := 7]> (<[0%nat := w]> initRam_value)) init_project)
       init_sim).

(** ** The operand fix-up, word by word *)

(** What the loop body of [fixOperandAfterRamShift] assigns to an address
    that holds [data] (the word itself where the body moves on). *)
Definition fixed_word (startAddress delta data : Z) : Z :=
  let opcode := getDataHigh data in
  let operand := getDataLow data in
  if (opcode =? 0) || (opcode =? 10) then data
  else if operand >=? startAddress then opcode * 1000 + (operand + delta)
  else data.







(** The RAM has its fixed size. *)
Definition ram_sized (p : JohnnyProject) : Prop :=
  length (ram p) = Z.to_nat RAM_SIZE.

(** The RAM has its fixed size and the selected row and the program
    counter point into it. *)
Definition addressable (s : Sim) : Prop :=
  ram_sized (project s)
  /\ 0 <= selectedRamAddress s < RAM_SIZE
  /\ 0 <= programCounter s < RAM_SIZE.

(* ================================================================== *)
(** * Properties *)
(* ================================================================== *)

(** ** Boolean guards *)

Lemma range_guard_false (a n : Z) :
  0 <= a < n -> (a <? 0) || (a >=? n) = false.
Proof.
  intros H. rewrite Z.geb_leb.
  destruct (Z.ltb_spec a 0); destruct (Z.leb_spec n a); simpl; try lia; reflexivity.
Qed.

Lemma range_guard_true (a n : Z) :
  ~ (0 <= a < n) -> (a <? 0) || (a >=? n) = true.
Proof.
  intros H. rewrite Z.geb_leb.
  destruct (Z.ltb_spec a 0); destruct (Z.leb_spec n a); simpl; try lia; reflexivity.
Qed.

Lemma value_guard_false (v m : Z) :
  0 <= v <= m -> (v <? 0) || (v >? m) = false.
Proof.
  intros H. rewrite Z.gtb_ltb.
  destruct (Z.ltb_spec v 0); destruct (Z.ltb_spec m v); simpl; try lia; reflexivity.
Qed.

Lemma value_guard_true (v m : Z) :
  ~ (0 <= v <= m) -> (v <? 0) || (v >? m) = true.
Proof.
  intros H. rewrite Z.gtb_ltb.
  destruct (Z.ltb_spec v 0); destruct (Z.ltb_spec m v); simpl; try lia; reflexivity.
Qed.

(** ** Memory reads and writes *)

Lemma setRam_ok (p : JohnnyProject) (address v : Z) :
  0 <= address < RAM_SIZE -> 0 <= v <= MAX_RAM_VALUE ->
  setRam address (Some v) p
  = (Ok tt, set_ram (<[Z.to_nat address := v]> (ram p)) p).
Proof.
  intros Ha Hv. unfold setRam.
  rewrite (range_guard_false _ _ Ha), (value_guard_false _ _ Hv). reflexivity.
Qed.

Lemma getRam_ok (p : JohnnyProject) (address : Z) :
  0 <= address < RAM_SIZE ->
  getRam address p = (Ok (ram p !! Z.to_nat address), p).
Proof.
  intros Ha. unfold getRam. rewrite (range_guard_false _ _ Ha). reflexivity.
Qed.

Lemma setRam_bad_address (p : JohnnyProject) (address : Z) (value : option Z) :
  ~ (0 <= address < RAM_SIZE) ->
  setRam address value p = (Throw (RamAddressOutOfBounds address), p).
Proof.
  intros Ha. unfold setRam. rewrite (range_guard_true _ _ Ha). reflexivity.
Qed.

Lemma setRam_bad_value (p : JohnnyProject) (address v : Z) :
  0 <= address < RAM_SIZE -> ~ (0 <= v <= MAX_RAM_VALUE) ->
  setRam address (Some v) p = (Throw (RamValueOutOfBounds v), p).
Proof.
  intros Ha Hv. unfold setRam.
  rewrite (range_guard_false _ _ Ha), (value_guard_true _ _ Hv). reflexivity.
Qed.

(** C8.  On a memory of [RAM_SIZE] words: writing a value within
    [0, MAX_RAM_VALUE] at an address within [0, RAM_SIZE) succeeds and the
    address then reads that value; a write whose value or whose address is
    out of range throws the matching error and leaves the project as it
    was. *)
Theorem setRam_then_getRam (p : JohnnyProject) (address v : Z) :
  length (ram p) = Z.to_nat RAM_SIZE ->
  (0 <= address < RAM_SIZE -> 0 <= v <= MAX_RAM_VALUE ->
   exists p',
     setRam address (Some v) p = (Ok tt, p')
     /\ getRam address p' = (Ok (Some v), p'))
  /\ (0 <= address < RAM_SIZE -> ~ (0 <= v <= MAX_RAM_VALUE) ->
      setRam address (Some v) p = (Throw (RamValueOutOfBounds v), p))
  /\ (~ (0 <= address < RAM_SIZE) ->
      setRam address (Some v) p = (Throw (RamAddressOutOfBounds address), p)).
Proof.
  intros Hlen. split; [|split].
  - intros Ha Hv. eexists. split; [apply setRam_ok; assumption|].
    rewrite getRam_ok by assumption. simpl.
    rewrite list_lookup_insert_eq; [reflexivity|].
    rewrite Hlen. unfold RAM_SIZE in *. lia.
  - intros Ha Hv. apply setRam_bad_value; assumption.
  - intros Ha. apply setRam_bad_address; assumption.
Qed.

Lemma setRam_then_getRam_witness :
  length (ram init_project) = Z.to_nat RAM_SIZE
  /\ 0 <= 5 < RAM_SIZE /\ 0 <= 42 <= MAX_RAM_VALUE
  /\ exists p',
       setRam 5 (Some 42) init_project = (Ok tt, p')
       /\ getRam 5 p' = (Ok (Some 42), p').
Proof.
  assert (Hlen : length (ram init_project) = Z.to_nat RAM_SIZE) by reflexivity.
  assert (Ha : 0 <= 5 < RAM_SIZE) by (unfold RAM_SIZE; lia).
  assert (Hv : 0 <= 42 <= MAX_RAM_VALUE) by (vm_compute; split; discriminate).
  split; [exact Hlen|]. split; [exact Ha|]. split; [exact Hv|].
  exact (proj1 (setRam_then_getRam init_project 5 42 Hlen) Ha Hv).
Defined.

(** ** Snapshot import *)

(** C1.  Importing a snapshot whose RAM is valid and whose microcode is
    not: the import reports the microcode error, yet the RAM of the
    project has already been replaced by the snapshot's. *)
Theorem import_bad_microCode_replaces_ram :
  let r := import (Some snapshot_bad_microCode) init_project in
  fst r = Ok (Some InvalidMicroCodeValues)
  /\ ram (snd r) !! 0%nat = Some 1
  /\ ram init_project !! 0%nat = Some 0
  /\ ram (snd r) <> ram init_project
  /\ microCode (snd r) = microCode init_project.
Proof.
  vm_compute. repeat split; discriminate.
Qed.

(** ** Stepping *)

Ltac unfold_monad :=
  unfold bind, gets, modify, ret, throw, when, try_catch, on_project, alert in *.

Lemma singleMacroStep_S (fuel : nat) (s : Sim) :
  singleMacroStep (S fuel) s
  = match microStep s with
    | (Throw e, s') => Some (Throw e, s')
    | (Ok _, s') =>
        if negb (microCodeCounter s' =? 0) && negb (isHlt s')
        then singleMacroStep fuel s'
        else Some (Ok tt, s')
    end.
Proof. reflexivity. Qed.

Lemma singleMacroStep_stops (fuel : nat) (s s' : Sim) :
  microStep s = (Ok tt, s') ->
  microCodeCounter s' = 0 \/ isHlt s' = true ->
  singleMacroStep (S fuel) s = Some (Ok tt, s').
Proof.
  intros Hstep Hstop. rewrite singleMacroStep_S, Hstep.
  destruct Hstop as [H|H]; rewrite H; [reflexivity|].
  rewrite andb_false_r. reflexivity.
Qed.

Lemma microStep_dispatch_5_opcode_0 (s : Sim) :
  isHlt s = false ->
  0 <= microCodeCounter s < MICROCODE_SIZE ->
  microCode (project s) !! Z.to_nat (microCodeCounter s) = Some 5 ->
  getDataHigh (instructionRegister s) = 0 ->
  microStep s
  = (Ok tt, set_isMacroRunning false
              (set_isHlt true
                 (set_alerts (FetchErrorAlert (programCounter s) :: alerts s) s))).
Proof.
  intros Hh Hmc Hid Hop.
  destruct s as [p ab db acc pc ir mc sel la h run rec cur fx al]; simpl in *.
  subst h. unfold microStep, getMicroCode. unfold_monad. simpl.
  rewrite (range_guard_false _ _ Hmc). simpl. rewrite Hid. simpl.
  rewrite Hop. simpl. reflexivity.
Qed.

Lemma singleMacroStep_zero_memory (s : Sim) (fuel : nat) :
  isHlt s = false -> microCodeCounter s = 0 -> programCounter s = 0 ->
  ram (project s) = initRam_value ->
  microCode (project s) = initMicroCode_value ->
  (4 <= fuel)%nat ->
  exists s',
    singleMacroStep fuel s = Some (Ok tt, s')
    /\ isHlt s' = true /\ isMacroRunning s' = false
    /\ alerts s' = FetchErrorAlert 0 :: alerts s
    /\ instructionRegister s' = 0 /\ microCodeCounter s' = 3
    /\ project s' = project s.
Proof.
  intros Hh Hmc Hpc Hram Hmcode Hfuel.
  destruct s as [[r m ns] ab db acc pc ir mc sel la h run rec cur fx al].
  cbn [isHlt microCodeCounter programCounter ram microCode project alerts] in *.
  subst.
  destruct fuel as [|[|[|[|n]]]]; try lia.
  destruct rec.
  all: eexists; (split; [ vm_compute; reflexivity | ]).
  all: cbn; repeat split; reflexivity.
Qed.

(** C2.  A machine that is not halted and whose active microcode entry is
    id 5 while the opcode field of the instruction register is 0 halts:
    [microStep] sets [isHlt], clears [isMacroRunning], raises the FETCH
    error alert and changes nothing else.  In particular, from micro
    counter 0 and program counter 0 with the default microcode and an
    all-zero RAM, one macro step (four micro steps) ends halted with that
    alert. *)
Theorem microStep_fetch_fault (s : Sim) :
  isHlt s = false ->
  (0 <= microCodeCounter s < MICROCODE_SIZE ->
   microCode (project s) !! Z.to_nat (microCodeCounter s) = Some 5 ->
   getDataHigh (instructionRegister s) = 0 ->
   microStep s
   = (Ok tt, set_isMacroRunning false
               (set_isHlt true
                  (set_alerts (FetchErrorAlert (programCounter s) :: alerts s) s))))
  /\ (microCodeCounter s = 0 -> programCounter s = 0 ->
      ram (project s) = initRam_value ->
      microCode (project s) = initMicroCode_value ->
      forall fuel, (4 <= fuel)%nat ->
      exists s',
        singleMacroStep fuel s = Some (Ok tt, s')
        /\ isHlt s' = true /\ isMacroRunning s' = false
        /\ alerts s' = FetchErrorAlert 0 :: alerts s
        /\ instructionRegister s' = 0 /\ microCodeCounter s' = 3
        /\ project s' = project s).
Proof.
  intros Hh. split.
  - intros. apply microStep_dispatch_5_opcode_0; assumption.
  - intros Hmc Hpc Hram Hmcode fuel Hfuel.
    apply singleMacroStep_zero_memory; assumption.
Qed.

Lemma microStep_fetch_fault_witness :
  (isHlt sim_at_fetch_dispatch = false
   /\ 0 <= microCodeCounter sim_at_fetch_dispatch < MICROCODE_SIZE
   /\ microCode (project sim_at_fetch_dispatch)
        !! Z.to_nat (microCodeCounter sim_at_fetch_dispatch) = Some 5
   /\ getDataHigh (instructionRegister sim_at_fetch_dispatch) = 0
   /\ isHlt (snd (microStep sim_at_fetch_dispatch)) = true
   /\ isMacroRunning (snd (microStep sim_at_fetch_dispatch)) = false)
  /\ (isHlt init_sim = false
      /\ exists s', singleMacroStep 4 init_sim = Some (Ok tt, s')
                    /\ isHlt s' = true).
Proof.
  split.
  - assert (H1 : isHlt sim_at_fetch_dispatch = false) by reflexivity.
    assert (H2 : 0 <= microCodeCounter sim_at_fetch_dispatch < MICROCODE_SIZE)
      by (vm_compute; split; [discriminate | reflexivity]).
    assert (H3 : microCode (project sim_at_fetch_dispatch)
                   !! Z.to_nat (microCodeCounter sim_at_fetch_dispatch) = Some 5)
      by reflexivity.
    assert (H4 : getDataHigh (instructionRegister sim_at_fetch_dispatch) = 0)
      by reflexivity.
    repeat (split; [assumption|]).
    rewrite (proj1 (microStep_fetch_fault sim_at_fetch_dispatch H1) H2 H3 H4).
    split; reflexivity.
  - assert (H1 : isHlt init_sim = false) by reflexivity.
    split; [exact H1|].
    destruct (proj2 (microStep_fetch_fault init_sim H1)
                eq_refl eq_refl eq_refl eq_refl 4%nat (le_n 4))
      as (s' & Hrun & Hhalt & _).
    exists s'. split; assumption.
Defined.

Lemma microStep_dispatch_0 (s : Sim) :
  isHlt s = false ->
  0 <= microCodeCounter s < MICROCODE_SIZE ->
  microCode (project s) !! Z.to_nat (microCodeCounter s) = Some 0 ->
  microStep s
  = (Ok tt, set_isMacroRunning false
              (set_isHlt true
                 (set_alerts (MicrocodeZeroAlert (microCodeCounter s) :: alerts s) s))).
Proof.
  intros Hh Hmc Hid.
  destruct s as [p ab db acc pc ir mc sel la h run rec cur fx al]; simpl in *.
  subst h. unfold microStep, getMicroCode. unfold_monad. simpl.
  rewrite (range_guard_false _ _ Hmc). simpl. rewrite Hid. simpl. reflexivity.
Qed.

(** What running entry 0 of the dispatch table would do: nothing. *)
Lemma executeMicroInstruction_0_is_a_no_op (s : Sim) :
  executeMicroInstruction (Some 0) false s = (Ok tt, s).
Proof.
  destruct s as [p ab db acc pc ir mc sel la h run rec cur fx al].
  destruct rec; reflexivity.
Qed.

(** In the current copy a machine that is not halted and whose active
    microcode entry is 0 does not run it as a no-op: [microStep] sets
    [isHlt], clears [isMacroRunning], raises the microcode error alert and
    changes nothing else; a macro step started there ends after that
    single micro step. *)
Theorem microStep_zero_entry_halts (s : Sim) :
  isHlt s = false ->
  0 <= microCodeCounter s < MICROCODE_SIZE ->
  microCode (project s) !! Z.to_nat (microCodeCounter s) = Some 0 ->
  let halted :=
    set_isMacroRunning false
      (set_isHlt true
         (set_alerts (MicrocodeZeroAlert (microCodeCounter s) :: alerts s) s)) in
  microStep s = (Ok tt, halted)
  /\ isHlt halted = true
  /\ isMacroRunning halted = false
  /\ forall fuel, singleMacroStep (S fuel) s = Some (Ok tt, halted).
Proof.
  intros Hh Hmc Hid halted.
  pose proof (microStep_dispatch_0 s Hh Hmc Hid) as Hstep.
  fold halted in Hstep.
  split; [exact Hstep|]. split; [reflexivity|]. split; [reflexivity|].
  intros fuel. apply singleMacroStep_stops; [exact Hstep|].
  right. reflexivity.
Qed.

Lemma microStep_zero_entry_halts_witness :
  isHlt sim_at_zero_slot = false
  /\ 0 <= microCodeCounter sim_at_zero_slot < MICROCODE_SIZE
  /\ microCode (project sim_at_zero_slot)
       !! Z.to_nat (microCodeCounter sim_at_zero_slot) = Some 0
  /\ isHlt (snd (microStep sim_at_zero_slot)) = true
  /\ isMacroRunning (snd (microStep sim_at_zero_slot)) = false.
Proof.
  assert (H1 : isHlt sim_at_zero_slot = false) by reflexivity.
  assert (H2 : 0 <= microCodeCounter sim_at_zero_slot < MICROCODE_SIZE)
    by (vm_compute; split; [discriminate | reflexivity]).
  assert (H3 : microCode (project sim_at_zero_slot)
                 !! Z.to_nat (microCodeCounter sim_at_zero_slot) = Some 0)
    by reflexivity.
  repeat (split; [assumption|]).
  rewrite (proj1 (microStep_zero_entry_halts sim_at_zero_slot H1 H2 H3)).
  split; reflexivity.
Defined.

(** *** Entry 0 in the older copy *)

Lemma older_singleMacroStep_S (fuel : nat) (s : Sim) :
  Older.singleMacroStep (S fuel) s
  = match Older.microStep s with
    | (Throw e, s') => Some (Throw e, s')
    | (Ok _, s') =>
        if negb (microCodeCounter s' =? 0) && negb (isHlt s')
        then Older.singleMacroStep fuel s'
        else Some (Ok tt, s')
    end.
Proof. reflexivity. Qed.

(** The older [microStep] has no check of its own: on entry 0 it runs
    entry 0 of the dispatch table, which does nothing and does not move
    the counter. *)
Lemma older_microStep_zero_entry (s : Sim) :
  isHlt s = false ->
  Older.read (microCode (project s)) (microCodeCounter s) = Some 0 ->
  Older.microStep s = (Ok tt, s).
Proof.
  intros Hh Hid.
  destruct s as [p ab db acc pc ir mc sel la h run rec cur fx al].
  cbn [isHlt microCodeCounter project] in *. subst h.
  unfold Older.microStep, bind, gets.
  cbn [isHlt microCodeCounter project]. rewrite Hid. reflexivity.
Qed.

Lemma older_singleMacroStep_stuck (s : Sim) :
  Older.microStep s = (Ok tt, s) -> microCodeCounter s <> 0 -> isHlt s = false ->
  forall fuel, Older.singleMacroStep fuel s = None.
Proof.
  intros Hstep Hmc Hh fuel. induction fuel as [|fuel IH]; [reflexivity|].
  rewrite older_singleMacroStep_S, Hstep, Hh.
  apply Z.eqb_neq in Hmc. rewrite Hmc. exact IH.
Qed.

Lemma older_singleMacroStep_next (fuel : nat) (s s' : Sim) :
  Older.microStep s = (Ok tt, s') ->
  negb (microCodeCounter s' =? 0) && negb (isHlt s') = true ->
  Older.singleMacroStep (S fuel) s = Older.singleMacroStep fuel s'.
Proof.
  intros Hstep Hgo. rewrite older_singleMacroStep_S, Hstep, Hgo. reflexivity.
Qed.

(** C3.  The older copy of [microStep] runs an active entry 0 as a no-op.
    From a reset machine with the default microcode whose first RAM word
    is 11000 (opcode 11, which has no microcode), four micro steps fetch
    the word and put the counter on slot 110, which holds 0.  There the
    machine is not halted, a further micro step changes nothing at all
    -- no halt, no alert, the run flag untouched -- and the loop of
    [singleMacroStep] never ends, from that state and from the reset
    machine.  The current copy halts in the same state. *)
Theorem older_microStep_runs_zero_entry :
  let s := sim_opcode_11_fetched in
  (exists s1 s2 s3,
      Older.microStep sim_opcode_11 = (Ok tt, s1)
      /\ Older.microStep s1 = (Ok tt, s2)
      /\ Older.microStep s2 = (Ok tt, s3)
      /\ Older.microStep s3 = (Ok tt, s))
  /\ isHlt s = false
  /\ Older.read (microCode (project s)) (microCodeCounter s) = Some 0
  /\ Older.microStep s = (Ok tt, s)
  /\ (forall fuel, Older.singleMacroStep fuel s = None)
  /\ (forall fuel, Older.singleMacroStep fuel sim_opcode_11 = None)
  /\ isHlt (snd (microStep s)) = true.
Proof.
  intros s.
  pose (s1 := snd (Older.microStep sim_opcode_11)).
  pose (s2 := snd (Older.microStep s1)).
  pose (s3 := snd (Older.microStep s2)).
  assert (E1 : Older.microStep sim_opcode_11 = (Ok tt, s1))
    by (vm_compute; reflexivity).
  assert (E2 : Older.microStep s1 = (Ok tt, s2)) by (vm_compute; reflexivity).
  assert (E3 : Older.microStep s2 = (Ok tt, s3)) by (vm_compute; reflexivity).
  assert (E4 : Older.microStep s3 = (Ok tt, s)) by (vm_compute; reflexivity).
  assert (Hh : isHlt s = false) by reflexivity.
  assert (Hid : Older.read (microCode (project s)) (microCodeCounter s) = Some 0)
    by reflexivity.
  pose proof (older_microStep_zero_entry s Hh Hid) as Hstep.
  assert (Hstuck : forall fuel, Older.singleMacroStep fuel s = None).
  { apply older_singleMacroStep_stuck; [exact Hstep|discriminate|exact Hh]. }
  split; [exists s1, s2, s3; repeat split; assumption|].
  split; [exact Hh|]. split; [exact Hid|]. split; [exact Hstep|].
  split; [exact Hstuck|]. split; [|reflexivity].
  intros fuel.
  destruct fuel as [|[|[|[|fuel]]]]; try (vm_compute; reflexivity).
  rewrite (older_singleMacroStep_next _ _ _ E1) by (vm_compute; reflexivity).
  rewrite (older_singleMacroStep_next _ _ _ E2) by (vm_compute; reflexivity).
  rewrite (older_singleMacroStep_next _ _ _ E3) by (vm_compute; reflexivity).
  rewrite (older_singleMacroStep_next _ _ _ E4) by (vm_compute; reflexivity).
  apply Hstuck.
Qed.

(** ** Manual steps *)

Lemma MICRO_INSTRUCTIONS_None (id : Z) :
  id < 0 \/ id = 6 \/ 19 < id -> MICRO_INSTRUCTIONS (Some id) = None.
Proof.
  intros H. destruct id as [|p|p]; [lia| |reflexivity].
  do 5 (destruct p as [p|p|]; try reflexivity; try lia).
Qed.

Ltac split_id id :=
  let H := fresh "Hid" in
  assert (H : id < 0 \/ id = 0 \/ id = 1 \/ id = 2 \/ id = 3 \/ id = 4
              \/ id = 5 \/ id = 6 \/ id = 7 \/ id = 8 \/ id = 9 \/ id = 10
              \/ id = 11 \/ id = 12 \/ id = 13 \/ id = 14 \/ id = 15
              \/ id = 16 \/ id = 17 \/ id = 18 \/ id = 19 \/ 19 < id) by lia;
  repeat (destruct H as [H|H]); try subst id.

Ltac destruct_matches :=
  repeat (simpl;
          match goal with
          | |- context [if ?b then _ else _] => destruct b eqn:?
          | |- context [match ?x with _ => _ end] => destruct x eqn:?
          end);
  simpl.

Lemma clamp_range (v lo hi : Z) : lo <= hi -> lo <= clamp v lo hi <= hi.
Proof. unfold clamp. lia. Qed.

Lemma clamp_id (v lo hi : Z) : lo <= v <= hi -> clamp v lo hi = v.
Proof. unfold clamp. lia. Qed.

Lemma normalizeInt_range (value : option Z) (hi : Z) :
  0 <= hi -> 0 <= normalizeInt value 0 hi <= hi.
Proof.
  intros H. unfold normalizeInt. destruct value; [apply clamp_range|]; lia.
Qed.

Lemma writeToRam_run (address : Z) (value : option Z) (s : Sim) :
  writeToRam address value s
  = (Ok tt,
     set_project
       (set_ram (<[Z.to_nat (normalizeInt (Some address) 0 (RAM_SIZE - 1))
                   := normalizeInt value 0 MAX_RAM_VALUE]> (ram (project s)))
          (project s)) s).
Proof.
  unfold writeToRam, on_project. rewrite setRam_ok; [reflexivity| |].
  - pose proof (normalizeInt_range (Some address) (RAM_SIZE - 1)).
    unfold RAM_SIZE in *. lia.
  - apply normalizeInt_range. vm_compute. discriminate.
Qed.

Lemma dbToRamStep_run (s : Sim) :
  dbToRamStep s
  = (Ok tt,
     set_lastAccessedRamAddress (Some (addressBus s))
       (set_project
          (set_ram (<[Z.to_nat (normalizeInt (Some (addressBus s)) 0 (RAM_SIZE - 1))
                      := normalizeInt (Some (dataBus s)) 0 MAX_RAM_VALUE]>
                      (ram (project s)))
             (project s)) s)).
Proof.
  unfold dbToRamStep. unfold bind, gets. rewrite writeToRam_run. reflexivity.
Qed.

Lemma recordMicroStep_keeps_counter (id : option Z) (s : Sim) :
  microCodeCounter (snd (recordMicroStep id s)) = microCodeCounter s.
Proof.
  unfold recordMicroStep. unfold_monad.
  destruct s as [p ab db acc pc ir mc sel la h run rec cur fx al].
  destruct_matches; reflexivity.
Qed.

Lemma exec_keeps_counter (id : Z) (mi : MicroInstruction) (s : Sim) :
  MICRO_INSTRUCTIONS (Some id) = Some mi -> id <> 5 -> id <> 7 ->
  microCodeCounter (snd (exec mi s)) = microCodeCounter s.
Proof.
  intros Hmi H5 H7. split_id id;
    try (rewrite MICRO_INSTRUCTIONS_None in Hmi by lia; discriminate);
    try congruence;
    simpl in Hmi; injection Hmi as <-; simpl.
  all: try reflexivity.
  all: try (rewrite dbToRamStep_run; reflexivity).
  all: destruct s as [p ab db acc pc ir mc sel la h run rec cur fx al].
  all: unfold ramToDbStep, dbToInsStep, insToAbStep, pcToAbStep, incPcStep,
         incPcIfAccZeroStep, insToPcStep, nullAccStep, addAccStep, subAccStep,
         accToDbStep, incAccStep, decAccStep, dbToAccStep, stopStep,
         writeToDataBus, writeToInstructionRegister, writeToAddressBus,
         writeToProgramCounter, writeToAccumulator, incPcStep.
  all: unfold_monad.
  all: destruct_matches; reflexivity.
Qed.

(** *** What a manual step does to the counter, in both copies *)

Lemma manualMicroStep_counter (id : Z) (mi : MicroInstruction) (s : Sim) :
  MICRO_INSTRUCTIONS (Some id) = Some mi ->
  microCodeCounter (snd (manualMicroStep id s))
  = microCodeCounter (snd (exec mi s)).
Proof.
  intros Hmi. unfold manualMicroStep, executeMicroInstruction. rewrite Hmi.
  unfold bind at 1. destruct (exec mi s) as [[[]|e] s1]; [|reflexivity].
  unfold bind at 1, gets at 1. rewrite andb_true_r, andb_false_r.
  unfold bind at 1.
  pose proof (recordMicroStep_keeps_counter (Some id) s1) as Hrec.
  unfold when at 1.
  destruct (isRecording s1); [|reflexivity].
  destruct (recordMicroStep (Some id) s1) as [[[]|e] s2]; exact Hrec.
Qed.

Lemma older_manualMicroStep_counter (id : Z) (mi : MicroInstruction) (s : Sim) :
  Older.MICRO_INSTRUCTIONS (Some id) = Some mi ->
  microCodeCounter (snd (Older.manualMicroStep id s))
  = microCodeCounter (snd (exec mi s)).
Proof.
  intros Hmi. unfold Older.manualMicroStep, Older.executeMicroInstruction.
  rewrite Hmi. unfold bind at 1.
  destruct (exec mi s) as [[[]|e] s1]; [|reflexivity].
  rewrite andb_false_r. reflexivity.
Qed.

Lemma older_MICRO_INSTRUCTIONS_None (id : Z) :
  id < 0 \/ id = 6 \/ 19 < id -> Older.MICRO_INSTRUCTIONS (Some id) = None.
Proof.
  intros H. destruct id as [|p|p]; [lia| |reflexivity].
  do 5 (destruct p as [p|p|]; try reflexivity; try lia).
Qed.

Lemma older_exec_keeps_counter (id : Z) (mi : MicroInstruction) (s : Sim) :
  Older.MICRO_INSTRUCTIONS (Some id) = Some mi -> id <> 5 -> id <> 7 ->
  microCodeCounter (snd (exec mi s)) = microCodeCounter s.
Proof.
  intros Hmi H5 H7.
  destruct (Z.eq_dec id 1) as [->|H1]; [|destruct (Z.eq_dec id 2) as [->|H2]].
  - injection Hmi as <-.
    destruct s as [p ab db acc pc ir mc sel la h run rec cur fx al].
    reflexivity.
  - injection Hmi as <-.
    destruct s as [p ab db acc pc ir mc sel la h run rec cur fx al].
    cbn [exec]. unfold Older.ramToDbStep, writeToDataBus. unfold_monad.
    cbn [addressBus project]. destruct (Older.read (ram p) ab); reflexivity.
  - apply (exec_keeps_counter id); [|assumption|assumption].
    rewrite <- Hmi. clear Hmi. split_id id; try congruence;
      try (rewrite MICRO_INSTRUCTIONS_None, older_MICRO_INSTRUCTIONS_None by lia;
           reflexivity);
      reflexivity.
Qed.

Lemma manual_unknown_keeps_counter (id : Z) (s : Sim) :
  (MICRO_INSTRUCTIONS (Some id) = None ->
   microCodeCounter (snd (manualMicroStep id s)) = microCodeCounter s)
  /\ (Older.MICRO_INSTRUCTIONS (Some id) = None ->
      microCodeCounter (snd (Older.manualMicroStep id s)) = microCodeCounter s).
Proof.
  split; intros Hmi.
  - unfold manualMicroStep, executeMicroInstruction. rewrite Hmi.
    destruct s; reflexivity.
  - unfold Older.manualMicroStep, Older.executeMicroInstruction. rewrite Hmi.
    destruct s; reflexivity.
Qed.

(** C7, as amended.  In both copies of the stepping functions and for
    every state: a manual step of an id other than 5 and 7 leaves the
    microcode counter as it was, whether the id is known or not, whether a
    recording is active or not, and whether the step completes or throws;
    a manual step of id 5 sets the counter to the opcode of the
    instruction register times 10, clamped to [0, MICROCODE_SIZE - 1]; a
    manual step of id 7 sets it to 0. *)
Theorem manualMicroStep_keeps_microCodeCounter (id : Z) (s : Sim) :
  let after := microCodeCounter (snd (manualMicroStep id s)) in
  let after_older := microCodeCounter (snd (Older.manualMicroStep id s)) in
  (id <> 5 -> id <> 7 ->
   after = microCodeCounter s /\ after_older = microCodeCounter s)
  /\ (id = 5 ->
      let target :=
        clamp (getDataHigh (instructionRegister s) * 10) 0 (MICROCODE_SIZE - 1) in
      after = target /\ after_older = target)
  /\ (id = 7 -> after = 0 /\ after_older = 0).
Proof.
  intros after after_older. subst after after_older. split; [|split].
  - intros H5 H7. split.
    + destruct (MICRO_INSTRUCTIONS (Some id)) as [mi|] eqn:Hmi.
      * rewrite (manualMicroStep_counter id mi s Hmi).
        exact (exec_keeps_counter id mi s Hmi H5 H7).
      * exact (proj1 (manual_unknown_keeps_counter id s) Hmi).
    + destruct (Older.MICRO_INSTRUCTIONS (Some id)) as [mi|] eqn:Hmi.
      * rewrite (older_manualMicroStep_counter id mi s Hmi).
        exact (older_exec_keeps_counter id mi s Hmi H5 H7).
      * exact (proj2 (manual_unknown_keeps_counter id s) Hmi).
  - intros -> target. subst target.
    rewrite (manualMicroStep_counter 5 _ s eq_refl).
    rewrite (older_manualMicroStep_counter 5 _ s eq_refl).
    destruct s; split; reflexivity.
  - intros ->.
    rewrite (manualMicroStep_counter 7 _ s eq_refl).
    rewrite (older_manualMicroStep_counter 7 _ s eq_refl).
    destruct s; split; reflexivity.
Qed.

Lemma manualMicroStep_keeps_microCodeCounter_witness :
  12 <> 5 /\ 12 <> 7
  /\ microCodeCounter (snd (manualMicroStep 12 sim_at_zero_slot))
     = microCodeCounter sim_at_zero_slot
  /\ microCodeCounter (snd (Older.manualMicroStep 12 sim_at_zero_slot))
     = microCodeCounter sim_at_zero_slot.
Proof.
  assert (H5 : 12 <> 5) by discriminate.
  assert (H7 : 12 <> 7) by discriminate.
  split; [exact H5|]. split; [exact H7|].
  exact (proj1 (manualMicroStep_keeps_microCodeCounter 12 sim_at_zero_slot) H5 H7).
Defined.

(** C7, as stated, fails for ids 5 and 7: a manual "mc := 0" on slot 4
    moves the counter to 0, and a manual "ins -> mc" with TAKE in the
    instruction register moves it from 3 to 10. *)
Lemma manualMicroStep_5_7_move_microCodeCounter :
  (microCodeCounter sim_at_zero_slot = 4
   /\ microCodeCounter (snd (manualMicroStep 7 sim_at_zero_slot)) = 0)
  /\ (microCodeCounter sim_take_fetched = 3
      /\ microCodeCounter (snd (manualMicroStep 5 sim_take_fetched)) = 10)
  /\ ~ (forall (id : Z) (s : Sim),
          microCodeCounter (snd (manualMicroStep id s)) = microCodeCounter s).
Proof.
  split; [|split].
  - vm_compute. split; reflexivity.
  - vm_compute. split; reflexivity.
  - intros H. specialize (H 7 sim_at_zero_slot). vm_compute in H. discriminate.
Qed.

(** ** Recording *)

Lemma setMicroCode_ok (p : JohnnyProject) (address v : Z) :
  0 <= address < MICROCODE_SIZE -> 0 <= v <= 19 -> v <> 6 ->
  setMicroCode address (Some v) p
  = (Ok tt, set_microCode (<[Z.to_nat address := v]> (microCode p)) p).
Proof.
  intros Ha Hv H6. unfold setMicroCode.
  rewrite (range_guard_false _ _ Ha), (value_guard_false _ _ Hv).
  destruct (Z.eqb_spec v 6); [contradiction|]. reflexivity.
Qed.





(** ** One automatic micro step, case by case *)

Lemma executeMicroInstruction_auto (id : option Z) (mi : MicroInstruction)
    (s : Sim) :
  MICRO_INSTRUCTIONS id = Some mi ->
  executeMicroInstruction id false s
  = match exec mi s with
    | (Ok _, s1) =>
        if increment mi
        then (Ok tt,
              set_microCodeCounter
                (normalizeInt (Some (microCodeCounter s1 + 1)) 0
                   (MICROCODE_SIZE - 1)) s1)
        else (Ok tt, s1)
    | (Throw e, s1) => (Throw e, s1)
    end.
Proof.
  intros Hmi. unfold executeMicroInstruction. rewrite Hmi.
  unfold bind at 1. destruct (exec mi s) as [[[]|e] s1]; [|reflexivity].
  unfold bind at 1, gets at 1. rewrite andb_false_r, andb_true_r.
  unfold when at 1, ret at 1, bind at 1. unfold when.
  destruct (increment mi); reflexivity.
Qed.




(** ** Termination of a macro step *)











(** ** The last used address *)

Lemma last_used_from_spec (n : nat) (r : list Z) :
  -1 <= last_used_from n r < Z.of_nat n
  /\ (forall i : nat,
        last_used_from n r < Z.of_nat i -> (i < n)%nat -> r !! i = Some 0)
  /\ (0 <= last_used_from n r ->
      r !! Z.to_nat (last_used_from n r) <> Some 0).
Proof.
  induction n as [|n (IHrange & IHabove & IHat)]; simpl.
  - split; [lia|]. split; [intros; lia|]. lia.
  - destruct (r !! n) as [w|] eqn:Hn.
    + destruct (Z.eq_dec w 0) as [->|Hw].
      * split; [lia|]. split; [|exact IHat].
        intros i Hi Hlt. destruct (decide (i = n)) as [->|]; [exact Hn|].
        apply IHabove; lia.
      * assert (Hl : match w with 0 => last_used_from n r | _ => Z.of_nat n end
                     = Z.of_nat n) by (destruct w; congruence).
        rewrite Hl. split; [lia|]. split; [intros; lia|].
        intros _. rewrite Nat2Z.id, Hn. congruence.
    + split; [lia|]. split; [intros; lia|].
      intros _. rewrite Nat2Z.id, Hn. discriminate.
Qed.



(** ** Shifting rows *)





Lemma fixOperandAfterRamShift_disabled (startAddress delta : Z) (s : Sim) :
  fixRamAfterShift s = false ->
  fixOperandAfterRamShift startAddress delta s = (Ok tt, s).
Proof.
  intros Hfix. unfold fixOperandAfterRamShift. unfold bind, gets.
  rewrite Hfix. reflexivity.
Qed.

Lemma sim_with_own_ram (s : Sim) :
  set_project (set_ram (ram (project s)) (project s)) s = s.
Proof. destruct s as [[r m ns] ab db acc pc ir mc sel la h run rec cur fx al]. reflexivity. Qed.

Lemma bind_gets {St A B : Type} (f : St -> A) (k : A -> M St B) (s : St) :
  (x <- gets f ;; k x) s = k (f s) s.
Proof. reflexivity. Qed.

Lemma bind_ok {St A B : Type} (m : M St A) (k : A -> M St B) (s s' : St) (a : A) :
  m s = (Ok a, s') -> (x <- m ;; k x) s = k a s'.
Proof. intros H. unfold bind. rewrite H. reflexivity. Qed.

Lemma setRam_zero_run (s0 : Sim) (r : list Z) (a : Z) :
  0 <= a < RAM_SIZE ->
  on_project (setRam a (Some 0)) (set_project (set_ram r (project s0)) s0)
  = (Ok tt, set_project (set_ram (<[Z.to_nat a := 0]> r) (project s0)) s0).
Proof.
  intros Ha. unfold on_project. simpl.
  rewrite setRam_ok; [reflexivity|exact Ha|vm_compute; split; discriminate].
Qed.



(** ** Inserting and deleting rows *)






Lemma deleteRamRow_past_last_used (s : Sim) :
  length (ram (project s)) = Z.to_nat RAM_SIZE ->
  fixRamAfterShift s = false ->
  getLastUsedRamAddress (project s) <> -1 ->
  getLastUsedRamAddress (project s) < selectedRamAddress s ->
  deleteRamRow s
  = (Ok tt,
     set_project
       (set_ram (<[Z.to_nat (getLastUsedRamAddress (project s)) := 0]>
                   (ram (project s)))
          (project s)) s).
Proof.
  intros Hlen Hfix Hlast Hsel.
  pose proof (last_used_from_spec (Z.to_nat RAM_SIZE) (ram (project s)))
    as (Hrange & _ & _).
  fold (getLastUsedRamAddress (project s)) in Hrange.
  set (last := getLastUsedRamAddress (project s)) in *.
  unfold deleteRamRow. rewrite bind_gets. fold last.
  destruct (Z.eqb_spec last (-1)) as [E|_]; [contradiction|].
  rewrite bind_gets.
  replace (Z.to_nat (last - selectedRamAddress s)) with 0%nat by lia.
  cbn [for_loop].
  rewrite (bind_ok _ _ s s tt) by reflexivity.
  rewrite <- (sim_with_own_ram s) at 1.
  rewrite (bind_ok _ _ _ _ _ (setRam_zero_run s (ram (project s)) last
             ltac:(unfold RAM_SIZE in *; lia))).
  apply fixOperandAfterRamShift_disabled. exact Hfix.
Qed.


(** ** Bounds of memory words in the older copy *)

(** C5.  In the older copy of the RAM editor the fix-up writes the
    rewritten word straight into the array: inserting a row above
    address 1 of a memory whose word 0 is 19999 leaves 20000 there, above
    [RAM_MAX_VALUE]. *)
Theorem legacy_fixup_exceeds_max_word :
  let s := legacy_sim_max_word in
  let in_range := fun w => (0 <=? w) && (w <=? Legacy.RAM_MAX_VALUE) in
  forallb in_range (Legacy.ram s) = true
  /\ Legacy.RAM_MAX_VALUE = 19999
  /\ Legacy.ram (Legacy.insertRamRowAbove s) !! 0%nat = Some 20000
  /\ forallb in_range (Legacy.ram (Legacy.insertRamRowAbove s)) = false.
Proof.
  vm_compute. repeat split.
Qed.

(** The current copy goes through [setRam], which rejects that write: the
    same edit throws and the word stays 19999. *)
Lemma fixup_rejects_out_of_range_word :
  let s := sim_max_word in
  fst (insertRamRowAbove s) = Throw (RamValueOutOfBounds 20000)
  /\ ram (project (snd (insertRamRowAbove s))) = ram (project s).
Proof.
  vm_compute. repeat split.
Qed.

(** ** Bounds of memory words and registers in the current copy *)

Section Preservation.
Context {St : Type} (I : St -> Prop).

Lemma preserves_ret {A : Type} (a : A) : preserves I (ret a).
Proof. intros s H. exact H. Qed.

Lemma preserves_throw {A : Type} (e : Err) : preserves I (@throw St A e).
Proof. intros s H. exact H. Qed.

Lemma preserves_gets {A : Type} (f : St -> A) : preserves I (gets f).
Proof. intros s H. exact H. Qed.

Lemma preserves_modify (f : St -> St) :
  (forall s, I s -> I (f s)) -> preserves I (modify f).
Proof. intros Hf s H. apply Hf. exact H. Qed.

Lemma preserves_bind {A B : Type} (m : M St A) (k : A -> M St B) :
  preserves I m -> (forall a, preserves I (k a)) -> preserves I (bind m k).
Proof.
  intros Hm Hk s H. unfold bind. specialize (Hm s H).
  destruct (m s) as [[a|e] s1]; simpl in *; [apply Hk|]; exact Hm.
Qed.

Lemma preserves_try_catch {A : Type} (m : M St A) (h : Err -> M St A) :
  preserves I m -> (forall e, preserves I (h e)) -> preserves I (try_catch m h).
Proof.
  intros Hm Hh s H. unfold try_catch. specialize (Hm s H).
  destruct (m s) as [[a|e] s1]; simpl in *; [|apply Hh]; exact Hm.
Qed.

Lemma preserves_when (b : bool) (m : M St unit) :
  preserves I m -> preserves I (when b m).
Proof. intros Hm. destruct b; [exact Hm|apply preserves_ret]. Qed.

Lemma preserves_for_loop (n : nat) (i step : Z) (body : Z -> M St unit) :
  (forall j, preserves I (body j)) -> preserves I (for_loop n i step body).
Proof.
  intros Hbody. revert i. induction n as [|n IH]; intros i; simpl.
  - apply preserves_ret.
  - apply preserves_bind; [apply Hbody|]. intros _. apply IH.
Qed.
End Preservation.

Ltac preserves_step :=
  first
    [ apply preserves_ret
    | apply preserves_throw
    | apply preserves_gets
    | apply preserves_when
    | apply preserves_for_loop; intros ?
    | apply preserves_try_catch; [|intros ?]
    | apply preserves_bind; [|intros ?]
    | match goal with
      | |- preserves _ (if ?b then _ else _) => destruct b
      | |- preserves _ (match ?x with _ => _ end) => destruct x
      end ].

(** *** The project store *)

Lemma word_ok_zero : word_ok 0.
Proof. vm_compute. split; discriminate. Qed.

Lemma setRam_preserves (address : Z) (value : option Z) :
  preserves ram_ok (setRam address value).
Proof.
  intros p H. unfold setRam.
  destruct ((address <? 0) || (address >=? RAM_SIZE)); [exact H|].
  destruct value as [v|]; [|exact H].
  destruct ((v <? 0) || (v >? MAX_RAM_VALUE)) eqn:Hv; [exact H|].
  simpl. apply Forall_insert; [exact H|].
  apply orb_false_iff in Hv as [H1 H2]. unfold word_ok.
  rewrite Z.gtb_ltb in H2. apply Z.ltb_ge in H1, H2. lia.
Qed.

Lemma getRam_preserves (address : Z) : preserves ram_ok (getRam address).
Proof. intros p H. unfold getRam. destruct (_ || _); exact H. Qed.

Lemma setMicroCode_preserves (address : Z) (value : option Z) :
  preserves ram_ok (setMicroCode address value).
Proof.
  intros p H. unfold setMicroCode.
  destruct ((address <? 0) || (address >=? MICROCODE_SIZE)); [exact H|].
  destruct value as [v|]; [|exact H].
  destruct ((v <? 0) || (v >? 19) || (v =? 6)); exact H.
Qed.

Lemma getMicroCode_preserves (address : Z) :
  preserves ram_ok (getMicroCode address).
Proof. intros p H. unfold getMicroCode. destruct (_ || _); exact H. Qed.

Lemma setInstructionName_preserves (opCode : Z) (name : string) :
  preserves ram_ok (setInstructionName opCode name).
Proof.
  intros p H. unfold setInstructionName.
  destruct (_ || _); [exact H|]. destruct (_ || _); exact H.
Qed.

Lemma initRam_preserves : preserves ram_ok initRam.
Proof.
  intros p _. simpl. unfold ram_ok. simpl.
  apply Forall_replicate. apply word_ok_zero.
Qed.

Lemma initMicroCode_preserves : preserves ram_ok initMicroCode.
Proof. intros p H. exact H. Qed.

Lemma valid_ram_values_ok (vals : list JsVal) :
  forallb is_ram_value vals = true -> Forall word_ok (omap number_of vals).
Proof.
  induction vals as [|v vals IH]; simpl; intros H; [constructor|].
  apply andb_true_iff in H as [Hv Hrest].
  destruct v; simpl in *; try discriminate.
  constructor; [|apply IH; exact Hrest].
  apply andb_true_iff in Hv as [H1 H2]. unfold word_ok.
  rewrite Z.geb_leb in H1. apply Z.leb_le in H1, H2. lia.
Qed.

Lemma get_prop_preserves {St : Type} (I : St -> Prop) (json : JsVal)
    (key : string) :
  preserves I (get_prop json key).
Proof. destruct json; simpl; first [apply preserves_ret | apply preserves_throw]. Qed.

Lemma fromJSON_preserves (json : JsVal) : preserves ram_ok (fromJSON json).
Proof.
  unfold fromJSON.
  apply preserves_bind; [apply get_prop_preserves|]. intros json_ram.
  apply preserves_bind.
  { destruct json_ram; try apply preserves_throw.
    destruct (_ && _) eqn:Hcheck; [|apply preserves_throw].
    apply preserves_modify. intros p _.
    apply andb_true_iff in Hcheck as [_ Hvals].
    apply valid_ram_values_ok. exact Hvals. }
  intros _. apply preserves_bind; [apply get_prop_preserves|]. intros json_mc.
  apply preserves_bind.
  { destruct json_mc; try apply preserves_throw.
    destruct (_ && _); [|apply preserves_throw].
    apply preserves_modify. intros p H. exact H. }
  intros _. apply preserves_bind; [apply get_prop_preserves|]. intros json_names.
  destruct json_names; try apply preserves_throw;
    apply preserves_modify; intros p H; exact H.
Qed.

Lemma import_preserves (parsed : option JsVal) :
  preserves ram_ok (import parsed).
Proof.
  unfold import. apply preserves_try_catch; [|intros e; apply preserves_ret].
  apply preserves_bind; [|intros _; apply preserves_ret].
  destruct parsed; [apply fromJSON_preserves|apply preserves_throw].
Qed.

Lemma importLegacyRam_preserves (lines : list (option Z)) :
  preserves ram_ok (importLegacyRam lines).
Proof.
  unfold importLegacyRam.
  apply preserves_try_catch; [|intros e; apply preserves_ret].
  apply preserves_bind; [apply initRam_preserves|]. intros _.
  generalize 0 as i. induction lines as [|line rest IH]; intros i; simpl.
  - apply preserves_ret.
  - destruct (i <? RAM_SIZE); [|apply preserves_ret].
    apply preserves_bind; [|intros _; apply IH].
    destruct line as [v|]; [destruct (_ || _)|]; apply setRam_preserves.
Qed.

(** *** Registers and micro-instructions *)

Lemma on_project_preserves {A : Type} (m : M JohnnyProject A) :
  preserves ram_ok m -> preserves in_bounds (on_project m).
Proof.
  intros Hm s (Hram & Hregs). unfold on_project, in_bounds. simpl.
  split; [apply Hm; exact Hram|exact Hregs].
Qed.

Lemma address_range (value : option Z) :
  0 <= normalizeInt value 0 (RAM_SIZE - 1) < RAM_SIZE.
Proof.
  pose proof (normalizeInt_range value (RAM_SIZE - 1)).
  unfold RAM_SIZE in *. lia.
Qed.

Lemma word_range (value : option Z) :
  word_ok (normalizeInt value 0 MAX_RAM_VALUE).
Proof. apply normalizeInt_range. vm_compute. discriminate. Qed.

Lemma counter_range (value : option Z) :
  0 <= normalizeInt value 0 (MICROCODE_SIZE - 1) < MICROCODE_SIZE.
Proof.
  pose proof (normalizeInt_range value (MICROCODE_SIZE - 1)).
  unfold MICROCODE_SIZE in *. lia.
Qed.

Lemma writeToAddressBus_preserves (value : option Z) :
  preserves in_bounds (writeToAddressBus value).
Proof.
  intros s H. pose proof (address_range value) as Hnew.
  unfold in_bounds, word_ok in *. simpl. tauto.
Qed.

Lemma writeToProgramCounter_preserves (value : option Z) :
  preserves in_bounds (writeToProgramCounter value).
Proof.
  intros s H. pose proof (address_range value) as Hnew.
  unfold in_bounds, word_ok in *. simpl. tauto.
Qed.

Lemma writeToDataBus_preserves (value : option Z) :
  preserves in_bounds (writeToDataBus value).
Proof.
  intros s H. pose proof (word_range value) as Hnew.
  unfold in_bounds, word_ok in *. simpl. tauto.
Qed.

Lemma writeToAccumulator_preserves (value : option Z) :
  preserves in_bounds (writeToAccumulator value).
Proof.
  intros s H. pose proof (word_range value) as Hnew.
  unfold in_bounds, word_ok in *. simpl. tauto.
Qed.

Lemma writeToInstructionRegister_preserves (value : option Z) :
  preserves in_bounds (writeToInstructionRegister value).
Proof.
  intros s H. pose proof (word_range value) as Hnew.
  unfold in_bounds, word_ok in *. simpl. tauto.
Qed.

Lemma writeToMicroCodeCounter_preserves (value : option Z) :
  preserves in_bounds (writeToMicroCodeCounter value).
Proof.
  intros s H. pose proof (counter_range value) as Hnew.
  unfold in_bounds, word_ok in *. simpl. tauto.
Qed.

Lemma writeToRam_preserves (address : Z) (value : option Z) :
  preserves in_bounds (writeToRam address value).
Proof. apply on_project_preserves. apply setRam_preserves. Qed.

Create HintDb bounds.

#[local] Hint Resolve
  setRam_preserves getRam_preserves setMicroCode_preserves
  getMicroCode_preserves setInstructionName_preserves initRam_preserves
  initMicroCode_preserves import_preserves importLegacyRam_preserves
  on_project_preserves writeToAddressBus_preserves
  writeToProgramCounter_preserves writeToDataBus_preserves
  writeToAccumulator_preserves writeToInstructionRegister_preserves
  writeToMicroCodeCounter_preserves writeToRam_preserves : bounds.

(** A change of a field that is neither a register nor the project. *)
Ltac preserves_frame :=
  apply preserves_modify;
  let s := fresh "s" in let H := fresh "H" in intros s H; exact H.

Ltac preserves_auto :=
  repeat first
    [ solve [auto with bounds]
    | preserves_step
    | solve [preserves_frame] ].

Lemma alert_preserves (a : Alert) : preserves in_bounds (alert a).
Proof. preserves_frame. Qed.

Lemma stopMacroProgram_preserves : preserves in_bounds stopMacroProgram.
Proof. preserves_frame. Qed.

#[local] Hint Resolve alert_preserves stopMacroProgram_preserves : bounds.

Lemma recordMicroStep_preserves (id : option Z) :
  preserves in_bounds (recordMicroStep id).
Proof. unfold recordMicroStep. preserves_auto. Qed.

Lemma exec_preserves (id : option Z) (mi : MicroInstruction) :
  MICRO_INSTRUCTIONS id = Some mi -> preserves in_bounds (exec mi).
Proof.
  intros Hmi. destruct id as [id|]; [|discriminate].
  split_id id;
    try (rewrite MICRO_INSTRUCTIONS_None in Hmi by lia; discriminate);
    simpl in Hmi; injection Hmi as <-; simpl.
  all: unfold dbToRamStep, ramToDbStep, dbToInsStep, insToAbStep, insToMcStep,
         nullMcStep, pcToAbStep, incPcStep, incPcIfAccZeroStep, insToPcStep,
         nullAccStep, addAccStep, subAccStep, accToDbStep, incAccStep,
         decAccStep, dbToAccStep, stopStep, incPcStep.
  all: preserves_auto.
Qed.

#[local] Hint Resolve recordMicroStep_preserves : bounds.

Lemma executeMicroInstruction_preserves (id : option Z) (isManual : bool) :
  preserves in_bounds (executeMicroInstruction id isManual).
Proof.
  unfold executeMicroInstruction.
  destruct (MICRO_INSTRUCTIONS id) as [mi|] eqn:Hmi.
  - apply preserves_bind; [exact (exec_preserves id mi Hmi)|]. intros _.
    preserves_auto.
  - preserves_auto.
Qed.

#[local] Hint Resolve executeMicroInstruction_preserves : bounds.

Lemma microStep_preserves : preserves in_bounds microStep.
Proof. unfold microStep. preserves_auto. Qed.

Lemma manualMicroStep_preserves (id : Z) :
  preserves in_bounds (manualMicroStep id).
Proof. unfold manualMicroStep. preserves_auto. Qed.

Lemma singleMacroStep_preserves (fuel : nat) :
  forall (s s' : Sim) (r : Res unit),
    in_bounds s -> singleMacroStep fuel s = Some (r, s') -> in_bounds s'.
Proof.
  induction fuel as [|fuel IH]; intros s s' r Hs Hrun; [discriminate|].
  rewrite singleMacroStep_S in Hrun.
  pose proof (microStep_preserves s Hs) as Hstep.
  destruct (microStep s) as [[[]|e] s1]; simpl in Hstep.
  - destruct (negb (microCodeCounter s1 =? 0) && negb (isHlt s1)).
    + exact (IH s1 s' r Hstep Hrun).
    + injection Hrun as _ <-. exact Hstep.
  - injection Hrun as _ <-. exact Hstep.
Qed.

(** *** The RAM editor, the recorder and the other handlers *)

Lemma fixOperandAfterRamShift_preserves (startAddress delta : Z) :
  preserves in_bounds (fixOperandAfterRamShift startAddress delta).
Proof. unfold fixOperandAfterRamShift. preserves_auto. Qed.

#[local] Hint Resolve fixOperandAfterRamShift_preserves : bounds.

Lemma insertRamRowAbove_preserves : preserves in_bounds insertRamRowAbove.
Proof. unfold insertRamRowAbove. preserves_auto. Qed.

Lemma deleteRamRow_preserves : preserves in_bounds deleteRamRow.
Proof. unfold deleteRamRow. preserves_auto. Qed.

Lemma startRecording_preserves (a : option Z) (name : string) :
  preserves in_bounds (startRecording a name).
Proof. unfold startRecording. preserves_auto. Qed.

#[local] Hint Resolve startRecording_preserves : bounds.

Lemma toggleRecording_preserves (a : option Z) (name : string) :
  preserves in_bounds (toggleRecording a name).
Proof. unfold toggleRecording. preserves_auto. Qed.

Lemma resetSimulator_preserves : preserves in_bounds resetSimulator.
Proof. unfold resetSimulator. preserves_auto. Qed.

#[local] Hint Resolve resetSimulator_preserves : bounds.

Lemma manualAddressBus_preserves (input : option Z) :
  preserves in_bounds (manualAddressBus input).
Proof. unfold manualAddressBus. preserves_auto. Qed.

Lemma manualDataBus_preserves (input : option Z) :
  preserves in_bounds (manualDataBus input).
Proof. unfold manualDataBus. preserves_auto. Qed.

Lemma manualRamInput_preserves (input : option Z) :
  preserves in_bounds (manualRamInput input).
Proof. unfold manualRamInput. preserves_auto. Qed.

Lemma uploadRamAsFile_preserves (lines : list (option Z)) :
  preserves in_bounds (uploadRamAsFile lines).
Proof. unfold uploadRamAsFile. preserves_auto. Qed.

Lemma uploadProjectFromFile_preserves (parsed : option JsVal) :
  preserves in_bounds (uploadProjectFromFile parsed).
Proof. unfold uploadProjectFromFile. preserves_auto. Qed.

Lemma init_sim_in_bounds : in_bounds init_sim.
Proof.
  unfold in_bounds, ram_ok. simpl. split.
  - apply Forall_replicate. apply word_ok_zero.
  - vm_compute. repeat split; discriminate.
Qed.

Lemma run_op_in_bounds (op : Op) (s s' : Sim) :
  in_bounds s -> run_op op s = Some s' -> in_bounds s'.
Proof.
  intros Hs Hrun. destruct op; cbn [run_op] in Hrun.
  - injection Hrun as <-. exact (microStep_preserves s Hs).
  - destruct (singleMacroStep fuel s) as [[r s1]|] eqn:Hmacro; [|discriminate].
    injection Hrun as <-. exact (singleMacroStep_preserves fuel s s1 r Hs Hmacro).
  - injection Hrun as <-. exact (manualMicroStep_preserves id s Hs).
  - destruct (_ || _); [discriminate|]. injection Hrun as <-. exact Hs.
  - injection Hrun as <-. exact (manualRamInput_preserves input s Hs).
  - injection Hrun as <-. exact (manualAddressBus_preserves input s Hs).
  - injection Hrun as <-. exact (manualDataBus_preserves input s Hs).
  - injection Hrun as <-. exact (insertRamRowAbove_preserves s Hs).
  - injection Hrun as <-. exact (deleteRamRow_preserves s Hs).
  - injection Hrun as <-. exact (toggleRecording_preserves startAddress name s Hs).
  - injection Hrun as <-. exact (resetSimulator_preserves s Hs).
  - injection Hrun as <-.
    exact (on_project_preserves resetRam initRam_preserves s Hs).
  - injection Hrun as <-.
    exact (on_project_preserves resetMicroCode initMicroCode_preserves s Hs).
  - injection Hrun as <-. exact (uploadProjectFromFile_preserves parsed s Hs).
  - injection Hrun as <-. exact (uploadRamAsFile_preserves lines s Hs).
  - injection Hrun as <-. exact Hs.
  - injection Hrun as <-. exact Hs.
Qed.

(** In the current copy every state reached from the initial one by the
    handlers of [Op] keeps every RAM word within [0, MAX_RAM_VALUE] and
    every register within its range, the operand fix-up included. *)
Lemma reachable_in_bounds (s : Sim) : reachable s -> in_bounds s.
Proof.
  induction 1 as [|s s' op _ IH Hrun].
  - apply init_sim_in_bounds.
  - exact (run_op_in_bounds op s s' IH Hrun).
Qed.

(** In the older copy a word written by hand is clamped, so that write
    keeps the words within bounds; only the fix-up writes unchecked. *)
Lemma legacy_writeToRam_in_bounds (address value : Z) (r : list Z) :
  Forall (fun w => 0 <= w <= Legacy.RAM_MAX_VALUE) r ->
  Forall (fun w => 0 <= w <= Legacy.RAM_MAX_VALUE)
    (Legacy.writeToRam address value r).
Proof.
  intros H. unfold Legacy.writeToRam. apply Forall_insert; [exact H|].
  unfold Legacy.normalizeInt, Legacy.clamp.
  assert (0 <= Legacy.RAM_MAX_VALUE) by (vm_compute; discriminate). lia.
Qed.

(* ================================================================== *)
(** * Further properties of the code *)
(* ================================================================== *)

(** ** Saving and loading a project *)

Lemma trailing_zeros (n : nat) (l : list Z) :
  length l = n ->
  drop (Z.to_nat (last_used_from n l + 1)) l
  = replicate (n - Z.to_nat (last_used_from n l + 1)) 0.
Proof.
  intros Hlen.
  destruct (last_used_from_spec n l) as (Hrange & Habove & _).
  apply list_eq. intros i. rewrite lookup_drop.
  destruct (decide (Z.to_nat (last_used_from n l + 1) + i < n)%nat) as [Hi|Hi].
  - rewrite Habove by lia. symmetry. apply lookup_replicate_2. lia.
  - rewrite lookup_ge_None_2 by lia. symmetry.
    apply lookup_ge_None_2. rewrite length_replicate. lia.
Qed.

Lemma pad_zeros_trimTrailingZeros (size : Z) (l : list Z) :
  length l = Z.to_nat size ->
  pad_zeros 0 size (trimTrailingZeros l) = l.
Proof.
  intros Hlen. unfold pad_zeros, trimTrailingZeros. cbv zeta.
  destruct (last_used_from_spec (length l) l) as (Hrange & _ & _).
  rewrite length_take, Nat.min_l by lia.
  transitivity (take (Z.to_nat (last_used_from (length l) l + 1)) l
                ++ drop (Z.to_nat (last_used_from (length l) l + 1)) l);
    [|apply take_drop].
  f_equal. rewrite <- Hlen. symmetry. apply trailing_zeros. reflexivity.
Qed.

Lemma pad_zeros_fmap {A B : Type} (f : A -> B) (zero : A) (size : Z) (l : list A) :
  pad_zeros (f zero) size (f <$> l) = f <$> pad_zeros zero size l.
Proof.
  unfold pad_zeros. rewrite fmap_app, fmap_replicate, length_fmap. reflexivity.
Qed.

Lemma omap_number_of (l : list Z) : omap number_of (JNum <$> l) = l.
Proof.
  induction l as [|x l IH]; [reflexivity|].
  rewrite fmap_cons. cbn. f_equal. exact IH.
Qed.

Lemma ram_values_valid (l : list Z) :
  Forall word_ok l -> forallb is_ram_value (JNum <$> l) = true.
Proof.
  induction 1 as [|x l Hx _ IH]; [reflexivity|].
  rewrite fmap_cons. cbn [forallb is_ram_value].
  rewrite IH, andb_true_r. unfold word_ok in Hx.
  rewrite Z.geb_leb. apply andb_true_iff. split; apply Z.leb_le; lia.
Qed.

Lemma microCode_values_valid (l : list Z) :
  Forall microCode_value_ok l -> forallb is_microCode_value (JNum <$> l) = true.
Proof.
  induction 1 as [|x l [Hx H6] _ IH]; [reflexivity|].
  rewrite fmap_cons. cbn [forallb is_microCode_value].
  rewrite IH, andb_true_r. rewrite Z.geb_leb.
  apply andb_true_iff. split; [apply andb_true_iff; split; apply Z.leb_le; lia|].
  apply negb_true_iff, Z.eqb_neq. exact H6.
Qed.

Lemma object_props_map_to_list (m : gmap string JsVal) :
  object_props (map_to_list m) = m.
Proof.
  unfold object_props. symmetry. apply list_to_map_flip.
  symmetry. apply reverse_Permutation.
Qed.

(** X1.  Reading back with [#fromJSON] the snapshot object that [#toJSON]
    builds restores the project, whatever project it is read into: the
    trailing zeros that [#trimTrailingZeros] drops from the RAM and the
    microcode are put back by the padding, and every value passes the
    checks. *)
Theorem fromJSON_toJSON (p q : JohnnyProject) :
  project_ok p -> fromJSON (toJSON p) q = (Ok tt, p).
Proof.
  intros (Hlen & Hram & Hmlen & Hmc).
  assert (Hr : pad_zeros (JNum 0) RAM_SIZE (JNum <$> trimTrailingZeros (ram p))
               = JNum <$> ram p).
  { rewrite pad_zeros_fmap, pad_zeros_trimTrailingZeros by exact Hlen. reflexivity. }
  assert (Hm : pad_zeros (JNum 0) MICROCODE_SIZE
                 (JNum <$> trimTrailingZeros (microCode p))
               = JNum <$> microCode p).
  { rewrite pad_zeros_fmap, pad_zeros_trimTrailingZeros by exact Hmlen. reflexivity. }
  unfold fromJSON, toJSON.
  unfold bind at 1. cbn [get_prop]. unfold ret at 1.
  change (default JUndefined (object_props _ !! "ram"%string))
    with (JArr (JNum <$> trimTrailingZeros (ram p))).
  unfold bind at 1. rewrite Hr, length_fmap, Hlen, Z2Nat.id by (vm_compute; discriminate).
  rewrite Z.eqb_refl, (ram_values_valid _ Hram). cbn [andb].
  unfold modify at 1.
  unfold bind at 1. unfold ret at 1.
  change (default JUndefined (object_props _ !! "microCode"%string))
    with (JArr (JNum <$> trimTrailingZeros (microCode p))).
  unfold bind at 1. rewrite Hm, length_fmap, Hmlen, Z2Nat.id by (vm_compute; discriminate).
  rewrite Z.eqb_refl, (microCode_values_valid _ Hmc). cbn [andb].
  unfold modify at 1.
  unfold bind at 1. unfold ret at 1.
  change (default JUndefined (object_props _ !! "instructionNames"%string))
    with (JObj (map_to_list (instructionNames p))).
  unfold modify. rewrite object_props_map_to_list, !omap_number_of.
  destruct p; reflexivity.
Qed.

Lemma forallb_Forall {A : Type} (f : A -> bool) (P : A -> Prop) (l : list A) :
  (forall x, f x = true -> P x) -> forallb f l = true -> Forall P l.
Proof.
  intros Hf. induction l as [|x l IH]; simpl; intros H; constructor;
    apply andb_true_iff in H as [Hx Hl]; auto.
Qed.

Lemma initRam_value_ok :
  length initRam_value = Z.to_nat RAM_SIZE /\ Forall word_ok initRam_value.
Proof.
  split; [apply length_replicate|].
  apply Forall_replicate. apply word_ok_zero.
Qed.

Lemma initMicroCode_value_ok :
  length initMicroCode_value = Z.to_nat MICROCODE_SIZE
  /\ Forall microCode_value_ok initMicroCode_value.
Proof.
  split; [reflexivity|].
  apply (forallb_Forall (fun v => (0 <=? v) && (v <=? 19) && negb (v =? 6))).
  - intros v Hv. apply andb_true_iff in Hv as [Hv H6].
    apply andb_true_iff in Hv as [H0 H19].
    apply Z.leb_le in H0, H19. apply negb_true_iff, Z.eqb_neq in H6.
    split; [lia|exact H6].
  - vm_compute. reflexivity.
Qed.

Lemma init_project_ok : project_ok init_project.
Proof.
  destruct initRam_value_ok, initMicroCode_value_ok.
  repeat split; assumption.
Qed.

Lemma project_three_words_ok : project_ok project_three_words.
Proof.
  destruct initRam_value_ok as [Hl Hr], initMicroCode_value_ok as [Hm Hc].
  unfold project_ok.
  change (microCode project_three_words) with initMicroCode_value.
  change (ram project_three_words)
    with (<[2%nat := 7]> (<[1%nat := 2006]> (<[0%nat := 1005]> initRam_value))).
  split; [rewrite !length_insert; exact Hl|].
  split; [|split; assumption].
  repeat apply Forall_insert; try exact Hr; vm_compute; split; discriminate.
Qed.

Lemma fromJSON_toJSON_witness :
  project_ok project_three_words
  /\ fromJSON (toJSON project_three_words) init_project
     = (Ok tt, project_three_words).
Proof.
  split; [exact project_three_words_ok|].
  exact (fromJSON_toJSON project_three_words init_project project_three_words_ok).
Defined.

(** ** The last used address *)

Lemma legacy_last_used_from (n : nat) (r : list Z) :
  Legacy.last_used_from n r = last_used_from n r.
Proof. induction n as [|n IH]; simpl; [reflexivity|]. rewrite IH. reflexivity. Qed.

(** X2.  On a RAM of [RAM_SIZE] words, [getLastUsedRamAddress] returns
    -1 exactly when every word is 0, and otherwise the one address that
    holds a non-zero word and has only zero words above it; the older
    build's global function computes the same address. *)
Theorem getLastUsedRamAddress_spec (p : JohnnyProject) :
  length (ram p) = Z.to_nat RAM_SIZE ->
  let last := getLastUsedRamAddress p in
  -1 <= last < RAM_SIZE
  /\ (last = -1 <-> Forall (fun w => w = 0) (ram p))
  /\ (last <> -1 ->
      exists w, ram p !! Z.to_nat last = Some w /\ w <> 0)
  /\ (forall i : nat, last < Z.of_nat i < RAM_SIZE -> ram p !! i = Some 0)
  /\ Legacy.getLastUsedRamAddress (ram p) = last.
Proof.
  intros Hlen last.
  destruct (last_used_from_spec (Z.to_nat RAM_SIZE) (ram p))
    as (Hrange & Habove & Hat).
  fold (getLastUsedRamAddress p) in Hrange, Habove, Hat. fold last in Hrange, Habove, Hat.
  split; [unfold RAM_SIZE in *; lia|].
  split.
  { split.
    - intros E. apply Forall_lookup. intros i w Hi.
      pose proof (lookup_lt_Some _ _ _ Hi) as Hlt.
      rewrite Habove in Hi by lia. congruence.
    - intros Hall. destruct (Z.eq_dec last (-1)) as [E|E]; [exact E|].
      exfalso. apply Hat; [lia|].
      assert (Hlt : (Z.to_nat last < length (ram p))%nat) by lia.
      destruct (lookup_lt_is_Some_2 _ _ Hlt) as [w Hw]. rewrite Hw. f_equal.
      exact (proj1 (Forall_lookup _ _) Hall _ _ Hw). }
  split.
  { intros Hne.
    assert (Hlt : (Z.to_nat last < length (ram p))%nat) by lia.
    destruct (lookup_lt_is_Some_2 _ _ Hlt) as [w Hw].
    exists w. split; [exact Hw|]. intros ->. apply Hat; [lia|exact Hw]. }
  split.
  { intros i Hi. apply Habove; unfold RAM_SIZE in *; lia. }
  unfold Legacy.getLastUsedRamAddress. rewrite legacy_last_used_from, Hlen.
  reflexivity.
Qed.

Lemma getLastUsedRamAddress_spec_witness :
  length (ram project_three_words) = Z.to_nat RAM_SIZE
  /\ getLastUsedRamAddress project_three_words = 2
  /\ Legacy.getLastUsedRamAddress (ram project_three_words) = 2.
Proof.
  assert (Hlen : length (ram project_three_words) = Z.to_nat RAM_SIZE)
    by reflexivity.
  split; [exact Hlen|]. split; [vm_compute; reflexivity|].
  rewrite (proj2 (proj2 (proj2 (proj2
             (getLastUsedRamAddress_spec project_three_words Hlen))))).
  vm_compute. reflexivity.
Defined.

(** ** Microcode reads and writes *)

Lemma getMicroCode_ok (p : JohnnyProject) (address : Z) :
  0 <= address < MICROCODE_SIZE ->
  getMicroCode address p = (Ok (microCode p !! Z.to_nat address), p).
Proof.
  intros Ha. unfold getMicroCode. rewrite (range_guard_false _ _ Ha). reflexivity.
Qed.

Lemma microCode_guard (v : Z) :
  (v <? 0) || (v >? 19) || (v =? 6) = false <-> microCode_value_ok v.
Proof.
  unfold microCode_value_ok. rewrite Z.gtb_ltb.
  destruct (Z.ltb_spec v 0); destruct (Z.ltb_spec 19 v);
    destruct (Z.eqb_spec v 6); simpl; split; intros; try discriminate;
    try lia; try reflexivity.
Qed.

(** X3.  On a microcode of [MICROCODE_SIZE] entries: writing an id within
    [0, 19] other than 6 at an address within [0, MICROCODE_SIZE) succeeds,
    the address then reads that id and every other address reads what it
    read before, the RAM and the names being untouched; an id out of that
    range (the reserved 6 included) or an address out of range throws the
    matching error and leaves the project as it was. *)
Theorem setMicroCode_then_getMicroCode (p : JohnnyProject) (address v : Z) :
  length (microCode p) = Z.to_nat MICROCODE_SIZE ->
  (0 <= address < MICROCODE_SIZE -> microCode_value_ok v ->
   exists p',
     setMicroCode address (Some v) p = (Ok tt, p')
     /\ getMicroCode address p' = (Ok (Some v), p')
     /\ (forall other, other <> address ->
           fst (getMicroCode other p') = fst (getMicroCode other p))
     /\ ram p' = ram p
     /\ instructionNames p' = instructionNames p)
  /\ (0 <= address < MICROCODE_SIZE -> ~ microCode_value_ok v ->
      setMicroCode address (Some v) p = (Throw (MicroCodeValueOutOfBounds v), p))
  /\ (~ (0 <= address < MICROCODE_SIZE) ->
      setMicroCode address (Some v) p
      = (Throw (MicroCodeAddressOutOfBounds address), p)).
Proof.
  intros Hlen. split; [|split].
  - intros Ha [Hv H6]. eexists. split; [apply setMicroCode_ok; assumption|].
    split.
    { rewrite getMicroCode_ok by assumption. simpl.
      rewrite list_lookup_insert_eq; [reflexivity|].
      rewrite Hlen. unfold MICROCODE_SIZE in *. lia. }
    split; [|split; reflexivity].
    intros other Hne. unfold getMicroCode.
    destruct ((other <? 0) || (other >=? MICROCODE_SIZE)) eqn:Hg; [reflexivity|].
    simpl. apply orb_false_iff in Hg as [Hg _]. apply Z.ltb_ge in Hg.
    rewrite list_lookup_insert_ne by lia. reflexivity.
  - intros Ha Hv. unfold setMicroCode. rewrite (range_guard_false _ _ Ha).
    destruct ((v <? 0) || (v >? 19) || (v =? 6)) eqn:Hg; [reflexivity|].
    exfalso. apply Hv, microCode_guard. exact Hg.
  - intros Ha. unfold setMicroCode. rewrite (range_guard_true _ _ Ha). reflexivity.
Qed.

Lemma setMicroCode_then_getMicroCode_witness :
  length (microCode init_project) = Z.to_nat MICROCODE_SIZE
  /\ 0 <= 20 < MICROCODE_SIZE /\ microCode_value_ok 12
  /\ (exists p',
        setMicroCode 20 (Some 12) init_project = (Ok tt, p')
        /\ getMicroCode 20 p' = (Ok (Some 12), p'))
  /\ ~ microCode_value_ok 6
  /\ setMicroCode 20 (Some 6) init_project
     = (Throw (MicroCodeValueOutOfBounds 6), init_project).
Proof.
  assert (Hlen : length (microCode init_project) = Z.to_nat MICROCODE_SIZE)
    by reflexivity.
  assert (Ha : 0 <= 20 < MICROCODE_SIZE) by (unfold MICROCODE_SIZE; lia).
  assert (Hv : microCode_value_ok 12) by (unfold microCode_value_ok; lia).
  assert (H6 : ~ microCode_value_ok 6) by (unfold microCode_value_ok; lia).
  split; [exact Hlen|]. split; [exact Ha|]. split; [exact Hv|].
  split.
  - destruct (proj1 (setMicroCode_then_getMicroCode init_project 20 12 Hlen) Ha Hv)
      as (p' & Hset & Hget & _).
    exists p'. split; assumption.
  - split; [exact H6|].
    exact (proj1 (proj2 (setMicroCode_then_getMicroCode init_project 20 6 Hlen))
             Ha H6).
Defined.

(** ** Instruction names *)

Lemma key_of_inj (a b : Z) : key_of a = key_of b -> a = b.
Proof. unfold key_of. apply pretty_Z_inj. Qed.

Lemma name_guard_false (name : string) :
  trim name <> ""%string -> (String.length name <= 5)%nat ->
  String.eqb (trim name) "" || (Z.of_nat (String.length name) >? 5) = false.
Proof.
  intros Ht Hl. apply orb_false_iff. split.
  - apply String.eqb_neq. exact Ht.
  - rewrite Z.gtb_ltb. apply Z.ltb_ge. lia.
Qed.

Lemma name_guard_true (name : string) :
  trim name = ""%string \/ (5 < String.length name)%nat ->
  String.eqb (trim name) "" || (Z.of_nat (String.length name) >? 5) = true.
Proof.
  intros [Ht|Hl]; apply orb_true_iff.
  - left. apply String.eqb_eq. exact Ht.
  - right. rewrite Z.gtb_ltb. apply Z.ltb_lt. lia.
Qed.

Lemma setInstructionName_ok (p : JohnnyProject) (opCode : Z) (name : string) :
  0 <= opCode < MICROCODE_SIZE / 10 ->
  trim name <> ""%string -> (String.length name <= 5)%nat ->
  setInstructionName opCode name p
  = (Ok tt,
     set_instructionNames (<[key_of opCode := JStr name]> (instructionNames p)) p).
Proof.
  intros Ho Ht Hl. unfold setInstructionName.
  rewrite (range_guard_false _ _ Ho), (name_guard_false _ Ht Hl). reflexivity.
Qed.

(** X4.  For every name over the code units up to U+00FF: naming an
    opcode within [0, MICROCODE_SIZE / 10) with a name that [trim] does
    not empty (white space, the no-break space included, is not a name)
    and that has at most five code units succeeds; the opcode then reads
    that name, every other opcode reads what it read before, and the RAM
    and the microcode are untouched.  An opcode out of range, a name
    that [trim] empties or a name of more than five code units throws and
    leaves the project as it was. *)
Theorem setInstructionName_then_getInstructionName (p : JohnnyProject)
    (opCode : Z) (name : string) :
  (0 <= opCode < MICROCODE_SIZE / 10 ->
   trim name <> ""%string -> (String.length name <= 5)%nat ->
   exists p',
     setInstructionName opCode name p = (Ok tt, p')
     /\ getInstructionName opCode p' = JStr name
     /\ (forall other, other <> opCode ->
           getInstructionName other p' = getInstructionName other p)
     /\ ram p' = ram p /\ microCode p' = microCode p)
  /\ (~ (0 <= opCode < MICROCODE_SIZE / 10) ->
      setInstructionName opCode name p = (Throw (OpcodeOutOfBounds opCode), p))
  /\ (0 <= opCode < MICROCODE_SIZE / 10 ->
      trim name = ""%string \/ (5 < String.length name)%nat ->
      setInstructionName opCode name p = (Throw (InvalidInstructionName name), p)).
Proof.
  split; [|split].
  - intros Ho Ht Hl. eexists.
    split; [apply setInstructionName_ok; assumption|].
    split.
    { unfold getInstructionName. simpl. rewrite lookup_insert_eq.
      destruct (String.eqb_spec name "") as [->|_]; [|reflexivity].
      exfalso. apply Ht. reflexivity. }
    split; [|split; reflexivity].
    intros other Hne. unfold getInstructionName. simpl.
    rewrite lookup_insert_ne; [reflexivity|].
    intros E. apply Hne. symmetry. apply key_of_inj. exact E.
  - intros Ho. unfold setInstructionName. rewrite (range_guard_true _ _ Ho).
    reflexivity.
  - intros Ho Hbad. unfold setInstructionName.
    rewrite (range_guard_false _ _ Ho), (name_guard_true _ Hbad). reflexivity.
Qed.

Lemma setInstructionName_then_getInstructionName_witness :
  0 <= 11 < MICROCODE_SIZE / 10
  /\ trim "MUL" <> ""%string /\ (String.length "MUL" <= 5)%nat
  /\ (exists p',
        setInstructionName 11 "MUL" init_project = (Ok tt, p')
        /\ getInstructionName 11 p' = JStr "MUL"
        /\ getInstructionName 1 p' = JStr "TAKE")
  /\ ~ (0 <= 20 < MICROCODE_SIZE / 10)
  /\ setInstructionName 20 "MUL" init_project
     = (Throw (OpcodeOutOfBounds 20), init_project).
Proof.
  assert (Ho : 0 <= 11 < MICROCODE_SIZE / 10) by (vm_compute; split; [discriminate|reflexivity]).
  assert (Ht : trim "MUL" <> ""%string) by (vm_compute; discriminate).
  assert (Hl : (String.length "MUL" <= 5)%nat) by (vm_compute; lia).
  assert (Hbad : ~ (0 <= 20 < MICROCODE_SIZE / 10))
    by (intros [_ H]; vm_compute in H; discriminate).
  split; [exact Ho|]. split; [exact Ht|]. split; [exact Hl|].
  split.
  - destruct (proj1 (setInstructionName_then_getInstructionName init_project 11 "MUL")
                Ho Ht Hl) as (p' & Hset & Hget & Hother & _).
    exists p'. split; [exact Hset|]. split; [exact Hget|].
    rewrite Hother by discriminate. vm_compute. reflexivity.
  - split; [exact Hbad|].
    exact (proj1 (proj2 (setInstructionName_then_getInstructionName
                           init_project 20 "MUL")) Hbad).
Defined.

(** ** The class invariant *)

Lemma setRam_keeps_project_ok (address : Z) (value : option Z) :
  preserves project_ok (setRam address value).
Proof.
  intros p (Hl & Hr & Hm). unfold setRam.
  destruct ((address <? 0) || (address >=? RAM_SIZE)); [repeat split; tauto|].
  destruct value as [v|]; [|repeat split; tauto].
  destruct ((v <? 0) || (v >? MAX_RAM_VALUE)) eqn:Hv; [repeat split; tauto|].
  unfold modify, project_ok. cbn [snd ram microCode set_ram].
  split; [rewrite length_insert; exact Hl|]. split; [|exact Hm].
  apply Forall_insert; [exact Hr|].
  apply orb_false_iff in Hv as [H1 H2]. unfold word_ok.
  rewrite Z.gtb_ltb in H2. apply Z.ltb_ge in H1, H2. lia.
Qed.

Lemma setMicroCode_keeps_project_ok (address : Z) (value : option Z) :
  preserves project_ok (setMicroCode address value).
Proof.
  intros p (Hl & Hr & Hml & Hm). unfold setMicroCode.
  destruct ((address <? 0) || (address >=? MICROCODE_SIZE)); [repeat split; tauto|].
  destruct value as [v|]; [|repeat split; tauto].
  destruct ((v <? 0) || (v >? 19) || (v =? 6)) eqn:Hv; [repeat split; tauto|].
  unfold modify, project_ok. cbn [snd ram microCode set_microCode].
  split; [exact Hl|]. split; [exact Hr|].
  split; [rewrite length_insert; exact Hml|].
  apply Forall_insert; [exact Hm|]. apply microCode_guard. exact Hv.
Qed.

Lemma setInstructionName_keeps_project_ok (opCode : Z) (name : string) :
  preserves project_ok (setInstructionName opCode name).
Proof.
  intros p H. unfold setInstructionName.
  destruct (_ || _); [exact H|]. destruct (_ || _); exact H.
Qed.

Lemma initRam_keeps_project_ok : preserves project_ok initRam.
Proof.
  intros p (_ & _ & Hm). destruct initRam_value_ok. split; [|split]; assumption.
Qed.

Lemma initMicroCode_keeps_project_ok : preserves project_ok initMicroCode.
Proof.
  intros p (Hl & Hr & _). destruct initMicroCode_value_ok.
  split; [|split; [|split]]; assumption.
Qed.

Lemma valid_values_length (f : JsVal -> bool) (vals : list JsVal) :
  (forall v, f v = true -> exists n, v = JNum n) ->
  forallb f vals = true -> length (omap number_of vals) = length vals.
Proof.
  intros Hf. induction vals as [|v vals IH]; simpl; intros H; [reflexivity|].
  apply andb_true_iff in H as [Hv Hrest].
  destruct (Hf v Hv) as [n ->]. simpl. f_equal. apply IH. exact Hrest.
Qed.

Lemma valid_microCode_values_ok (vals : list JsVal) :
  forallb is_microCode_value vals = true ->
  Forall microCode_value_ok (omap number_of vals).
Proof.
  induction vals as [|v vals IH]; simpl; intros H; [constructor|].
  apply andb_true_iff in H as [Hv Hrest].
  destruct v; simpl in *; try discriminate.
  constructor; [|apply IH; exact Hrest].
  apply andb_true_iff in Hv as [Hv H6]. apply andb_true_iff in Hv as [H1 H2].
  rewrite Z.geb_leb in H1. apply Z.leb_le in H1, H2.
  apply negb_true_iff, Z.eqb_neq in H6. split; [lia|exact H6].
Qed.

Lemma fromJSON_keeps_project_ok (json : JsVal) :
  preserves project_ok (fromJSON json).
Proof.
  unfold fromJSON.
  apply preserves_bind; [apply get_prop_preserves|]. intros json_ram.
  apply preserves_bind.
  { destruct json_ram; try apply preserves_throw.
    destruct (_ && _) eqn:Hcheck; [|apply preserves_throw].
    apply preserves_modify. intros p (_ & _ & Hm).
    apply andb_true_iff in Hcheck as [Hlen Hvals].
    split; [|split; [|exact Hm]].
    - cbn [ram set_ram].
      rewrite (valid_values_length is_ram_value) by
        (try exact Hvals; intros [] Hv; try discriminate; eexists; reflexivity).
      apply Z.eqb_eq in Hlen. lia.
    - apply valid_ram_values_ok. exact Hvals. }
  intros _. apply preserves_bind; [apply get_prop_preserves|]. intros json_mc.
  apply preserves_bind.
  { destruct json_mc; try apply preserves_throw.
    destruct (_ && _) eqn:Hcheck; [|apply preserves_throw].
    apply preserves_modify. intros p (Hl & Hr & _).
    apply andb_true_iff in Hcheck as [Hlen Hvals].
    split; [exact Hl|]. split; [exact Hr|]. split.
    - cbn [microCode set_microCode].
      rewrite (valid_values_length is_microCode_value) by
        (try exact Hvals; intros [] Hv; try discriminate; eexists; reflexivity).
      apply Z.eqb_eq in Hlen. lia.
    - apply valid_microCode_values_ok. exact Hvals. }
  intros _. apply preserves_bind; [apply get_prop_preserves|]. intros json_names.
  destruct json_names; try apply preserves_throw;
    apply preserves_modify; intros p H; exact H.
Qed.

Lemma import_keeps_project_ok (parsed : option JsVal) :
  preserves project_ok (import parsed).
Proof.
  unfold import. apply preserves_try_catch; [|intros e; apply preserves_ret].
  apply preserves_bind; [|intros _; apply preserves_ret].
  destruct parsed; [apply fromJSON_keeps_project_ok|apply preserves_throw].
Qed.

Lemma importLegacyRam_keeps_project_ok (lines : list (option Z)) :
  preserves project_ok (importLegacyRam lines).
Proof.
  unfold importLegacyRam.
  apply preserves_try_catch; [|intros e; apply preserves_ret].
  apply preserves_bind; [apply initRam_keeps_project_ok|]. intros _.
  generalize 0 as i. induction lines as [|line rest IH]; intros i; simpl.
  - apply preserves_ret.
  - destruct (i <? RAM_SIZE); [|apply preserves_ret].
    apply preserves_bind; [|intros _; apply IH].
    destruct line as [v|]; [destruct (_ || _)|]; apply setRam_keeps_project_ok.
Qed.

Lemma importLegacyMicroCode_keeps_project_ok (lines : list (string * option Z)) :
  preserves project_ok (importLegacyMicroCode lines).
Proof.
  unfold importLegacyMicroCode.
  apply preserves_try_catch; [|intros e; apply preserves_ret].
  destruct (_ <? _); [apply preserves_ret|].
  apply preserves_bind; [apply initMicroCode_keeps_project_ok|]. intros _.
  apply preserves_bind.
  { apply preserves_for_loop. intros i.
    destruct (lines !! Z.to_nat i) as [[line [v|]]|];
      [destruct (_ || _)| |]; apply setMicroCode_keeps_project_ok. }
  intros _. apply preserves_for_loop. intros i.
  destruct (lines !! Z.to_nat i) as [[line v]|]; [|apply preserves_ret].
  destruct (String.eqb line ""); [apply preserves_ret|].
  apply preserves_modify. intros p H. exact H.
Qed.

Lemma run_call_keeps_project_ok (p : JohnnyProject) (c : Call) :
  project_ok p -> project_ok (run_call p c).
Proof.
  intros Hp. destruct c; cbn [run_call].
  - apply setRam_keeps_project_ok; exact Hp.
  - apply initRam_keeps_project_ok; exact Hp.
  - apply setMicroCode_keeps_project_ok; exact Hp.
  - apply initMicroCode_keeps_project_ok; exact Hp.
  - apply setInstructionName_keeps_project_ok; exact Hp.
  - apply import_keeps_project_ok; exact Hp.
  - apply importLegacyRam_keeps_project_ok; exact Hp.
  - apply importLegacyMicroCode_keeps_project_ok; exact Hp.
Qed.

(** X5.  The class invariant.  Starting from the project the constructor
    builds, after any sequence of calls of the public methods that change
    the project -- whether each returns or throws -- the RAM has
    [RAM_SIZE] words within [0, MAX_RAM_VALUE] and the microcode has
    [MICROCODE_SIZE] ids within [0, 19] other than 6; so every in-range
    [getRam] and [getMicroCode] returns a number. *)
Theorem project_calls_keep_invariant (calls : list Call) :
  let p := foldl run_call init_project calls in
  project_ok p
  /\ (forall address, 0 <= address < RAM_SIZE ->
        exists w, getRam address p = (Ok (Some w), p) /\ word_ok w)
  /\ (forall address, 0 <= address < MICROCODE_SIZE ->
        exists id, getMicroCode address p = (Ok (Some id), p)
                   /\ microCode_value_ok id).
Proof.
  intros p.
  assert (Hp : project_ok p).
  { unfold p. generalize init_project_ok. generalize init_project.
    induction calls as [|c calls IH]; intros p0 Hp0; [exact Hp0|].
    simpl. apply IH. apply run_call_keeps_project_ok. exact Hp0. }
  split; [exact Hp|]. destruct Hp as (Hl & Hr & Hml & Hm).
  split.
  - intros address Ha.
    assert (Hlt : (Z.to_nat address < length (ram p))%nat) by lia.
    destruct (lookup_lt_is_Some_2 _ _ Hlt) as [w Hw].
    exists w. rewrite getRam_ok by exact Ha. rewrite Hw.
    split; [reflexivity|]. exact (proj1 (Forall_lookup _ _) Hr _ _ Hw).
  - intros address Ha.
    assert (Hlt : (Z.to_nat address < length (microCode p))%nat) by lia.
    destruct (lookup_lt_is_Some_2 _ _ Hlt) as [id Hid].
    exists id. rewrite getMicroCode_ok by exact Ha. rewrite Hid.
    split; [reflexivity|]. exact (proj1 (Forall_lookup _ _) Hm _ _ Hid).
Qed.

(** ** What a failed import leaves *)

Lemma fromJSON_stages (json : JsVal) (p : JohnnyProject) :
  match fromJSON json p with
  | (Ok _, p') => project_ok p'
  | (Throw e, p') =>
      instructionNames p' = instructionNames p
      /\ ((e = JsTypeError \/ e = InvalidRamValues \/ e = InvalidRamData) /\ p' = p
          \/ (e = InvalidMicroCodeValues \/ e = InvalidMicroCodeData)
             /\ microCode p' = microCode p
          \/ e = InvalidInstructionNames)
  end.
Proof.
  assert (Hleaf : forall e : Err,
            e = JsTypeError \/ e = InvalidRamValues \/ e = InvalidRamData ->
            instructionNames p = instructionNames p
            /\ ((e = JsTypeError \/ e = InvalidRamValues \/ e = InvalidRamData)
                /\ p = p
                \/ (e = InvalidMicroCodeValues \/ e = InvalidMicroCodeData)
                   /\ microCode p = microCode p
                \/ e = InvalidInstructionNames)).
  { intros e He. split; [reflexivity|]. left. split; [exact He|reflexivity]. }
  unfold fromJSON.
  destruct json as [| |b|n|s|elems|props]; cbn [get_prop];
    try (apply Hleaf; auto).
  generalize (default JUndefined (object_props props !! "ram"%string)).
  generalize (default JUndefined (object_props props !! "microCode"%string)).
  generalize (default JUndefined (object_props props !! "instructionNames"%string)).
  intros v3 v2 v1. unfold bind, ret, throw, modify.
  destruct v1; try (apply Hleaf; auto).
  destruct (andb (_ =? RAM_SIZE) _) eqn:Hram; [|apply Hleaf; auto].
  destruct v2 as [| | | | |codes|];
    try (split; [reflexivity|]; right; left; split; [auto|reflexivity]).
  destruct (andb (_ =? MICROCODE_SIZE) _) eqn:Hcode;
    [|split; [reflexivity|]; right; left; split; [auto|reflexivity]].
  assert (Hok : forall names,
            project_ok
              (set_instructionNames names
                 (set_microCode
                    (omap number_of (pad_zeros (JNum 0) MICROCODE_SIZE codes))
                    (set_ram (omap number_of (pad_zeros (JNum 0) RAM_SIZE elems))
                       p)))).
  { intros names.
    apply andb_true_iff in Hram as [Hl1 Hv1], Hcode as [Hl2 Hv2].
    apply Z.eqb_eq in Hl1, Hl2.
    unfold project_ok. cbn [ram microCode set_instructionNames set_microCode set_ram].
    rewrite (valid_values_length is_ram_value) by
      (try exact Hv1; intros [] Hv; try discriminate; eexists; reflexivity).
    rewrite (valid_values_length is_microCode_value) by
      (try exact Hv2; intros [] Hv; try discriminate; eexists; reflexivity).
    split; [lia|]. split; [apply valid_ram_values_ok; exact Hv1|].
    split; [lia|]. apply valid_microCode_values_ok; exact Hv2. }
  destruct v3; try apply Hok; (split; [reflexivity|]); right; right; reflexivity.
Qed.

(** X6.  [import] never throws.  When it reports no error the project
    it leaves has a RAM of [RAM_SIZE] words and a microcode of
    [MICROCODE_SIZE] ids, all within their ranges, whatever the project
    held before.  When it reports an error the instruction names are
    those held before; the microcode is the one held before unless the
    error is about the names; and the whole project is the one held
    before when the text does not parse, the parsed value is [null], or
    the error is about the RAM. *)
Theorem import_outcomes (parsed : option JsVal) (p : JohnnyProject) :
  exists (report : option Err) (p' : JohnnyProject),
    import parsed p = (Ok report, p')
    /\ (report = None -> project_ok p')
    /\ forall e, report = Some e ->
         instructionNames p' = instructionNames p
         /\ (e = InvalidInstructionNames \/ microCode p' = microCode p)
         /\ (e = JsSyntaxError \/ e = JsTypeError
             \/ e = InvalidRamValues \/ e = InvalidRamData -> p' = p).
Proof.
  unfold import, try_catch. unfold bind at 1.
  destruct parsed as [json|].
  - pose proof (fromJSON_stages json p) as H.
    destruct (fromJSON json p) as [[[]|e] p'].
    + eexists _, _. split; [reflexivity|]. split; [intros _; exact H|].
      intros e He. discriminate.
    + eexists _, _. split; [reflexivity|]. split; [discriminate|].
      intros e' He. injection He as <-.
      destruct H as (Hn & [[He ->]|[[He Hm]|He]]).
      * split; [reflexivity|]. split; [right; reflexivity|]. reflexivity.
      * split; [exact Hn|]. split; [right; exact Hm|].
        intros [E|[E|[E|E]]]; destruct He; congruence.
      * split; [exact Hn|]. split; [left; exact He|].
        intros [E|[E|[E|E]]]; congruence.
  - eexists _, _. split; [reflexivity|]. split; [discriminate|].
    intros e He. injection He as <-.
    split; [reflexivity|]. split; [right; reflexivity|]. reflexivity.
Qed.

(** ** Legacy RAM files *)

Lemma legacy_ram_value_ok (line : option Z) : word_ok (legacy_ram_value line).
Proof.
  unfold legacy_ram_value, word_ok.
  destruct line as [v|]; [|vm_compute; split; discriminate].
  destruct ((v <? 0) || (v >? MAX_RAM_VALUE)) eqn:Hv;
    [vm_compute; split; discriminate|].
  apply orb_false_iff in Hv as [H1 H2].
  rewrite Z.gtb_ltb in H2. apply Z.ltb_ge in H1, H2. lia.
Qed.

Lemma importLegacyRam_line (i : Z) (line : option Z) (p : JohnnyProject) :
  0 <= i < RAM_SIZE ->
  match line with
  | Some value =>
      if (value <? 0) || (value >? MAX_RAM_VALUE)
      then setRam i (Some 0)
      else setRam i (Some value)
  | None => setRam i (Some 0)
  end p
  = (Ok tt, set_ram (<[Z.to_nat i := legacy_ram_value line]> (ram p)) p).
Proof.
  intros Hi. pose proof (legacy_ram_value_ok line) as Hv.
  unfold legacy_ram_value in *.
  destruct line as [v|]; [destruct (_ || _)|]; apply setRam_ok; assumption.
Qed.

Lemma importLegacyRam_loop_run (q : JohnnyProject) (lines : list (option Z)) :
  forall (i : Z) (r : list Z),
    0 <= i -> length r = Z.to_nat RAM_SIZE ->
    exists r',
      importLegacyRam_loop i lines (set_ram r q) = (Ok tt, set_ram r' q)
      /\ length r' = Z.to_nat RAM_SIZE
      /\ (forall k : nat, Z.of_nat k < i -> r' !! k = r !! k)
      /\ (forall (j : nat) (line : option Z),
            lines !! j = Some line -> i + Z.of_nat j < RAM_SIZE ->
            r' !! Z.to_nat (i + Z.of_nat j) = Some (legacy_ram_value line))
      /\ (forall k : nat,
            i + Z.of_nat (length lines) <= Z.of_nat k -> r' !! k = r !! k).
Proof.
  induction lines as [|line rest IH]; intros i r Hi Hlen.
  - exists r. split; [reflexivity|]. split; [exact Hlen|].
    split; [reflexivity|]. split; [intros j line Hj; discriminate|reflexivity].
  - cbn [importLegacyRam_loop].
    destruct (Z.ltb_spec i RAM_SIZE) as [Hlt|Hge].
    + unfold bind at 1.
      rewrite importLegacyRam_line by lia. cbn [ram set_ram].
      destruct (IH (i + 1) (<[Z.to_nat i := legacy_ram_value line]> r))
        as (r' & Hrun & Hlen' & Hbelow & Hat & Habove);
        [lia|rewrite length_insert; exact Hlen|].
      exists r'. split; [exact Hrun|]. split; [exact Hlen'|].
      split; [|split].
      * intros k Hk. rewrite Hbelow by lia. apply list_lookup_insert_ne. lia.
      * intros [|j] l Hj Hrange.
        -- injection Hj as <-. rewrite Z.add_0_r.
           rewrite Hbelow by lia. apply list_lookup_insert_eq.
           rewrite Hlen. unfold RAM_SIZE in *. lia.
        -- replace (i + Z.of_nat (S j)) with (i + 1 + Z.of_nat j) by lia.
           apply Hat; [exact Hj|lia].
      * intros k Hk. cbn [length] in Hk. rewrite Habove by lia.
        apply list_lookup_insert_ne. lia.
    + exists r. split; [reflexivity|]. split; [exact Hlen|].
      split; [reflexivity|]. split; [intros; lia|reflexivity].
Qed.

Lemma importLegacyRam_run (lines : list (option Z)) (p : JohnnyProject) :
  exists r',
    importLegacyRam lines p = (Ok tt, set_ram r' p)
    /\ length r' = Z.to_nat RAM_SIZE
    /\ forall k : nat,
         Z.of_nat k < RAM_SIZE ->
         r' !! k = Some (from_option legacy_ram_value 0 (lines !! k)).
Proof.
  destruct (importLegacyRam_loop_run p lines 0 initRam_value)
    as (r' & Hrun & Hlen & _ & Hat & Habove);
    [lia|apply length_replicate|].
  exists r'. split.
  { unfold importLegacyRam, try_catch. unfold bind at 1.
    change (initRam p) with (Ok tt, set_ram initRam_value p).
    cbv beta iota. rewrite Hrun. reflexivity. }
  split; [exact Hlen|].
  intros k Hk. destruct (lines !! k) as [line|] eqn:Hline; simpl.
  - rewrite <- (Hat k line Hline) by lia. f_equal. lia.
  - apply lookup_ge_None_1 in Hline. rewrite Habove by lia.
    apply lookup_replicate_2. unfold RAM_SIZE in *. lia.
Qed.

(** X7.  Re-importing the lines that [exportLegacyRam] writes restores
    an integer RAM: for any project whose RAM has [RAM_SIZE] integer
    words within [0, MAX_RAM_VALUE], importing its export into any
    project ends normally and leaves that project with exactly this RAM,
    its microcode and its names untouched.  (A word that is not an
    integer, which only a snapshot import can bring in, is outside this
    statement: [importLegacyRam] keeps integer lines only.) *)
Theorem importLegacyRam_exportLegacyRam (p q : JohnnyProject) :
  length (ram p) = Z.to_nat RAM_SIZE ->
  Forall word_ok (ram p) ->
  importLegacyRam (exportLegacyRam p) q = (Ok tt, set_ram (ram p) q).
Proof.
  intros Hlen Hvalid.
  destruct (importLegacyRam_run (exportLegacyRam p) q) as (r' & Hrun & Hlen' & Hat).
  rewrite Hrun. f_equal. f_equal.
  apply list_eq. intros k.
  destruct (decide (Z.of_nat k < RAM_SIZE)) as [Hk|Hk].
  - rewrite Hat by exact Hk. unfold exportLegacyRam. rewrite list_lookup_fmap.
    destruct (ram p !! k) as [w|] eqn:Hw.
    + simpl. f_equal. unfold legacy_ram_value.
      pose proof (proj1 (Forall_lookup _ _) Hvalid _ _ Hw) as Hok.
      rewrite value_guard_false by exact Hok. reflexivity.
    + apply lookup_ge_None_1 in Hw. lia.
  - rewrite !lookup_ge_None_2 by lia. reflexivity.
Qed.

Lemma importLegacyRam_exportLegacyRam_witness :
  length (ram project_three_words) = Z.to_nat RAM_SIZE
  /\ Forall word_ok (ram project_three_words)
  /\ importLegacyRam (exportLegacyRam project_three_words) init_project
     = (Ok tt, set_ram (ram project_three_words) init_project).
Proof.
  destruct project_three_words_ok as (Hlen & Hvalid & _).
  split; [exact Hlen|]. split; [exact Hvalid|].
  exact (importLegacyRam_exportLegacyRam project_three_words init_project
           Hlen Hvalid).
Defined.

(** ** Loops with an invariant *)

Lemma for_loop_invariant {St : Type} (P : nat -> St -> Prop) (n : nat)
    (start : Z) (body : Z -> M St unit) :
  (forall (k : nat) (s : St),
      (k < n)%nat -> P k s ->
      exists s', body (start + Z.of_nat k) s = (Ok tt, s') /\ P (S k) s') ->
  forall s, P 0%nat s ->
  exists s', for_loop n start 1 body s = (Ok tt, s') /\ P n s'.
Proof.
  intros Hbody.
  assert (Hgen : forall (m k : nat) (s : St),
            (k + m = n)%nat -> P k s ->
            exists s', for_loop m (start + Z.of_nat k) 1 body s = (Ok tt, s')
                       /\ P n s').
  { induction m as [|m IH]; intros k s Hk Hs.
    - exists s. split; [reflexivity|]. replace n with k by lia. exact Hs.
    - destruct (Hbody k s ltac:(lia) Hs) as (s1 & Hrun & Hs1).
      destruct (IH (S k) s1 ltac:(lia) Hs1) as (s' & Hrest & Hs').
      exists s'. split; [|exact Hs'].
      cbn [for_loop]. unfold bind. rewrite Hrun.
      replace (start + Z.of_nat k + 1) with (start + Z.of_nat (S k)) by lia.
      exact Hrest. }
  intros s Hs. specialize (Hgen n 0%nat s ltac:(lia) Hs).
  rewrite Z.add_0_r in Hgen. exact Hgen.
Qed.



(** ** Legacy microcode files *)

Lemma legacy_microCode_value_ok (line : option Z) :
  microCode_value_ok (legacy_microCode_value line).
Proof.
  unfold legacy_microCode_value.
  destruct line as [v|]; [|unfold microCode_value_ok; lia].
  destruct ((v <? 0) || (v >? 19) || (v =? 6)) eqn:Hv;
    [unfold microCode_value_ok; lia|].
  apply microCode_guard. exact Hv.
Qed.

Lemma importLegacyMicroCode_line (i : Z) (line : option (string * option Z))
    (p : JohnnyProject) :
  0 <= i < MICROCODE_SIZE ->
  match line with
  | Some (_, Some value) =>
      if (value <? 0) || (value >? 19) || (value =? 6)
      then setMicroCode i (Some 0)
      else setMicroCode i (Some value)
  | _ => setMicroCode i (Some 0)
  end p
  = (Ok tt,
     set_microCode
       (<[Z.to_nat i := legacy_microCode_value (mbind snd line)]> (microCode p)) p).
Proof.
  intros Hi.
  pose proof (legacy_microCode_value_ok (mbind snd line)) as [Hv H6].
  destruct line as [[text [v|]]|]; cbn [mbind option_bind snd] in *;
    unfold legacy_microCode_value in *;
    [destruct (_ || _)| |]; apply setMicroCode_ok; assumption || lia.
Qed.

Lemma importLegacyMicroCode_values_run (lines : list (string * option Z))
    (p : JohnnyProject) :
  length (microCode p) = Z.to_nat MICROCODE_SIZE ->
  exists m,
    for_loop (Z.to_nat MICROCODE_SIZE) 0 1
      (fun i =>
         match lines !! Z.to_nat i with
         | Some (_, Some value) =>
             if (value <? 0) || (value >? 19) || (value =? 6)
             then setMicroCode i (Some 0)
             else setMicroCode i (Some value)
         | _ => setMicroCode i (Some 0)
         end) p
    = (Ok tt, set_microCode m p)
    /\ length m = Z.to_nat MICROCODE_SIZE
    /\ forall k : nat,
         Z.of_nat k < MICROCODE_SIZE ->
         m !! k = Some (legacy_microCode_value (mbind snd (lines !! k))).
Proof.
  intros Hlen.
  destruct (for_loop_invariant
              (fun k q => exists m,
                 q = set_microCode m p
                 /\ length m = Z.to_nat MICROCODE_SIZE
                 /\ forall j : nat, (j < k)%nat ->
                      m !! j = Some (legacy_microCode_value (mbind snd (lines !! j))))
              (Z.to_nat MICROCODE_SIZE) 0
              (fun i =>
                 match lines !! Z.to_nat i with
                 | Some (_, Some value) =>
                     if (value <? 0) || (value >? 19) || (value =? 6)
                     then setMicroCode i (Some 0)
                     else setMicroCode i (Some value)
                 | _ => setMicroCode i (Some 0)
                 end)) with (s := p) as (q & Hrun & m & -> & Hlen' & Hat).
  - intros k q Hk (m & -> & Hm & Hat).
    eexists. split.
    { rewrite Z.add_0_l, Nat2Z.id.
      apply (importLegacyMicroCode_line (Z.of_nat k) (lines !! k)). lia. }
    eexists. split; [reflexivity|]. cbn [microCode set_microCode].
    split; [rewrite length_insert; exact Hm|].
    intros j Hj. rewrite Nat2Z.id.
    destruct (decide (j = k)) as [->|Hne].
    + apply list_lookup_insert_eq. lia.
    + rewrite list_lookup_insert_ne by lia. apply Hat. lia.
  - exists (microCode p). split; [destruct p; reflexivity|].
    split; [exact Hlen|]. intros j Hj. lia.
  - exists m. split; [exact Hrun|]. split; [exact Hlen'|].
    intros k Hk. apply Hat. lia.
Qed.

Lemma importLegacyMicroCode_names_run (lines : list (string * option Z))
    (p : JohnnyProject) :
  exists names,
    for_loop (length lines - Z.to_nat MICROCODE_SIZE) MICROCODE_SIZE 1
      (fun i =>
         match lines !! Z.to_nat i with
         | Some (line, _) =>
             if String.eqb line "" then ret tt
             else modify (fun p =>
                    set_instructionNames
                      (<[key_of (i - MICROCODE_SIZE) := JStr line]>
                         (instructionNames p)) p)
         | None => ret tt
         end) p
    = (Ok tt, set_instructionNames names p)
    /\ (forall (j : nat) (text : string) (number : option Z),
          lines !! (Z.to_nat MICROCODE_SIZE + j)%nat = Some (text, number) ->
          text <> ""%string ->
          names !! key_of (Z.of_nat j) = Some (JStr text))
    /\ (forall j : nat,
          (length lines <= Z.to_nat MICROCODE_SIZE + j)%nat ->
          names !! key_of (Z.of_nat j) = instructionNames p !! key_of (Z.of_nat j)).
Proof.
  destruct (for_loop_invariant
              (fun k q => exists names,
                 q = set_instructionNames names p
                 /\ (forall (j : nat) (text : string) (number : option Z),
                       (j < k)%nat ->
                       lines !! (Z.to_nat MICROCODE_SIZE + j)%nat
                       = Some (text, number) ->
                       text <> ""%string ->
                       names !! key_of (Z.of_nat j) = Some (JStr text))
                 /\ (forall j : nat,
                       (k <= j)%nat ->
                       names !! key_of (Z.of_nat j)
                       = instructionNames p !! key_of (Z.of_nat j)))
              (length lines - Z.to_nat MICROCODE_SIZE) MICROCODE_SIZE
              (fun i =>
                 match lines !! Z.to_nat i with
                 | Some (line, _) =>
                     if String.eqb line "" then ret tt
                     else modify (fun p =>
                            set_instructionNames
                              (<[key_of (i - MICROCODE_SIZE) := JStr line]>
                                 (instructionNames p)) p)
                 | None => ret tt
                 end)) with (s := p) as (q & Hrun & names & -> & Hin & Hout).
  - intros k q Hk (names & -> & Hin & Hout).
    replace (Z.to_nat (MICROCODE_SIZE + Z.of_nat k))
      with (Z.to_nat MICROCODE_SIZE + k)%nat by (unfold MICROCODE_SIZE; lia).
    replace (MICROCODE_SIZE + Z.of_nat k - MICROCODE_SIZE) with (Z.of_nat k) by lia.
    destruct (lines !! (Z.to_nat MICROCODE_SIZE + k)%nat) as [[text number]|] eqn:Hline.
    + destruct (String.eqb_spec text "") as [->|Htext].
      * eexists. split; [reflexivity|]. exists names. split; [reflexivity|].
        split.
        -- intros j t n Hj Hl Ht. destruct (decide (j = k)) as [->|Hne].
           ++ rewrite Hline in Hl. injection Hl as <- <-. contradiction.
           ++ apply (Hin j t n); [lia|assumption|assumption].
        -- intros j Hj. apply Hout. lia.
      * eexists. split; [reflexivity|].
        exists (<[key_of (Z.of_nat k) := JStr text]> names).
        split; [reflexivity|]. split.
        -- intros j t n Hj Hl Ht. destruct (decide (j = k)) as [->|Hne].
           ++ rewrite Hline in Hl. injection Hl as <- <-. apply lookup_insert_eq.
           ++ rewrite lookup_insert_ne
                by (intros E; apply key_of_inj in E; lia).
              apply (Hin j t n); [lia|assumption|assumption].
        -- intros j Hj.
           rewrite lookup_insert_ne by (intros E; apply key_of_inj in E; lia).
           apply Hout. lia.
    + eexists. split; [reflexivity|]. exists names. split; [reflexivity|].
      split.
      * intros j t n Hj Hl Ht. destruct (decide (j = k)) as [->|Hne].
        -- rewrite Hline in Hl. discriminate.
        -- apply (Hin j t n); [lia|assumption|assumption].
      * intros j Hj. apply Hout. lia.
  - exists (instructionNames p). split; [destruct p; reflexivity|].
    split; [intros; lia|reflexivity].
  - exists names. split; [exact Hrun|]. split.
    + intros j t n Hl Ht. apply (Hin j t n); [|assumption|assumption].
      apply lookup_lt_Some in Hl. lia.
    + intros j Hj. apply Hout. lia.
Qed.

(** X9.  [importLegacyMicroCode] on a file of fewer than [MICROCODE_SIZE]
    lines changes nothing.  On a longer file it ends normally, keeps the
    RAM, sets each microcode slot to the number of its line when that is
    an integer within [0, 19] other than 6 and to 0 otherwise, and starts
    the names again from the default table: line [MICROCODE_SIZE + j]
    names opcode [j], for every [j] the file reaches, and the opcodes past
    the end of the file read their default name. *)
Theorem importLegacyMicroCode_result (lines : list (string * option Z))
    (p : JohnnyProject) :
  ((length lines < Z.to_nat MICROCODE_SIZE)%nat ->
   importLegacyMicroCode lines p = (Ok tt, p))
  /\ ((Z.to_nat MICROCODE_SIZE <= length lines)%nat ->
      exists p',
        importLegacyMicroCode lines p = (Ok tt, p')
        /\ ram p' = ram p
        /\ length (microCode p') = Z.to_nat MICROCODE_SIZE
        /\ (forall k : nat,
              Z.of_nat k < MICROCODE_SIZE ->
              microCode p' !! k
              = Some (legacy_microCode_value (mbind snd (lines !! k))))
        /\ (forall (j : nat) (text : string) (number : option Z),
              lines !! (Z.to_nat MICROCODE_SIZE + j)%nat = Some (text, number) ->
              text <> ""%string ->
              instructionNames p' !! key_of (Z.of_nat j) = Some (JStr text))
        /\ (forall j : nat,
              (length lines <= Z.to_nat MICROCODE_SIZE + j)%nat ->
              instructionNames p' !! key_of (Z.of_nat j)
              = initInstructionNames_value !! key_of (Z.of_nat j))).
Proof.
  split.
  - intros Hshort. unfold importLegacyMicroCode, try_catch.
    destruct (Z.ltb_spec (Z.of_nat (length lines)) MICROCODE_SIZE) as [_|Hge];
      [reflexivity|]. unfold MICROCODE_SIZE in *. lia.
  - intros Hlong. unfold importLegacyMicroCode, try_catch.
    destruct (Z.ltb_spec (Z.of_nat (length lines)) MICROCODE_SIZE) as [Hlt|_];
      [unfold MICROCODE_SIZE in *; lia|].
    set (p0 := set_instructionNames initInstructionNames_value
                 (set_microCode initMicroCode_value p)).
    destruct (importLegacyMicroCode_values_run lines p0)
      as (m & Hvalues & Hlen & Hat); [reflexivity|].
    destruct (importLegacyMicroCode_names_run lines (set_microCode m p0))
      as (names & Hnames & Hin & Hout).
    exists (set_instructionNames names (set_microCode m p0)).
    split.
    { unfold bind at 1. change (initMicroCode p) with (Ok tt, p0). cbv beta iota.
      unfold bind at 1. rewrite Hvalues. cbv beta iota. rewrite Hnames.
      reflexivity. }
    split; [reflexivity|]. split; [exact Hlen|]. split; [exact Hat|].
    split; [exact Hin|exact Hout].
Qed.

(** ** Micro steps, one id at a time *)

Lemma normalizeInt_id (v lo hi : Z) :
  lo <= v <= hi -> normalizeInt (Some v) lo hi = v.
Proof. intros H. unfold normalizeInt. apply clamp_id. exact H. Qed.

Lemma sim_with_own_project (s : Sim) : set_project (project s) s = s.
Proof. destruct s. reflexivity. Qed.

Lemma data_fields (w : Z) :
  0 <= w ->
  getDataHigh w = w / 1000 /\ getDataLow w = w mod 1000.
Proof.
  intros Hw. unfold getDataHigh, getDataLow.
  rewrite Z.quot_div_nonneg, Z.rem_mod_nonneg by lia. split; reflexivity.
Qed.

Lemma data_fields_range (w : Z) :
  word_ok w ->
  0 <= getDataHigh w <= 19 /\ 0 <= getDataLow w < RAM_SIZE
  /\ w = getDataHigh w * 1000 + getDataLow w.
Proof.
  unfold word_ok. change MAX_RAM_VALUE with 19999. unfold RAM_SIZE. intros Hw.
  destruct (data_fields w) as [-> ->]; [lia|].
  pose proof (Z.div_mod w 1000 ltac:(lia)).
  pose proof (Z.mod_pos_bound w 1000 ltac:(lia)).
  assert (0 <= w / 1000) by (apply Z.div_pos; lia).
  assert (w / 1000 < 20) by (apply Z.div_lt_upper_bound; lia).
  lia.
Qed.

Lemma instruction_word_fields (opcode operand : Z) :
  0 <= opcode -> 0 <= operand < RAM_SIZE ->
  getDataHigh (instruction_word opcode operand) = opcode
  /\ getDataLow (instruction_word opcode operand) = operand.
Proof.
  unfold RAM_SIZE, instruction_word. intros Ho Ha.
  destruct (data_fields (opcode * 1000 + operand)) as [-> ->]; [lia|].
  split.
  - rewrite Z.div_add_l by lia. rewrite Z.div_small by lia. lia.
  - rewrite Z.add_comm, Z.mod_add by lia. apply Z.mod_small. lia.
Qed.

(** An automatic micro step on a slot that holds a known id other than 0,
    and other than 5 when the opcode field is 0, runs that id and then
    advances the counter if the id asks for it. *)
Lemma microStep_run (s : Sim) (id : Z) (mi : MicroInstruction) :
  isHlt s = false ->
  0 <= microCodeCounter s < MICROCODE_SIZE ->
  microCode (project s) !! Z.to_nat (microCodeCounter s) = Some id ->
  id <> 0 -> (id = 5 -> getDataHigh (instructionRegister s) <> 0) ->
  MICRO_INSTRUCTIONS (Some id) = Some mi ->
  microStep s
  = match exec mi s with
    | (Ok _, s1) =>
        if increment mi
        then (Ok tt,
              set_microCodeCounter
                (normalizeInt (Some (microCodeCounter s1 + 1)) 0
                   (MICROCODE_SIZE - 1)) s1)
        else (Ok tt, s1)
    | (Throw e, s1) => (Throw e, s1)
    end.
Proof.
  intros Hh Hmc Hid H0 H5 Hmi.
  rewrite <- (executeMicroInstruction_auto (Some id) mi s Hmi).
  unfold microStep, getMicroCode. unfold_monad. rewrite Hh.
  rewrite (range_guard_false _ _ Hmc). cbn [fst snd]. rewrite Hid.
  rewrite sim_with_own_project. cbn [is_id].
  destruct (Z.eqb_spec id 5) as [E5|_].
  - destruct (Z.eqb_spec (getDataHigh (instructionRegister s)) 0) as [E|_];
      [exfalso; exact (H5 E5 E)|].
    cbn [andb]. destruct (Z.eqb_spec id 0); [contradiction|reflexivity].
  - cbn [andb]. destruct (Z.eqb_spec id 0); [contradiction|reflexivity].
Qed.

Lemma next_counter (mc : Z) :
  0 <= mc < MICROCODE_SIZE - 1 ->
  normalizeInt (Some (mc + 1)) 0 (MICROCODE_SIZE - 1) = mc + 1.
Proof. intros H. apply normalizeInt_id. lia. Qed.

Lemma clamp_word_up (v : Z) :
  0 <= v -> normalizeInt (Some v) 0 MAX_RAM_VALUE = Z.min v MAX_RAM_VALUE.
Proof.
  intros H. unfold normalizeInt, clamp.
  assert (0 <= MAX_RAM_VALUE) by (vm_compute; discriminate). lia.
Qed.

Lemma clamp_word_down (v : Z) :
  v <= MAX_RAM_VALUE -> normalizeInt (Some v) 0 MAX_RAM_VALUE = Z.max v 0.
Proof.
  intros H. unfold normalizeInt, clamp.
  assert (0 <= MAX_RAM_VALUE) by (vm_compute; discriminate). lia.
Qed.

Lemma clamp_address_up (v : Z) :
  0 <= v -> normalizeInt (Some v) 0 (RAM_SIZE - 1) = Z.min v (RAM_SIZE - 1).
Proof. intros H. unfold normalizeInt, clamp, RAM_SIZE. lia. Qed.

Section MicroSteps.
Variable s : Sim.
Hypothesis Hh : isHlt s = false.
Hypothesis Hmc : 0 <= microCodeCounter s < MICROCODE_SIZE - 1.
Hypothesis Hb : in_bounds s.

Ltac start id Hid :=
  rewrite (microStep_run s id _ Hh ltac:(lia) Hid ltac:(lia) ltac:(lia) eq_refl);
  cbn [exec increment];
  destruct Hb as (Hram & Hab & Hpc & Hdb & Hacc & Hir & _);
  unfold word_ok in *.

Lemma microStep_dbToRam :
  microCode (project s) !! Z.to_nat (microCodeCounter s) = Some 1 ->
  microStep s
  = (Ok tt,
     set_microCodeCounter (microCodeCounter s + 1)
       (set_lastAccessedRamAddress (Some (addressBus s))
          (set_project
             (set_ram (<[Z.to_nat (addressBus s) := dataBus s]> (ram (project s)))
                (project s)) s))).
Proof.
  intros Hid. start 1 Hid. rewrite dbToRamStep_run.
  cbn [microCodeCounter set_lastAccessedRamAddress set_project].
  rewrite next_counter by exact Hmc.
  rewrite !normalizeInt_id by (unfold RAM_SIZE in *; lia). reflexivity.
Qed.

Lemma microStep_ramToDb (w : Z) :
  microCode (project s) !! Z.to_nat (microCodeCounter s) = Some 2 ->
  ram (project s) !! Z.to_nat (addressBus s) = Some w ->
  microStep s
  = (Ok tt,
     set_microCodeCounter (microCodeCounter s + 1)
       (set_lastAccessedRamAddress (Some (addressBus s)) (set_dataBus w s))).
Proof.
  intros Hid Hw. start 2 Hid.
  unfold ramToDbStep, writeToDataBus. unfold_monad.
  rewrite getRam_ok by exact Hab. cbn [fst snd]. rewrite Hw.
  rewrite sim_with_own_project.
  cbn [microCodeCounter addressBus set_lastAccessedRamAddress set_dataBus].
  rewrite next_counter by exact Hmc.
  rewrite normalizeInt_id; [reflexivity|].
  exact (proj1 (Forall_lookup _ _) Hram _ _ Hw).
Qed.

Lemma microStep_dbToIns :
  microCode (project s) !! Z.to_nat (microCodeCounter s) = Some 3 ->
  microStep s
  = (Ok tt,
     set_microCodeCounter (microCodeCounter s + 1)
       (set_instructionRegister (dataBus s) s)).
Proof.
  intros Hid. start 3 Hid.
  unfold dbToInsStep, writeToInstructionRegister. unfold_monad.
  cbn [microCodeCounter set_instructionRegister].
  rewrite next_counter by exact Hmc.
  rewrite normalizeInt_id by lia. reflexivity.
Qed.

Lemma microStep_insToAb :
  microCode (project s) !! Z.to_nat (microCodeCounter s) = Some 4 ->
  microStep s
  = (Ok tt,
     set_microCodeCounter (microCodeCounter s + 1)
       (set_addressBus (getDataLow (instructionRegister s)) s)).
Proof.
  intros Hid. start 4 Hid.
  unfold insToAbStep, writeToAddressBus. unfold_monad.
  cbn [microCodeCounter set_addressBus].
  rewrite next_counter by exact Hmc.
  destruct (data_fields_range (instructionRegister s) Hir) as (_ & Hlow & _).
  rewrite normalizeInt_id by lia. reflexivity.
Qed.

Lemma microStep_pcToAb :
  microCode (project s) !! Z.to_nat (microCodeCounter s) = Some 8 ->
  microStep s
  = (Ok tt,
     set_microCodeCounter (microCodeCounter s + 1)
       (set_addressBus (programCounter s) s)).
Proof.
  intros Hid. start 8 Hid.
  unfold pcToAbStep, writeToAddressBus. unfold_monad.
  cbn [microCodeCounter set_addressBus].
  rewrite next_counter by exact Hmc.
  rewrite normalizeInt_id by lia. reflexivity.
Qed.

Lemma microStep_incPc :
  microCode (project s) !! Z.to_nat (microCodeCounter s) = Some 9 ->
  microStep s
  = (Ok tt,
     set_microCodeCounter (microCodeCounter s + 1)
       (set_programCounter (Z.min (programCounter s + 1) (RAM_SIZE - 1)) s)).
Proof.
  intros Hid. start 9 Hid.
  unfold incPcStep, writeToProgramCounter. unfold_monad.
  cbn [microCodeCounter set_programCounter].
  rewrite next_counter by exact Hmc.
  rewrite clamp_address_up by lia. reflexivity.
Qed.

Lemma microStep_incPcIfAccZero :
  microCode (project s) !! Z.to_nat (microCodeCounter s) = Some 10 ->
  microStep s
  = (Ok tt,
     set_microCodeCounter (microCodeCounter s + 1)
       (set_programCounter
          (if accumulator s =? 0
           then Z.min (programCounter s + 1) (RAM_SIZE - 1)
           else programCounter s) s)).
Proof.
  intros Hid. start 10 Hid.
  unfold incPcIfAccZeroStep, incPcStep, writeToProgramCounter. unfold_monad.
  destruct (accumulator s =? 0).
  - cbn [microCodeCounter set_programCounter].
    rewrite next_counter by exact Hmc.
    rewrite clamp_address_up by lia. reflexivity.
  - cbn [microCodeCounter set_programCounter].
    rewrite next_counter by exact Hmc. destruct s; reflexivity.
Qed.

Lemma microStep_insToPc :
  microCode (project s) !! Z.to_nat (microCodeCounter s) = Some 11 ->
  microStep s
  = (Ok tt,
     set_microCodeCounter (microCodeCounter s + 1)
       (set_programCounter (getDataLow (instructionRegister s)) s)).
Proof.
  intros Hid. start 11 Hid.
  unfold insToPcStep, writeToProgramCounter. unfold_monad.
  cbn [microCodeCounter set_programCounter].
  rewrite next_counter by exact Hmc.
  destruct (data_fields_range (instructionRegister s) Hir) as (_ & Hlow & _).
  rewrite normalizeInt_id by lia. reflexivity.
Qed.

Lemma microStep_nullAcc :
  microCode (project s) !! Z.to_nat (microCodeCounter s) = Some 12 ->
  microStep s
  = (Ok tt,
     set_microCodeCounter (microCodeCounter s + 1) (set_accumulator 0 s)).
Proof.
  intros Hid. start 12 Hid.
  unfold nullAccStep, writeToAccumulator. unfold_monad.
  cbn [microCodeCounter set_accumulator].
  rewrite next_counter by exact Hmc. reflexivity.
Qed.

Lemma microStep_addAcc :
  microCode (project s) !! Z.to_nat (microCodeCounter s) = Some 13 ->
  microStep s
  = (Ok tt,
     set_microCodeCounter (microCodeCounter s + 1)
       (set_accumulator (Z.min (accumulator s + dataBus s) MAX_RAM_VALUE) s)).
Proof.
  intros Hid. start 13 Hid.
  unfold addAccStep, writeToAccumulator. unfold_monad.
  cbn [microCodeCounter set_accumulator].
  rewrite next_counter by exact Hmc.
  rewrite clamp_word_up by lia. reflexivity.
Qed.

Lemma microStep_subAcc :
  microCode (project s) !! Z.to_nat (microCodeCounter s) = Some 14 ->
  microStep s
  = (Ok tt,
     set_microCodeCounter (microCodeCounter s + 1)
       (set_accumulator (Z.max (accumulator s - dataBus s) 0) s)).
Proof.
  intros Hid. start 14 Hid.
  unfold subAccStep, writeToAccumulator. unfold_monad.
  cbn [microCodeCounter set_accumulator].
  rewrite next_counter by exact Hmc.
  rewrite clamp_word_down by lia. reflexivity.
Qed.

Lemma microStep_accToDb :
  microCode (project s) !! Z.to_nat (microCodeCounter s) = Some 15 ->
  microStep s
  = (Ok tt,
     set_microCodeCounter (microCodeCounter s + 1)
       (set_dataBus (accumulator s) s)).
Proof.
  intros Hid. start 15 Hid.
  unfold accToDbStep, writeToDataBus. unfold_monad.
  cbn [microCodeCounter set_dataBus].
  rewrite next_counter by exact Hmc.
  rewrite normalizeInt_id by lia. reflexivity.
Qed.



Lemma microStep_dbToAcc :
  microCode (project s) !! Z.to_nat (microCodeCounter s) = Some 18 ->
  microStep s
  = (Ok tt,
     set_microCodeCounter (microCodeCounter s + 1)
       (set_accumulator (dataBus s) s)).
Proof.
  intros Hid. start 18 Hid.
  unfold dbToAccStep, writeToAccumulator. unfold_monad.
  cbn [microCodeCounter set_accumulator].
  rewrite next_counter by exact Hmc.
  rewrite normalizeInt_id by lia. reflexivity.
Qed.

Lemma microStep_nullMc :
  microCode (project s) !! Z.to_nat (microCodeCounter s) = Some 7 ->
  microStep s = (Ok tt, set_microCodeCounter 0 s).
Proof. intros Hid. start 7 Hid. reflexivity. Qed.

Lemma microStep_stop :
  microCode (project s) !! Z.to_nat (microCodeCounter s) = Some 19 ->
  microStep s
  = (Ok tt, set_alerts (ProgramStoppedAlert :: alerts s) (set_isHlt true s)).
Proof. intros Hid. start 19 Hid. reflexivity. Qed.

Lemma microStep_insToMc :
  microCode (project s) !! Z.to_nat (microCodeCounter s) = Some 5 ->
  getDataHigh (instructionRegister s) <> 0 ->
  microStep s
  = (Ok tt,
     set_selectedRamAddress (programCounter s)
       (set_microCodeCounter (getDataHigh (instructionRegister s) * 10) s)).
Proof.
  intros Hid Hop.
  rewrite (microStep_run s 5 _ Hh ltac:(lia) Hid ltac:(lia) (fun _ => Hop) eq_refl).
  cbn [exec increment].
  destruct Hb as (_ & _ & _ & _ & _ & Hir & _).
  unfold insToMcStep, writeToMicroCodeCounter. unfold_monad.
  destruct (data_fields_range (instructionRegister s) Hir) as (Hhigh & _ & _).
  rewrite normalizeInt_id by (unfold MICROCODE_SIZE; lia). reflexivity.
Qed.

End MicroSteps.

(** ** Macro instructions of the default microcode *)

Lemma singleMacroStep_iterations (k : nat) :
  forall (s s' : Sim) (fuel : nat),
    loop_iterations k s = Some s' ->
    singleMacroStep (k + fuel) s = singleMacroStep fuel s'.
Proof.
  induction k as [|k IH]; intros s s' fuel Hk.
  - injection Hk as <-. reflexivity.
  - cbn [loop_iterations] in Hk. cbn [Nat.add]. rewrite singleMacroStep_S.
    destruct (microStep s) as [[[]|e] s1]; [|discriminate].
    destruct (negb (microCodeCounter s1 =? 0) && negb (isHlt s1));
      [|discriminate].
    apply IH. exact Hk.
Qed.

Lemma loop_iterations_S (k : nat) (s s1 : Sim) :
  microStep s = (Ok tt, s1) ->
  microCodeCounter s1 <> 0 -> isHlt s1 = false ->
  loop_iterations (S k) s = loop_iterations k s1.
Proof.
  intros Hstep Hmc Hh. cbn [loop_iterations]. rewrite Hstep, Hh.
  apply Z.eqb_neq in Hmc. rewrite Hmc. reflexivity.
Qed.

Ltac simpl_state_in H :=
  cbv beta iota delta
    [set_project set_addressBus set_dataBus set_accumulator
     set_programCounter set_instructionRegister set_microCodeCounter
     set_selectedRamAddress set_lastAccessedRamAddress set_isHlt
     set_isMacroRunning set_isRecording set_recordMicroCodeAddress
     set_fixRamAfterShift set_alerts
     project addressBus dataBus accumulator programCounter
     instructionRegister microCodeCounter selectedRamAddress
     lastAccessedRamAddress isHlt isMacroRunning isRecording
     recordMicroCodeAddress fixRamAfterShift alerts
     ram microCode instructionNames set_ram] in H.

Ltac norm_arith :=
  repeat match goal with
    | |- context [?a + ?b] =>
        lazymatch a with Z0 => idtac | Zpos _ => idtac end;
        lazymatch b with Zpos _ => idtac end;
        let v := eval vm_compute in (a + b) in change (a + b) with v
    | |- context [?a * ?b] =>
        lazymatch a with Zpos _ => idtac end;
        lazymatch b with Zpos _ => idtac end;
        let v := eval vm_compute in (a * b) in change (a * b) with v
    end.

Ltac simpl_state :=
  cbv beta iota delta
    [set_project set_addressBus set_dataBus set_accumulator
     set_programCounter set_instructionRegister set_microCodeCounter
     set_selectedRamAddress set_lastAccessedRamAddress set_isHlt
     set_isMacroRunning set_isRecording set_recordMicroCodeAddress
     set_fixRamAfterShift set_alerts
     project addressBus dataBus accumulator programCounter
     instructionRegister microCodeCounter selectedRamAddress
     lastAccessedRamAddress isHlt isMacroRunning isRecording
     recordMicroCodeAddress fixRamAfterShift alerts
     ram microCode instructionNames set_ram];
  norm_arith.

(** One iteration of the macro-step loop that leaves the loop running.
    [mk s Hc Hb E] poses as [E] the equation of the micro step on [s],
    from the range [Hc] of its counter and its bounds [Hb]. *)
Ltac iterate mk :=
  lazymatch goal with
  | Hb : in_bounds ?s |- context [loop_iterations (S ?k) ?s] =>
      let Hc := fresh "Hc" in
      let E := fresh "E" in
      let Hb1 := fresh "Hb" in
      assert (Hc : 0 <= microCodeCounter s < MICROCODE_SIZE - 1)
        by (cbn; unfold MICROCODE_SIZE; lia);
      mk s Hc Hb E;
      pose proof (microStep_preserves s Hb) as Hb1;
      rewrite E in Hb1; cbn [snd] in Hb1;
      rewrite (loop_iterations_S k s _ E)
        by (simpl_state; first [lia|reflexivity|assumption]);
      clear Hc E Hb; simpl_state;
      lazymatch goal with
      | |- context [loop_iterations k ?s1] =>
          let Hb2 := fresh "Hb" in
          assert (Hb2 : in_bounds s1) by exact Hb1; clear Hb1
      end
  end.

Ltac plain L := fun s Hc Hb E => pose proof (L s eq_refl Hc Hb eq_refl) as E.

Lemma fetch_phase (s : Sim) (w : Z) :
  ready s ->
  ram (project s) !! Z.to_nat (programCounter s) = Some w ->
  getDataHigh w <> 0 ->
  let fetched :=
    mkSim (project s) (programCounter s) w (accumulator s) (programCounter s)
      w (getDataHigh w * 10) (programCounter s) (Some (programCounter s))
      false (isMacroRunning s) (isRecording s) (recordMicroCodeAddress s)
      (fixRamAfterShift s) (alerts s) in
  loop_iterations 4 s = Some fetched /\ in_bounds fetched.
Proof.
  intros (Hh & Hmc & Hcode & Hlen & Hb) Hw Hop fetched. subst fetched.
  destruct s as [[r m ns] ab db acc pc ir mc sel la h run rec cur fx al].
  simpl_state_in Hh; simpl_state_in Hmc; simpl_state_in Hcode;
  simpl_state_in Hlen; simpl_state_in Hw; simpl_state. subst h mc m.
  iterate ltac:(plain microStep_pcToAb).
  iterate ltac:(fun s Hc Hb E =>
                  pose proof (microStep_ramToDb s eq_refl Hc Hb w eq_refl Hw) as E).
  iterate ltac:(plain microStep_dbToIns).
  iterate ltac:(fun s Hc Hb E =>
                  pose proof (microStep_insToMc s eq_refl Hc Hb eq_refl Hop) as E).
  split; [reflexivity|exact Hb].
Qed.

(** The last micro step of a macro instruction: it brings the counter
    back to 0, or halts, and the loop ends. *)
Lemma singleMacroStep_last (k fuel : nat) (s s1 s' : Sim) :
  loop_iterations k s = Some s1 ->
  microStep s1 = (Ok tt, s') ->
  microCodeCounter s' = 0 \/ isHlt s' = true ->
  (k < fuel)%nat ->
  singleMacroStep fuel s = Some (Ok tt, s').
Proof.
  intros Hk Hstep Hstop Hfuel.
  replace fuel with (k + S (fuel - k - 1))%nat by lia.
  rewrite (singleMacroStep_iterations k s s1 _ Hk).
  apply singleMacroStep_stops; assumption.
Qed.

Lemma loop_iterations_app (k n : nat) :
  forall s s1 : Sim,
    loop_iterations k s = Some s1 ->
    loop_iterations (k + n) s = loop_iterations n s1.
Proof.
  induction k as [|k IH]; intros s s1 Hk.
  - injection Hk as <-. reflexivity.
  - cbn [loop_iterations Nat.add] in *.
    destruct (microStep s) as [[[]|e] s2]; [|discriminate].
    destruct (negb (microCodeCounter s2 =? 0) && negb (isHlt s2));
      [|discriminate].
    apply IH. exact Hk.
Qed.

Lemma singleMacroStep_continue (fuel : nat) (s s1 : Sim) :
  microStep s = (Ok tt, s1) ->
  microCodeCounter s1 <> 0 -> isHlt s1 = false ->
  singleMacroStep (S fuel) s = singleMacroStep fuel s1.
Proof.
  intros Hstep Hmc Hh. rewrite singleMacroStep_S, Hstep, Hh.
  apply Z.eqb_neq in Hmc. rewrite Hmc. reflexivity.
Qed.

Ltac simpl_hyps :=
  repeat match goal with H : _ |- _ => progress simpl_state_in H end.

(** One iteration of a macro step that leaves the loop running. *)
Ltac continue mk :=
  lazymatch goal with
  | Hb : in_bounds ?s |- context [singleMacroStep (S ?k) ?s] =>
      let Hc := fresh "Hc" in
      let E := fresh "E" in
      let Hb1 := fresh "Hb" in
      assert (Hc : 0 <= microCodeCounter s < MICROCODE_SIZE - 1)
        by (cbn; unfold MICROCODE_SIZE; lia);
      mk s Hc Hb E;
      pose proof (microStep_preserves s Hb) as Hb1;
      rewrite E in Hb1; cbn [snd] in Hb1;
      rewrite (singleMacroStep_continue k s _ E)
        by (simpl_state; first [lia|reflexivity|assumption]);
      clear Hc E Hb; simpl_state;
      lazymatch goal with
      | |- context [singleMacroStep k ?s1] =>
          let Hb2 := fresh "Hb" in
          assert (Hb2 : in_bounds s1) by exact Hb1; clear Hb1
      end
  end.

(** The iteration that ends a macro step. *)
Ltac finish mk :=
  lazymatch goal with
  | Hb : in_bounds ?s |- context [singleMacroStep (S ?k) ?s] =>
      let Hc := fresh "Hc" in
      let E := fresh "E" in
      assert (Hc : 0 <= microCodeCounter s < MICROCODE_SIZE - 1)
        by (cbn; unfold MICROCODE_SIZE; lia);
      mk s Hc Hb E;
      rewrite (singleMacroStep_stops k s _ E)
        by (simpl_state; first [left; reflexivity|right; reflexivity]);
      clear Hc E; simpl_state
  end.

(** Setting up the proof about an instruction word [w] of opcode [op] at
    the program counter: the state is taken apart, the fetch phase is run
    and the counter stands on the first slot of the block of [op]. *)
Ltac fetch s w op Hready Hw Hfields :=
  let Hop := fresh "Hop" in
  let Hlow := fresh "Hlow" in
  destruct Hfields as [Hop Hlow];
  let Hfetch := fresh "Hfetch" in
  let Hb := fresh "Hb" in
  destruct (fetch_phase s w Hready Hw ltac:(rewrite Hop; discriminate))
    as [Hfetch Hb];
  rewrite Hop in Hfetch, Hb;
  let v := eval vm_compute in (op * 10) in
  change (op * 10) with v in Hfetch, Hb;
  destruct Hready as (_ & _ & Hcode & Hlen & _);
  destruct s as [[r m ns] ab db acc pc ir mc sel la h run rec cur fx al];
  simpl_hyps; simpl_state; subst m;
  match goal with
  | Hfuel : (_ <= ?fuel)%nat |- _ =>
      repeat (destruct fuel as [|fuel]; [exfalso; lia|]); clear Hfuel
  end;
  match goal with
  | |- context [singleMacroStep (S (S (S (S ?f)))) ?s0] =>
      change (S (S (S (S f)))) with (4 + f)%nat;
      rewrite (singleMacroStep_iterations 4 s0 _ f Hfetch); clear Hfetch
  end.


Ltac read w Hw :=
  fun s Hc Hb E =>
    pose proof (microStep_ramToDb s eq_refl Hc Hb w eq_refl Hw) as E.

(** X10.  TAKE: on a ready machine whose program counter points at the
    word [1000 + a], one macro step loads the accumulator with the word at
    address [a], moves the program counter to the next address (it stays
    on the last one) and ends with the micro counter back at 0; the RAM
    is unchanged. *)
Theorem macro_TAKE (s : Sim) (a v : Z) (fuel : nat) :
  ready s ->
  0 <= a < RAM_SIZE ->
  ram (project s) !! Z.to_nat (programCounter s) = Some (instruction_word 1 a) ->
  ram (project s) !! Z.to_nat a = Some v ->
  (9 <= fuel)%nat ->
  singleMacroStep fuel s
  = Some (Ok tt,
          after_instruction s a v v
            (Z.min (programCounter s + 1) (RAM_SIZE - 1))
            (instruction_word 1 a) (Some a)).
Proof.
  intros Hready Ha Hw Hv Hfuel.
  pose proof (instruction_word_fields 1 a ltac:(lia) Ha) as Hfields.
  fetch s (instruction_word 1 a) 1 Hready Hw Hfields.
  unfold after_instruction. simpl_state.
  continue ltac:(plain microStep_insToAb). rewrite Hlow in *.
  continue ltac:(read v Hv).
  continue ltac:(plain microStep_dbToAcc).
  continue ltac:(plain microStep_incPc).
  finish ltac:(plain microStep_nullMc).
  reflexivity.
Qed.

(** X11.  ADD and SUB: on a ready machine whose program counter points
    at the word [2000 + a] (or [3000 + a]), one macro step adds the word
    at address [a] to the accumulator (or subtracts it), saturating at
    [MAX_RAM_VALUE] (or at 0) instead of wrapping around, and moves the
    program counter to the next address. *)
Theorem macro_ADD_SUB (s : Sim) (a v : Z) (fuel : nat) :
  ready s ->
  0 <= a < RAM_SIZE ->
  ram (project s) !! Z.to_nat a = Some v ->
  (9 <= fuel)%nat ->
  (ram (project s) !! Z.to_nat (programCounter s) = Some (instruction_word 2 a) ->
   singleMacroStep fuel s
   = Some (Ok tt,
           after_instruction s a v
             (Z.min (accumulator s + v) MAX_RAM_VALUE)
             (Z.min (programCounter s + 1) (RAM_SIZE - 1))
             (instruction_word 2 a) (Some a)))
  /\ (ram (project s) !! Z.to_nat (programCounter s) = Some (instruction_word 3 a) ->
      singleMacroStep fuel s
      = Some (Ok tt,
              after_instruction s a v
                (Z.max (accumulator s - v) 0)
                (Z.min (programCounter s + 1) (RAM_SIZE - 1))
                (instruction_word 3 a) (Some a))).
Proof.
  intros Hready Ha Hv Hfuel. split; intros Hw.
  - pose proof (instruction_word_fields 2 a ltac:(lia) Ha) as Hfields.
    fetch s (instruction_word 2 a) 2 Hready Hw Hfields.
    unfold after_instruction. simpl_state.
    continue ltac:(plain microStep_insToAb). rewrite Hlow in *.
    continue ltac:(read v Hv).
    continue ltac:(plain microStep_addAcc).
    continue ltac:(plain microStep_incPc).
    finish ltac:(plain microStep_nullMc).
    reflexivity.
  - pose proof (instruction_word_fields 3 a ltac:(lia) Ha) as Hfields.
    fetch s (instruction_word 3 a) 3 Hready Hw Hfields.
    unfold after_instruction. simpl_state.
    continue ltac:(plain microStep_insToAb). rewrite Hlow in *.
    continue ltac:(read v Hv).
    continue ltac:(plain microStep_subAcc).
    continue ltac:(plain microStep_incPc).
    finish ltac:(plain microStep_nullMc).
    reflexivity.
Qed.


(** X13.  JMP: on a ready machine whose program counter points at the
    word [5000 + a], one macro step sets the program counter to [a] and
    changes neither the accumulator nor the RAM. *)
Theorem macro_JMP (s : Sim) (a : Z) (fuel : nat) :
  ready s ->
  0 <= a < RAM_SIZE ->
  ram (project s) !! Z.to_nat (programCounter s) = Some (instruction_word 5 a) ->
  (6 <= fuel)%nat ->
  singleMacroStep fuel s
  = Some (Ok tt,
          after_instruction s (programCounter s) (instruction_word 5 a)
            (accumulator s) a (instruction_word 5 a)
            (Some (programCounter s))).
Proof.
  intros Hready Ha Hw Hfuel.
  pose proof (instruction_word_fields 5 a ltac:(lia) Ha) as Hfields.
  fetch s (instruction_word 5 a) 5 Hready Hw Hfields.
  unfold after_instruction. simpl_state.
  continue ltac:(plain microStep_insToPc). rewrite Hlow in *.
  finish ltac:(plain microStep_nullMc).
  reflexivity.
Qed.

(** X14.  TST: on a ready machine whose program counter points at the
    word [6000 + a], one macro step loads the accumulator with the word
    at address [a] and skips the next instruction exactly when that word
    is 0: the program counter advances by two then, by one otherwise
    (never past the last address). *)
Theorem macro_TST (s : Sim) (a v : Z) (fuel : nat) :
  ready s ->
  0 <= a < RAM_SIZE ->
  ram (project s) !! Z.to_nat (programCounter s) = Some (instruction_word 6 a) ->
  ram (project s) !! Z.to_nat a = Some v ->
  (10 <= fuel)%nat ->
  singleMacroStep fuel s
  = Some (Ok tt,
          after_instruction s a v v
            (Z.min (programCounter s + (if v =? 0 then 2 else 1)) (RAM_SIZE - 1))
            (instruction_word 6 a) (Some a)).
Proof.
  intros Hready Ha Hw Hv Hfuel.
  pose proof (instruction_word_fields 6 a ltac:(lia) Ha) as Hfields.
  assert (Hpc : 0 <= programCounter s < RAM_SIZE)
    by (destruct Hready as (_ & _ & _ & _ & _ & _ & Hpc & _); exact Hpc).
  fetch s (instruction_word 6 a) 6 Hready Hw Hfields.
  unfold after_instruction. simpl_state.
  continue ltac:(plain microStep_insToAb). rewrite Hlow in *.
  continue ltac:(read v Hv).
  continue ltac:(plain microStep_dbToAcc).
  continue ltac:(plain microStep_incPcIfAccZero).
  continue ltac:(plain microStep_incPc).
  finish ltac:(plain microStep_nullMc).
  do 3 f_equal. unfold RAM_SIZE in *. destruct (v =? 0); lia.
Qed.


(** X16.  NULL: on a ready machine whose program counter points at the
    word [9000 + a], one macro step clears the word at address [a] and
    the accumulator, keeps every other word and moves the program counter
    on. *)
Theorem macro_NULL (s : Sim) (a : Z) (fuel : nat) :
  ready s ->
  0 <= a < RAM_SIZE ->
  ram (project s) !! Z.to_nat (programCounter s) = Some (instruction_word 9 a) ->
  (10 <= fuel)%nat ->
  singleMacroStep fuel s
  = Some (Ok tt,
          set_project
            (set_ram (<[Z.to_nat a := 0]> (ram (project s))) (project s))
            (after_instruction s a 0 0
               (Z.min (programCounter s + 1) (RAM_SIZE - 1))
               (instruction_word 9 a) (Some a))).
Proof.
  intros Hready Ha Hw Hfuel.
  pose proof (instruction_word_fields 9 a ltac:(lia) Ha) as Hfields.
  fetch s (instruction_word 9 a) 9 Hready Hw Hfields.
  unfold after_instruction. simpl_state.
  continue ltac:(plain microStep_insToAb). rewrite Hlow in *.
  continue ltac:(plain microStep_nullAcc).
  continue ltac:(plain microStep_accToDb).
  continue ltac:(plain microStep_dbToRam).
  continue ltac:(plain microStep_incPc).
  finish ltac:(plain microStep_nullMc).
  reflexivity.
Qed.

(** X17.  HLT: on a ready machine whose program counter points at the
    word [10000 + a], one macro step halts the machine and raises the
    "Program stopped" alert; the program counter stays on the HLT word,
    the micro counter stays inside the block of HLT, and the accumulator
    and the RAM are unchanged. *)
Theorem macro_HLT (s : Sim) (a : Z) (fuel : nat) :
  ready s ->
  0 <= a < RAM_SIZE ->
  ram (project s) !! Z.to_nat (programCounter s) = Some (instruction_word 10 a) ->
  (5 <= fuel)%nat ->
  singleMacroStep fuel s
  = Some (Ok tt,
          mkSim (project s) (programCounter s) (instruction_word 10 a)
            (accumulator s) (programCounter s) (instruction_word 10 a) 100
            (programCounter s) (Some (programCounter s)) true
            (isMacroRunning s) (isRecording s) (recordMicroCodeAddress s)
            (fixRamAfterShift s) (ProgramStoppedAlert :: alerts s)).
Proof.
  intros Hready Ha Hw Hfuel.
  pose proof (instruction_word_fields 10 a ltac:(lia) Ha) as Hfields.
  fetch s (instruction_word 10 a) 10 Hready Hw Hfields.
  finish ltac:(plain microStep_stop).
  reflexivity.
Qed.

Lemma default_microCode_tail (n : nat) :
  (101 <= n < 200)%nat -> initMicroCode_value !! n = Some 0.
Proof.
  intros Hn.
  assert (Htail : drop 101 initMicroCode_value = replicate 99 0)
    by (vm_compute; reflexivity).
  replace n with (101 + (n - 101))%nat by lia.
  rewrite <- lookup_drop, Htail. apply lookup_replicate_2. lia.
Qed.

(** X18.  Words that are not instructions.  On a ready machine whose
    program counter points at a word of opcode 0 (a plain number below
    1000), a macro step stops in the fetch phase with the FETCH error; at
    a word of an opcode from 11 to 19, whose block of the default
    microcode is empty, it stops right after the fetch with the microcode
    error.  Either way the machine is halted, the run flag is cleared, and
    the program counter, the accumulator and the RAM are unchanged. *)
Theorem macro_not_an_instruction (s : Sim) (w : Z) (fuel : nat) :
  ready s ->
  ram (project s) !! Z.to_nat (programCounter s) = Some w ->
  (5 <= fuel)%nat ->
  (getDataHigh w = 0 ->
   singleMacroStep fuel s
   = Some (Ok tt,
           mkSim (project s) (programCounter s) w (accumulator s)
             (programCounter s) w 3 (selectedRamAddress s)
             (Some (programCounter s)) true false (isRecording s)
             (recordMicroCodeAddress s) (fixRamAfterShift s)
             (FetchErrorAlert (programCounter s) :: alerts s)))
  /\ (11 <= getDataHigh w ->
      singleMacroStep fuel s
      = Some (Ok tt,
              mkSim (project s) (programCounter s) w (accumulator s)
                (programCounter s) w (getDataHigh w * 10) (programCounter s)
                (Some (programCounter s)) true false (isRecording s)
                (recordMicroCodeAddress s) (fixRamAfterShift s)
                (MicrocodeZeroAlert (getDataHigh w * 10) :: alerts s))).
Proof.
  intros Hready Hw Hfuel. split; intros Hop.
  - destruct Hready as (Hh & Hmc & Hcode & Hlen & Hb).
    destruct s as [[r m ns] ab db acc pc ir mc sel la h run rec cur fx al].
    simpl_hyps. simpl_state. subst h mc m.
    apply (singleMacroStep_last 3 fuel _
             (mkSim (mkProject r initMicroCode_value ns) pc w acc pc w 3 sel
                (Some pc) false run rec cur fx al)); [| |right; reflexivity|lia].
    + iterate ltac:(plain microStep_pcToAb).
      iterate ltac:(read w Hw).
      iterate ltac:(plain microStep_dbToIns).
      reflexivity.
    + rewrite microStep_dispatch_5_opcode_0;
        [reflexivity|reflexivity|cbn; unfold MICROCODE_SIZE; lia|reflexivity
        |exact Hop].
  - destruct (fetch_phase s w Hready Hw ltac:(lia)) as [Hfetch Hb].
    assert (Hir : word_ok w) by (destruct Hb as (_ & _ & _ & _ & _ & Hir & _); exact Hir).
    destruct (data_fields_range w Hir) as (Hhigh & _ & _).
    eapply (singleMacroStep_last 4 fuel); [exact Hfetch| |right; reflexivity|lia].
    rewrite microStep_dispatch_0;
      [reflexivity|reflexivity|cbn; unfold MICROCODE_SIZE; lia|].
    destruct Hready as (_ & _ & Hcode & _). cbn [project microCode microCodeCounter].
    rewrite Hcode. apply default_microCode_tail. lia.
Qed.

(** *** The instructions at work on a sample machine *)

Lemma sim_at_word_ready (w : Z) : word_ok w -> ready (sim_at_word w).
Proof.
  intros Hw. destruct initRam_value_ok as [Hlen Hram].
  unfold ready, sim_at_word, in_bounds, ram_ok.
  cbn [isHlt microCodeCounter project microCode ram set_accumulator
       set_project set_ram init_sim init_project addressBus programCounter
       dataBus accumulator instructionRegister].
  split; [reflexivity|]. split; [reflexivity|]. split; [reflexivity|].
  split; [rewrite !length_insert; exact Hlen|].
  split.
  { repeat apply Forall_insert; try assumption. vm_compute. split; discriminate. }
  vm_compute. repeat split; discriminate.
Qed.

Lemma instruction_word_ok (opcode operand : Z) :
  0 <= opcode <= 19 -> 0 <= operand < RAM_SIZE ->
  word_ok (instruction_word opcode operand).
Proof.
  unfold word_ok, instruction_word, RAM_SIZE. change MAX_RAM_VALUE with 19999. lia.
Qed.

Lemma macro_TAKE_witness :
  let s := sim_at_word (instruction_word 1 5) in
  ready s /\ 0 <= 5 < RAM_SIZE
  /\ ram (project s) !! Z.to_nat (programCounter s) = Some (instruction_word 1 5)
  /\ ram (project s) !! Z.to_nat 5 = Some 7
  /\ (9 <= 9)%nat
  /\ exists s', singleMacroStep 9 s = Some (Ok tt, s')
                /\ accumulator s' = 7 /\ programCounter s' = 1.
Proof.
  intros s.
  assert (Ha : 0 <= 5 < RAM_SIZE) by (unfold RAM_SIZE; lia).
  assert (Hr : ready s)
    by (apply sim_at_word_ready, instruction_word_ok; [lia|exact Ha]).
  assert (Hw : ram (project s) !! Z.to_nat (programCounter s)
               = Some (instruction_word 1 5)) by reflexivity.
  assert (Hv : ram (project s) !! Z.to_nat 5 = Some 7) by reflexivity.
  assert (Hfuel : (9 <= 9)%nat) by lia.
  repeat (split; [assumption|]).
  eexists. split; [exact (macro_TAKE s 5 7 9 Hr Ha Hw Hv Hfuel)|].
  split; reflexivity.
Defined.

Lemma macro_ADD_SUB_witness :
  let s := sim_at_word (instruction_word 2 5) in
  let s3 := sim_at_word (instruction_word 3 5) in
  ready s /\ ready s3 /\ 0 <= 5 < RAM_SIZE
  /\ ram (project s) !! Z.to_nat 5 = Some 7
  /\ ram (project s3) !! Z.to_nat 5 = Some 7
  /\ (9 <= 9)%nat
  /\ ram (project s) !! Z.to_nat (programCounter s) = Some (instruction_word 2 5)
  /\ ram (project s3) !! Z.to_nat (programCounter s3) = Some (instruction_word 3 5)
  /\ accumulator s = 19995
  /\ (exists s', singleMacroStep 9 s = Some (Ok tt, s')
                 /\ accumulator s' = 19999)
  /\ (exists s', singleMacroStep 9 s3 = Some (Ok tt, s')
                 /\ accumulator s' = 19988).
Proof.
  intros s s3.
  assert (Ha : 0 <= 5 < RAM_SIZE) by (unfold RAM_SIZE; lia).
  assert (Hr : ready s)
    by (apply sim_at_word_ready, instruction_word_ok; [lia|exact Ha]).
  assert (Hr3 : ready s3)
    by (apply sim_at_word_ready, instruction_word_ok; [lia|exact Ha]).
  assert (Hv : ram (project s) !! Z.to_nat 5 = Some 7) by reflexivity.
  assert (Hv3 : ram (project s3) !! Z.to_nat 5 = Some 7) by reflexivity.
  assert (Hfuel : (9 <= 9)%nat) by lia.
  assert (Hw : ram (project s) !! Z.to_nat (programCounter s)
               = Some (instruction_word 2 5)) by reflexivity.
  assert (Hw3 : ram (project s3) !! Z.to_nat (programCounter s3)
                = Some (instruction_word 3 5)) by reflexivity.
  repeat (split; [assumption|]).
  split; [reflexivity|]. split.
  - eexists. split; [exact (proj1 (macro_ADD_SUB s 5 7 9 Hr Ha Hv Hfuel) Hw)|].
    reflexivity.
  - eexists. split; [exact (proj2 (macro_ADD_SUB s3 5 7 9 Hr3 Ha Hv3 Hfuel) Hw3)|].
    reflexivity.
Defined.


Lemma macro_JMP_witness :
  let s := sim_at_word (instruction_word 5 5) in
  ready s /\ 0 <= 5 < RAM_SIZE
  /\ ram (project s) !! Z.to_nat (programCounter s) = Some (instruction_word 5 5)
  /\ (6 <= 6)%nat
  /\ exists s', singleMacroStep 6 s = Some (Ok tt, s')
                /\ programCounter s' = 5.
Proof.
  intros s.
  assert (Ha : 0 <= 5 < RAM_SIZE) by (unfold RAM_SIZE; lia).
  assert (Hr : ready s)
    by (apply sim_at_word_ready, instruction_word_ok; [lia|exact Ha]).
  assert (Hw : ram (project s) !! Z.to_nat (programCounter s)
               = Some (instruction_word 5 5)) by reflexivity.
  assert (Hfuel : (6 <= 6)%nat) by lia.
  repeat (split; [assumption|]).
  eexists. split; [exact (macro_JMP s 5 6 Hr Ha Hw Hfuel)|]. reflexivity.
Defined.

Lemma macro_TST_witness :
  let s := sim_at_word (instruction_word 6 5) in
  let s0 := sim_at_word (instruction_word 6 9) in
  ready s /\ ready s0 /\ 0 <= 5 < RAM_SIZE /\ 0 <= 9 < RAM_SIZE
  /\ ram (project s) !! Z.to_nat (programCounter s) = Some (instruction_word 6 5)
  /\ ram (project s0) !! Z.to_nat (programCounter s0) = Some (instruction_word 6 9)
  /\ ram (project s) !! Z.to_nat 5 = Some 7
  /\ ram (project s0) !! Z.to_nat 9 = Some 0
  /\ (10 <= 10)%nat
  /\ (exists s', singleMacroStep 10 s = Some (Ok tt, s')
                 /\ programCounter s' = 1)
  /\ (exists s', singleMacroStep 10 s0 = Some (Ok tt, s')
                 /\ programCounter s' = 2).
Proof.
  intros s s0.
  assert (Ha : 0 <= 5 < RAM_SIZE) by (unfold RAM_SIZE; lia).
  assert (Ha0 : 0 <= 9 < RAM_SIZE) by (unfold RAM_SIZE; lia).
  assert (Hr : ready s)
    by (apply sim_at_word_ready, instruction_word_ok; [lia|exact Ha]).
  assert (Hr0 : ready s0)
    by (apply sim_at_word_ready, instruction_word_ok; [lia|exact Ha0]).
  assert (Hw : ram (project s) !! Z.to_nat (programCounter s)
               = Some (instruction_word 6 5)) by reflexivity.
  assert (Hw0 : ram (project s0) !! Z.to_nat (programCounter s0)
                = Some (instruction_word 6 9)) by reflexivity.
  assert (Hv : ram (project s) !! Z.to_nat 5 = Some 7) by reflexivity.
  assert (Hv0 : ram (project s0) !! Z.to_nat 9 = Some 0) by reflexivity.
  assert (Hfuel : (10 <= 10)%nat) by lia.
  repeat (split; [assumption|]).
  split.
  - eexists. split; [exact (macro_TST s 5 7 10 Hr Ha Hw Hv Hfuel)|]. reflexivity.
  - eexists. split; [exact (macro_TST s0 9 0 10 Hr0 Ha0 Hw0 Hv0 Hfuel)|].
    reflexivity.
Defined.


Lemma macro_NULL_witness :
  let s := sim_at_word (instruction_word 9 5) in
  ready s /\ 0 <= 5 < RAM_SIZE
  /\ ram (project s) !! Z.to_nat (programCounter s) = Some (instruction_word 9 5)
  /\ (10 <= 10)%nat
  /\ exists s', singleMacroStep 10 s = Some (Ok tt, s')
                /\ ram (project s') !! 5%nat = Some 0 /\ accumulator s' = 0.
Proof.
  intros s.
  assert (Ha : 0 <= 5 < RAM_SIZE) by (unfold RAM_SIZE; lia).
  assert (Hr : ready s)
    by (apply sim_at_word_ready, instruction_word_ok; [lia|exact Ha]).
  assert (Hw : ram (project s) !! Z.to_nat (programCounter s)
               = Some (instruction_word 9 5)) by reflexivity.
  assert (Hfuel : (10 <= 10)%nat) by lia.
  repeat (split; [assumption|]).
  eexists. split; [exact (macro_NULL s 5 10 Hr Ha Hw Hfuel)|].
  split; reflexivity.
Defined.

Lemma macro_HLT_witness :
  let s := sim_at_word (instruction_word 10 0) in
  ready s /\ 0 <= 0 < RAM_SIZE
  /\ ram (project s) !! Z.to_nat (programCounter s) = Some (instruction_word 10 0)
  /\ (5 <= 5)%nat
  /\ exists s', singleMacroStep 5 s = Some (Ok tt, s')
                /\ isHlt s' = true /\ programCounter s' = 0.
Proof.
  intros s.
  assert (Ha : 0 <= 0 < RAM_SIZE) by (unfold RAM_SIZE; lia).
  assert (Hr : ready s)
    by (apply sim_at_word_ready, instruction_word_ok; [lia|exact Ha]).
  assert (Hw : ram (project s) !! Z.to_nat (programCounter s)
               = Some (instruction_word 10 0)) by reflexivity.
  assert (Hfuel : (5 <= 5)%nat) by lia.
  repeat (split; [assumption|]).
  eexists. split; [exact (macro_HLT s 0 5 Hr Ha Hw Hfuel)|].
  split; reflexivity.
Defined.

Lemma macro_not_an_instruction_witness :
  let s := sim_at_word 42 in
  let s' := sim_at_word (instruction_word 15 3) in
  ready s /\ ready s'
  /\ ram (project s) !! Z.to_nat (programCounter s) = Some 42
  /\ ram (project s') !! Z.to_nat (programCounter s') = Some (instruction_word 15 3)
  /\ (5 <= 5)%nat
  /\ getDataHigh 42 = 0 /\ 11 <= getDataHigh (instruction_word 15 3)
  /\ (exists t, singleMacroStep 5 s = Some (Ok tt, t)
                /\ isHlt t = true /\ alerts t = [FetchErrorAlert 0])
  /\ (exists t, singleMacroStep 5 s' = Some (Ok tt, t)
                /\ isHlt t = true /\ alerts t = [MicrocodeZeroAlert 150]).
Proof.
  intros s s'.
  assert (Hr : ready s) by (apply sim_at_word_ready; vm_compute; split; discriminate).
  assert (Hr' : ready s')
    by (apply sim_at_word_ready; vm_compute; split; discriminate).
  assert (Hw : ram (project s) !! Z.to_nat (programCounter s) = Some 42)
    by reflexivity.
  assert (Hw' : ram (project s') !! Z.to_nat (programCounter s')
                = Some (instruction_word 15 3)) by reflexivity.
  assert (Hfuel : (5 <= 5)%nat) by lia.
  assert (H0 : getDataHigh 42 = 0) by reflexivity.
  assert (H15 : 11 <= getDataHigh (instruction_word 15 3))
    by (vm_compute; discriminate).
  repeat (split; [assumption|]).
  split.
  - eexists. split; [exact (proj1 (macro_not_an_instruction s 42 5 Hr Hw Hfuel) H0)|].
    split; reflexivity.
  - eexists.
    split; [exact (proj2 (macro_not_an_instruction s' _ 5 Hr' Hw' Hfuel) H15)|].
    split; reflexivity.
Defined.

(** ** The RAM editor on whole memories *)







(** ** The operand fix-up *)















Ltac sample_bounds :=
  split; solve [reflexivity | vm_compute; discriminate].





(** ** The older RAM editor *)











(** ** Deleting a row past the last used one, in both copies *)


Lemma fixed_word_zero (startAddress delta : Z) :
  fixed_word startAddress delta 0 = 0.
Proof. reflexivity. Qed.





(** ** Trimming *)












(** ** Starting a recording *)



(** ** Manual steps while recording *)




(** ** Entering words by hand *)






(** ** Size of the RAM and the selected row over all handlers *)

Lemma setRam_sized (address : Z) (value : option Z) :
  preserves ram_sized (setRam address value).
Proof.
  intros p H. unfold setRam.
  destruct ((address <? 0) || (address >=? RAM_SIZE)); [exact H|].
  destruct value as [v|]; [|exact H].
  destruct ((v <? 0) || (v >? MAX_RAM_VALUE)); [exact H|].
  unfold ram_sized, modify. cbn [snd ram set_ram].
  rewrite length_insert. exact H.
Qed.

Lemma getRam_sized (address : Z) : preserves ram_sized (getRam address).
Proof. intros p H. unfold getRam. destruct (_ || _); exact H. Qed.

Lemma setMicroCode_sized (address : Z) (value : option Z) :
  preserves ram_sized (setMicroCode address value).
Proof.
  intros p H. unfold setMicroCode.
  destruct ((address <? 0) || (address >=? MICROCODE_SIZE)); [exact H|].
  destruct value as [v|]; [|exact H].
  destruct ((v <? 0) || (v >? 19) || (v =? 6)); exact H.
Qed.

Lemma getMicroCode_sized (address : Z) :
  preserves ram_sized (getMicroCode address).
Proof. intros p H. unfold getMicroCode. destruct (_ || _); exact H. Qed.

Lemma setInstructionName_sized (opCode : Z) (name : string) :
  preserves ram_sized (setInstructionName opCode name).
Proof.
  intros p H. unfold setInstructionName.
  destruct (_ || _); [exact H|]. destruct (_ || _); exact H.
Qed.

Lemma initRam_sized : preserves ram_sized initRam.
Proof. intros p _. apply length_replicate. Qed.

Lemma initMicroCode_sized : preserves ram_sized initMicroCode.
Proof. intros p H. exact H. Qed.

Lemma fromJSON_sized (json : JsVal) : preserves ram_sized (fromJSON json).
Proof.
  unfold fromJSON.
  apply preserves_bind; [apply get_prop_preserves|]. intros json_ram.
  apply preserves_bind.
  { destruct json_ram; try apply preserves_throw.
    destruct (andb _ _) eqn:Hcheck; [|apply preserves_throw].
    apply preserves_modify. intros p _.
    apply andb_true_iff in Hcheck as [Hlen Hvals].
    unfold ram_sized. cbn [ram set_ram].
    rewrite (valid_values_length is_ram_value) by
      (try exact Hvals; intros [] Hv; try discriminate; eexists; reflexivity).
    apply Z.eqb_eq in Hlen. lia. }
  intros _. apply preserves_bind; [apply get_prop_preserves|]. intros json_mc.
  apply preserves_bind.
  { destruct json_mc; try apply preserves_throw.
    destruct (andb _ _); [|apply preserves_throw].
    apply preserves_modify. intros p H. exact H. }
  intros _. apply preserves_bind; [apply get_prop_preserves|]. intros json_names.
  destruct json_names; try apply preserves_throw;
    apply preserves_modify; intros p H; exact H.
Qed.

Lemma import_sized (parsed : option JsVal) :
  preserves ram_sized (import parsed).
Proof.
  unfold import. apply preserves_try_catch; [|intros e; apply preserves_ret].
  apply preserves_bind; [|intros _; apply preserves_ret].
  destruct parsed; [apply fromJSON_sized|apply preserves_throw].
Qed.

Lemma importLegacyRam_sized (lines : list (option Z)) :
  preserves ram_sized (importLegacyRam lines).
Proof.
  unfold importLegacyRam.
  apply preserves_try_catch; [|intros e; apply preserves_ret].
  apply preserves_bind; [apply initRam_sized|]. intros _.
  generalize 0 as i. induction lines as [|line rest IH]; intros i; simpl.
  - apply preserves_ret.
  - destruct (i <? RAM_SIZE); [|apply preserves_ret].
    apply preserves_bind; [|intros _; apply IH].
    destruct line as [v|]; [destruct (_ || _)|]; apply setRam_sized.
Qed.

Lemma on_project_addressable {A : Type} (m : M JohnnyProject A) :
  preserves ram_sized m -> preserves addressable (on_project m).
Proof.
  intros Hm s (Hram & Hrest). unfold on_project, addressable.
  cbn [snd project set_project selectedRamAddress programCounter].
  split; [apply Hm; exact Hram|exact Hrest].
Qed.

Lemma writeToProgramCounter_addressable (value : option Z) :
  preserves addressable (writeToProgramCounter value).
Proof.
  intros s (Hram & Hsel & _). pose proof (address_range value) as Hnew.
  unfold addressable. simpl. tauto.
Qed.

Lemma writeToRam_addressable (address : Z) (value : option Z) :
  preserves addressable (writeToRam address value).
Proof. apply on_project_addressable. apply setRam_sized. Qed.

Lemma selectProgramCounter_addressable :
  preserves addressable
    (modify (fun s => set_selectedRamAddress (programCounter s) s)).
Proof.
  apply preserves_modify. intros s (Hram & _ & Hpc).
  unfold addressable. simpl. tauto.
Qed.

Lemma selectNext_addressable :
  preserves addressable
    (modify (fun s =>
       set_selectedRamAddress (Z.rem (selectedRamAddress s + 1) RAM_SIZE) s)).
Proof.
  apply preserves_modify. intros s (Hram & Hsel & Hpc).
  unfold addressable. simpl. split; [exact Hram|]. split; [|exact Hpc].
  unfold RAM_SIZE in *.
  pose proof (Z.rem_bound_pos (selectedRamAddress s + 1) 1000). lia.
Qed.

Lemma selectFirst_addressable :
  preserves addressable (modify (set_selectedRamAddress 0)).
Proof.
  apply preserves_modify. intros s (Hram & _ & Hpc).
  unfold addressable. simpl. unfold RAM_SIZE in *. split; [exact Hram|lia].
Qed.

Create HintDb shape.

#[local] Hint Resolve
  setRam_sized getRam_sized setMicroCode_sized getMicroCode_sized
  setInstructionName_sized initRam_sized initMicroCode_sized import_sized
  importLegacyRam_sized on_project_addressable
  writeToProgramCounter_addressable writeToRam_addressable
  selectProgramCounter_addressable selectNext_addressable
  selectFirst_addressable : shape.

Ltac shape_auto :=
  repeat first
    [ solve [auto with shape]
    | preserves_step
    | solve [preserves_frame] ].

Lemma exec_addressable (id : option Z) (mi : MicroInstruction) :
  MICRO_INSTRUCTIONS id = Some mi -> preserves addressable (exec mi).
Proof.
  intros Hmi. destruct id as [id|]; [|discriminate].
  split_id id;
    try (rewrite MICRO_INSTRUCTIONS_None in Hmi by lia; discriminate);
    simpl in Hmi; injection Hmi as <-; simpl.
  all: unfold dbToRamStep, ramToDbStep, dbToInsStep, insToAbStep, insToMcStep,
         nullMcStep, pcToAbStep, incPcStep, incPcIfAccZeroStep, insToPcStep,
         nullAccStep, addAccStep, subAccStep, accToDbStep, incAccStep,
         decAccStep, dbToAccStep, stopStep, incPcStep,
         writeToAddressBus, writeToDataBus, writeToAccumulator,
         writeToInstructionRegister, writeToMicroCodeCounter, alert.
  all: shape_auto.
Qed.

Lemma executeMicroInstruction_addressable (id : option Z) (isManual : bool) :
  preserves addressable (executeMicroInstruction id isManual).
Proof.
  unfold executeMicroInstruction.
  destruct (MICRO_INSTRUCTIONS id) as [mi|] eqn:Hmi.
  - apply preserves_bind; [exact (exec_addressable id mi Hmi)|]. intros _.
    unfold recordMicroStep, writeToMicroCodeCounter. shape_auto.
  - unfold stopMacroProgram, alert. shape_auto.
Qed.

#[local] Hint Resolve executeMicroInstruction_addressable : shape.

Lemma microStep_addressable : preserves addressable microStep.
Proof. unfold microStep, stopMacroProgram, alert. shape_auto. Qed.

Lemma singleMacroStep_addressable (fuel : nat) :
  forall (s s' : Sim) (r : Res unit),
    addressable s -> singleMacroStep fuel s = Some (r, s') -> addressable s'.
Proof.
  induction fuel as [|fuel IH]; intros s s' r Hs Hrun; [discriminate|].
  rewrite singleMacroStep_S in Hrun.
  pose proof (microStep_addressable s Hs) as Hstep.
  destruct (microStep s) as [[[]|e] s1]; simpl in Hstep.
  - destruct (negb (microCodeCounter s1 =? 0) && negb (isHlt s1)).
    + exact (IH s1 s' r Hstep Hrun).
    + injection Hrun as _ <-. exact Hstep.
  - injection Hrun as _ <-. exact Hstep.
Qed.

Lemma resetSimulator_addressable : preserves addressable resetSimulator.
Proof.
  unfold resetSimulator, stopMacroProgram, writeToAddressBus, writeToDataBus,
    writeToAccumulator, writeToInstructionRegister, writeToMicroCodeCounter.
  shape_auto.
Qed.

#[local] Hint Resolve resetSimulator_addressable : shape.

Lemma run_op_addressable (op : Op) (s s' : Sim) :
  addressable s -> run_op op s = Some s' -> addressable s'.
Proof.
  intros Hs Hrun. destruct op; cbn [run_op] in Hrun.
  - injection Hrun as <-. exact (microStep_addressable s Hs).
  - destruct (singleMacroStep fuel s) as [[r s1]|] eqn:Hmacro; [|discriminate].
    injection Hrun as <-. exact (singleMacroStep_addressable fuel s s1 r Hs Hmacro).
  - injection Hrun as <-. revert s Hs.
    change (preserves addressable (manualMicroStep id)).
    unfold manualMicroStep. shape_auto.
  - destruct (orb _ _) eqn:Hguard; [discriminate|]. injection Hrun as <-.
    destruct Hs as (Hram & _ & Hpc).
    apply orb_false_iff in Hguard as [G1 G2].
    apply Z.ltb_ge in G1. rewrite Z.geb_leb in G2. apply Z.leb_gt in G2.
    unfold addressable. simpl. tauto.
  - injection Hrun as <-. revert s Hs.
    change (preserves addressable (manualRamInput input)).
    unfold manualRamInput, alert. shape_auto.
  - injection Hrun as <-. revert s Hs.
    change (preserves addressable (manualAddressBus input)).
    unfold manualAddressBus, writeToAddressBus, alert. shape_auto.
  - injection Hrun as <-. revert s Hs.
    change (preserves addressable (manualDataBus input)).
    unfold manualDataBus, writeToDataBus, alert. shape_auto.
  - injection Hrun as <-. revert s Hs.
    change (preserves addressable insertRamRowAbove).
    unfold insertRamRowAbove, fixOperandAfterRamShift, alert. shape_auto.
  - injection Hrun as <-. revert s Hs.
    change (preserves addressable deleteRamRow).
    unfold deleteRamRow, fixOperandAfterRamShift. shape_auto.
  - injection Hrun as <-. revert s Hs.
    change (preserves addressable (toggleRecording startAddress name)).
    unfold toggleRecording, startRecording, alert. shape_auto.
  - injection Hrun as <-. exact (resetSimulator_addressable s Hs).
  - injection Hrun as <-.
    exact (on_project_addressable resetRam initRam_sized s Hs).
  - injection Hrun as <-.
    exact (on_project_addressable resetMicroCode initMicroCode_sized s Hs).
  - injection Hrun as <-. revert s Hs.
    change (preserves addressable (uploadProjectFromFile parsed)).
    unfold uploadProjectFromFile, alert. shape_auto.
  - injection Hrun as <-. revert s Hs.
    change (preserves addressable (uploadRamAsFile lines)).
    unfold uploadRamAsFile, alert. shape_auto.
  - injection Hrun as <-. exact Hs.
  - injection Hrun as <-. exact Hs.
Qed.

Lemma init_sim_addressable : addressable init_sim.
Proof.
  unfold addressable, ram_sized. split; [apply length_replicate|].
  split; sample_bounds.
Qed.

(** X27.  Every state reached from the initial one by the handlers of
    [Op] -- stepping, manual steps and inputs, row edits, recording,
    resets and file uploads, in any order and whether they return or
    throw -- has a RAM of exactly [RAM_SIZE] words, each within
    [0, MAX_RAM_VALUE], every register within its range, and a selected
    row inside the RAM. *)
Theorem reachable_state_well_formed (s : Sim) :
  reachable s ->
  length (ram (project s)) = Z.to_nat RAM_SIZE
  /\ 0 <= selectedRamAddress s < RAM_SIZE
  /\ in_bounds s.
Proof.
  intros Hreach.
  assert (Hshape : addressable s).
  { induction Hreach as [|s s' op _ IH Hrun].
    - apply init_sim_addressable.
    - exact (run_op_addressable op s s' IH Hrun). }
  destruct Hshape as (Hram & Hsel & _).
  split; [exact Hram|]. split; [exact Hsel|].
  apply reachable_in_bounds. exact Hreach.
Qed.

Lemma reachable_state_well_formed_witness :
  let s := snd (manualRamInput (Some 1005) init_sim) in
  reachable s
  /\ length (ram (project s)) = Z.to_nat RAM_SIZE
  /\ 0 <= selectedRamAddress s < RAM_SIZE
  /\ in_bounds s.
Proof.
  intros s.
  assert (H : reachable s).
  { apply (reachable_step init_sim s (OpManualRamInput (Some 1005)));
      [apply reachable_init|reflexivity]. }
  split; [exact H|].
  exact (reachable_state_well_formed s H).
Defined.

(** ** File uploads *)



